(** * Bankier forum crawl-and-score pipeline

    A shallow embedding of the crawl-and-score core of the repository:
    - [Fundamental/fundamental_screen.py]   (async crawler, weighted scorer)
    - [Bankier_sentyment/sentiment_analyzer.py] (browser crawler, keyword
      sentiment scorer)

    Python [str] values are sequences of Unicode code points, so they are
    modelled as [list N]; [len] is [length], slicing [s[:n]] is [take n].
    Library behaviour that the repository only calls is kept abstract:
    [str.lower] and the decimal value of a Unicode digit are Section
    variables, an HTML page is the record of what the selectors used by the
    code observe in it, and the network is an oracle answering each
    [client.get].  Floats are binary64 values; the builtin [sum], which
    changed with CPython 3.12, is modelled in both of its forms and the
    scorer takes the form as a parameter.

    The first part holds the embedding, one module per component of the
    pipeline ([Fetcher], [Extractor], [Crawler], [Browser], [Company]) and
    the interleaving semantics of the tasks of [main] on their semaphore
    ([Gate]); the second part holds the properties. *)

From Stdlib Require Import ZArith NArith Floats Lia List.
From Stdlib Require Import Strings.String Strings.Ascii.
From stdpp Require Import base decidable option list strings gmap sets relations sorting.

Set Default Proof Using "Type".
Set Warnings "-inexact-float,-abstract-large-number".

(* ===================================================================== *)
(** ** Python strings as code-point sequences *)
(* ===================================================================== *)

Module PyStr.
Local Open Scope N_scope.

Definition char := N.
Definition pystr := list N.

(** Source literals are written as Rocq strings (UTF-8 bytes) and decoded to
    code points, so that [len] counts characters the way Python does. *)
Fixpoint utf8_decode (bs : list N) : pystr :=
  match bs with
  | [] => []
  | b0 :: r0 =>
    if b0 <? 128 then b0 :: utf8_decode r0
    else if b0 <? 224 then
      match r0 with
      | b1 :: r1 => ((b0 - 192) * 64 + (b1 - 128)) :: utf8_decode r1
      | _ => []
      end
    else if b0 <? 240 then
      match r0 with
      | b1 :: b2 :: r2 =>
        ((b0 - 224) * 4096 + (b1 - 128) * 64 + (b2 - 128)) :: utf8_decode r2
      | _ => []
      end
    else
      match r0 with
      | b1 :: b2 :: b3 :: r3 =>
        ((b0 - 240) * 262144 + (b1 - 128) * 4096 + (b2 - 128) * 64 + (b3 - 128))
          :: utf8_decode r3
      | _ => []
      end
  end.

Definition py (s : string) : pystr :=
  utf8_decode (map N_of_ascii (list_ascii_of_string s)).

(** [str.isspace] for one character; also the class [\s] of [re] on [str]
    patterns. *)
Definition is_space (c : char) : bool :=
  ((9 <=? c) && (c <=? 13)) || ((28 <=? c) && (c <=? 32))
  || (c =? 133) || (c =? 160) || (c =? 5760)
  || ((8192 <=? c) && (c <=? 8202))
  || (c =? 8232) || (c =? 8233) || (c =? 8239) || (c =? 8287) || (c =? 12288).

Definition SPACE : char := 32.

Fixpoint lstrip (l : pystr) : pystr :=
  match l with
  | [] => []
  | c :: r => if is_space c then lstrip r else l
  end.

Fixpoint rstrip (l : pystr) : pystr :=
  match l with
  | [] => []
  | c :: r =>
    match rstrip r with
    | [] => if is_space c then [] else [c]
    | r' => c :: r'
    end
  end.

(** [s.strip()] *)
Definition strip (l : pystr) : pystr := rstrip (lstrip l).

(** [re.sub(r"\s+", " ", t)]: every maximal run of whitespace becomes one
    U+0020.  [in_run] tells that the previous character was whitespace. *)
Fixpoint sub_ws (in_run : bool) (t : pystr) : pystr :=
  match t with
  | [] => []
  | c :: r =>
    if is_space c
    then (if in_run then sub_ws true r else SPACE :: sub_ws true r)
    else c :: sub_ws false r
  end.

Definition collapse_ws (t : pystr) : pystr := sub_ws false t.

(** [re.sub(r"\s+", " ", t).strip()] *)
Definition normalize (t : pystr) : pystr := strip (collapse_ws t).

Fixpoint starts_with (p l : pystr) : bool :=
  match p, l with
  | [], _ => true
  | _ :: _, [] => false
  | a :: p', b :: l' => (a =? b) && starts_with p' l'
  end.

(** [needle in hay] *)
Fixpoint contains (needle hay : pystr) : bool :=
  starts_with needle hay ||
  match hay with
  | [] => false
  | _ :: r => contains needle r
  end.

(** [sep.join(parts)] *)
Fixpoint join (sep : pystr) (parts : list pystr) : pystr :=
  match parts with
  | [] => []
  | [x] => x
  | x :: r => x ++ sep ++ join sep r
  end.

(** An instance of [str.lower] that agrees with Python on ASCII text. *)
Definition ascii_lower_char (c : char) : char :=
  if (65 <=? c) && (c <=? 90) then c + 32 else c.

Definition ascii_lower (s : pystr) : pystr := map ascii_lower_char s.

(** The decimal value of an ASCII digit; an instance of the digit table
    behind [\d] and [int]. *)
Definition ascii_digit_value (c : char) : option N :=
  if (48 <=? c) && (c <=? 57) then Some (c - 48) else None.

(** [single_spaced b l]: every whitespace character of [l] is U+0020 and is
    not preceded by whitespace ([b]: the character before [l] was one). *)
Fixpoint single_spaced (b : bool) (l : pystr) : bool :=
  match l with
  | [] => true
  | c :: r =>
    if is_space c then negb b && (c =? SPACE) && single_spaced true r
    else single_spaced false r
  end.

End PyStr.

(* ===================================================================== *)
(** ** Keyword sentiment scorer
       ([Bankier_sentyment/sentiment_analyzer.py], [analyze_sentiment]) *)
(* ===================================================================== *)

Module Sentiment.
Import PyStr.

Inductive label := POZYTYWNY | NEGATYWNY | NEUTRALNY.

#[global] Instance label_eq_dec : EqDecision label.
Proof. solve_decision. Defined.

Definition positive_keywords : list pystr := map py
  [ "wzrost"; "zysk"; "dobr"; "super"; "świetn"; "pozytywn"; "sukces"; "rekord";
    "kupuj"; "kupić"; "kupuję"; "hold"; "trzyma"; "rosnąć"; "rośnie"; "górę"; "cel";
    "plus"; "zyskown"; "mocn"; "bullish"; "bull"; "rally"; "boom"; "brać"; "długi";
    "pięknie"; "fajnie"; "solidn"; "zbiera"; "wystrzał"; "wzór"; "rekomenduj";
    "okazja"; "tanio"; "warte"; "silny"; "dynamiczny"; "perspektywy"; "wzorem" ]%string.

Definition negative_keywords : list pystr := map py
  [ "spadek"; "strat"; "kiepsk"; "słab"; "negatywn"; "kryzys"; "problem";
    "sprzeda"; "sprzedaj"; "sprzedam"; "sell"; "ucieka"; "dół"; "minus"; "short";
    "tracę"; "gubi"; "bearish"; "bear"; "crash"; "dno"; "taniec"; "płacz";
    "najgorszy"; "dziadostwo"; "gniot"; "współczuj"; "zawiedziony"; "dramat";
    "zmarnowany"; "zawalisz"; "blada"; "panika"; "zagrożenie"; "ryzyko"; "strach" ]%string.

(** [sum(1 for keyword in keywords if keyword in text)] *)
Fixpoint sum_present (keywords : list pystr) (text : pystr) : Z :=
  match keywords with
  | [] => 0
  | keyword :: rest =>
    ((if contains keyword text then 1 else 0) + sum_present rest text)%Z
  end.

Section WithLower.
Variable lower : pystr -> pystr.

Definition analyze_sentiment (title : option pystr) : label * Z :=
  let title_lower := lower (default [] title) in
  let positive_score := sum_present positive_keywords title_lower in
  let negative_score := sum_present negative_keywords title_lower in
  if (negative_score <? positive_score)%Z then
    (POZYTYWNY, (positive_score - negative_score)%Z)
  else if (positive_score <? negative_score)%Z then
    (NEGATYWNY, (negative_score - positive_score)%Z)
  else
    (NEUTRALNY, 0%Z).

End WithLower.

(** The counts the specification speaks of: how many members of a keyword
    list occur as substrings of the text. *)
Definition present_count (keywords : list pystr) (text : pystr) : Z :=
  Z.of_nat (length (filter (fun k => contains k text = true) keywords)).

End Sentiment.

(* ===================================================================== *)
(** ** Weighted fundamental scorer
       ([Fundamental/fundamental_screen.py], [analyze_fundamentals],
        [get_fundamental_rating]) *)
(* ===================================================================== *)

Module Fundamental.
Import PyStr.
Local Open Scope float_scope.

(** One entry of [FUNDAMENTAL_CATEGORIES]. *)
Record category := {
  weight : float;
  positive_keywords : list pystr;
  negative_keywords : list pystr
}.

(** The table is a Python dict: its items come in insertion order and its
    keys are pairwise distinct. *)
Definition FUNDAMENTAL_CATEGORIES : list (pystr * category) :=
  [ (py "EARNINGS",
     {| weight := 0.25;
        positive_keywords := map py
          [ "wzrost przychodów"; "wzrost zysku"; "zysk netto"; "rekordowy wynik";
            "wynik finansowy"; "wynik powyżej"; "wzrost EBITDA"; "rentowność";
            "marża"; "zyskowność"; "lepszy wynik"; "przewyższył"; "pobiła rekord";
            "przychody wzrosły"; "zysk wzrósł"; "dodatni wynik"; "zysk operacyjny" ]%string;
        negative_keywords := map py
          [ "spadek przychodów"; "spadek zysków"; "strata netto"; "strata operacyjna";
            "gorszy wynik"; "spadek marży"; "niższa rentowność"; "wynik poniżej";
            "odpis"; "utrata wartości"; "pogorszenie wyniku" ]%string |});
    (py "OUTLOOK",
     {| weight := 0.20;
        positive_keywords := map py
          [ "prognoza wzrostu"; "perspektywy rozwoju"; "optymistyczna prognoza";
            "pozytywne prognozy"; "guidance wzrost"; "cel wzrost"; "szacuje wzrost";
            "przewiduje wzrost"; "spodziewa się wzrostu"; "plan rozwoju";
            "strategia wzrostu"; "ambitne cele"; "pozytywne outlook" ]%string;
        negative_keywords := map py
          [ "obniżona prognoza"; "gorsze perspektywy"; "negatywne prognozy";
            "obniżony guidance"; "niższy cel"; "oczekuje spadku"; "przewiduje spadek";
            "pesymistyczne prognozy"; "gorsze outlook" ]%string |});
    (py "STRATEGY",
     {| weight := 0.20;
        positive_keywords := map py
          [ "nowa strategia"; "realizacja strategii"; "transformacja"; "reorganizacja";
            "ekspansja"; "rozwój"; "innowacja"; "digitalizacja"; "automatyzacja";
            "pozyskał"; "wprowadza"; "launch"; "premiera"; "nowy produkt";
            "nowa usługa"; "zmiany organizacyjne"; "nowy model biznesowy" ]%string;
        negative_keywords := map py
          [ "porażka strategii"; "problem z realizacją"; "opóźnienie projektu";
            "nieudana ekspansja"; "wycofał się"; "zamknął"; "likwidacja";
            "restrukturyzacja przymusowa" ]%string |});
    (py "CONTRACTS",
     {| weight := 0.15;
        positive_keywords := map py
          [ "nowy kontrakt"; "podpisał umowę"; "wygrał przetarg"; "zawarł umowę";
            "pozyskał zlecenie"; "nowe zamówienie"; "największy kontrakt";
            "umowa wieloletnia"; "wartość kontraktu"; "strategiczny kontrakt";
            "kontrakt eksportowy"; "rozszerzenie współpracy"; "przedłużenie umowy" ]%string;
        negative_keywords := map py
          [ "utrata kontraktu"; "rozwiązanie umowy"; "anulowanie kontraktu";
            "przegrał przetarg"; "kontrakt zagrożony"; "spór o kontrakt" ]%string |});
    (py "MARKET_POSITION",
     {| weight := 0.10;
        positive_keywords := map py
          [ "lider rynku"; "wzrost udziału"; "pozycja rynkowa"; "dominujący";
            "przewaga konkurencyjna"; "zwiększył udział"; "silna pozycja";
            "konkurencyjność"; "rozpoznawalność marki"; "brand value" ]%string;
        negative_keywords := map py
          [ "utrata udziału"; "spadek pozycji"; "konkurencja silniejsza";
            "osłabienie pozycji"; "presja konkurencyjna" ]%string |});
    (py "RISKS",
     {| weight := 0.10;
        positive_keywords := [];
        negative_keywords := map py
          [ "problem"; "kryzys"; "zagrożenie"; "ryzyko"; "śledztwo";
            "postępowanie"; "pozew"; "kara"; "sankcja"; "skandal";
            "afera"; "konflikt"; "spór"; "ostrzeżenie"; "rating obniżony";
            "podwyższone ryzyko"; "zagrożony"; "problemy finansowe";
            "problemy operacyjne"; "zawieszenie"; "blokada" ]%string |}) ].

(** The value stored under a category name in [category_scores]. *)
Record category_score := {
  net_score : Z;
  weighted_score : float;
  positive_count : Z;
  negative_count : Z
}.

(** The dict returned by [analyze_fundamentals].  The early return on empty
    text yields the integer [0] as total; it is represented by the float of
    the same value. *)
Record analysis := {
  total_score : float;
  categories : list (pystr * category_score);
  highlights : list pystr
}.

(** Conversion of a Python [int] operand of a float operation (exact below
    2^53; the counts here are bounded by the keyword lists). *)
Definition float_of_Z (z : Z) : float :=
  match z with
  | Z0 => 0
  | Zpos _ => PrimFloat.of_uint63 (Uint63.of_Z z)
  | Zneg p => - PrimFloat.of_uint63 (Uint63.of_Z (Zpos p))
  end.

(** [d[k] = v] on a dict kept as an association list in insertion order. *)
Fixpoint dict_set {V} (d : list (pystr * V)) (k : pystr) (v : V) : list (pystr * V) :=
  match d with
  | [] => [(k, v)]
  | (k', v') :: r => if decide (k = k') then (k, v) :: r else (k', v') :: dict_set r k v
  end.

(** One of the two inner loops: [score] and [highlights] are the loop-carried
    variables, [sign] is ["+"] or ["-"]. *)
Fixpoint count_keywords (sign category_name : pystr) (keywords : list pystr)
    (text_lower : pystr) (score : Z) (highlights : list pystr) : Z * list pystr :=
  match keywords with
  | [] => (score, highlights)
  | keyword :: rest =>
    if contains keyword text_lower then
      count_keywords sign category_name rest text_lower (score + 1)%Z
        (if (length highlights <? 3)%nat
         then highlights ++ [sign ++ category_name ++ py ": " ++ keyword]
         else highlights)
    else count_keywords sign category_name rest text_lower score highlights
  end.

(** The outer loop over [FUNDAMENTAL_CATEGORIES.items()]. *)
Fixpoint score_categories (cats : list (pystr * category)) (text_lower : pystr)
    (category_scores : list (pystr * category_score)) (highlights : list pystr)
    : list (pystr * category_score) * list pystr :=
  match cats with
  | [] => (category_scores, highlights)
  | (category_name, category_data) :: rest =>
    let '(positive_score, highlights1) :=
      count_keywords (py "+") category_name (positive_keywords category_data)
        text_lower 0%Z highlights in
    let '(negative_score, highlights2) :=
      count_keywords (py "-") category_name (negative_keywords category_data)
        text_lower 0%Z highlights1 in
    let net := (positive_score - negative_score)%Z in
    let weighted := float_of_Z net * weight category_data in
    score_categories rest text_lower
      (dict_set category_scores category_name
         {| net_score := net; weighted_score := weighted;
            positive_count := positive_score; negative_count := negative_score |})
      highlights2
  end.

(** The builtin [sum] of the interpreter on floats: plain left-to-right
    addition up to CPython 3.11, Neumaier's compensated summation from
    CPython 3.12 on. *)
Inductive summation := PlainSum | CompensatedSum.

(** The float loop of [sum] in CPython 3.12 and later: [f_result] is the
    running sum, [c] the compensation, added at the end if it is finite and
    not zero. *)
Fixpoint neumaier (f_result c : float) (items : list float) : float :=
  match items with
  | [] => if negb (c =? 0) && is_finite c then f_result + c else f_result
  | x :: rest =>
    let t := f_result + x in
    neumaier t
      (if abs x <=? abs f_result
       then c + ((f_result - t) + x)
       else c + ((x - t) + f_result))
      rest
  end.

(** [sum(items)] for floats: the start value is the integer 0, to which the
    first item is added as a float. *)
Definition py_sum (mode : summation) (items : list float) : float :=
  match mode with
  | PlainSum => fold_left (fun acc x => acc + x) items 0
  | CompensatedSum =>
    match items with
    | [] => 0
    | x :: rest => neumaier (0 + x) 0 rest
    end
  end.

(** [sum(cat['weighted_score'] for cat in category_scores.values())] *)
Definition sum_weighted (mode : summation)
    (category_scores : list (pystr * category_score)) : float :=
  py_sum mode ((fun cat => weighted_score cat.2) <$> category_scores).

Section WithLower.
(** The summation of the interpreter that runs the program. *)
Variable float_sum : summation.
Variable lower : pystr -> pystr.

Definition analyze_fundamentals (cats : list (pystr * category)) (text : pystr) : analysis :=
  match text with
  | [] => {| total_score := 0; categories := []; highlights := [] |}
  | _ =>
    let text_lower := lower text in
    let '(category_scores, highlights) := score_categories cats text_lower [] [] in
    {| total_score := sum_weighted float_sum category_scores;
       categories := category_scores;
       highlights := highlights |}
  end.

End WithLower.

Inductive rating :=
  | VERY_BULLISH | BULLISH | SLIGHTLY_BULLISH | NEUTRAL
  | SLIGHTLY_BEARISH | BEARISH | VERY_BEARISH.

#[global] Instance rating_eq_dec : EqDecision rating.
Proof. solve_decision. Defined.

Definition get_fundamental_rating (score : float) : rating :=
  if 3.0 <=? score then VERY_BULLISH
  else if 1.5 <=? score then BULLISH
  else if 0.5 <=? score then SLIGHTLY_BULLISH
  else if -0.5 <? score then NEUTRAL
  else if -1.5 <? score then SLIGHTLY_BEARISH
  else if -3.0 <? score then BEARISH
  else VERY_BEARISH.

(** The per-category record described by the specification: hit counts are
    the numbers of keywords occurring in the lowercased text. *)
Definition category_formula (text_lower : pystr) (c : category) : category_score :=
  let p := Sentiment.present_count (positive_keywords c) text_lower in
  let n := Sentiment.present_count (negative_keywords c) text_lower in
  {| net_score := (p - n)%Z;
     weighted_score := float_of_Z (p - n) * weight c;
     positive_count := p;
     negative_count := n |}.

(** The exact value of a finite float, in units of [2 ^ -1074], the
    smallest positive binary64 value; 0 for an infinity or a NaN. *)
Definition exact_units (x : float) : Z :=
  match Prim2SF x with
  | S754_finite s m e => ((if s then -1 else 1) * Z.pos m * 2 ^ (e + 1074))%Z
  | _ => 0%Z
  end.

(** The per-category entries, in the order of the table. *)
Definition formula_scores (text_lower : pystr) (cats : list (pystr * category))
    : list (pystr * category_score) :=
  (fun nc => (nc.1, category_formula text_lower nc.2)) <$> cats.

End Fundamental.

(* ===================================================================== *)
(** ** Pages, configuration and the fetcher
       ([Fundamental/fundamental_screen.py], [fetch_page]) *)
(* ===================================================================== *)

Module Fetcher.
Import PyStr.

(** One [tr] of the thread list of a company's forum page, as
    [process_company] reads it: the text and absolute URL of
    [td.threadTitle a] and the result of [parse_thread_date] on the text of
    [td.createDate] ([None]: the node is missing; [Some None]: the date does
    not parse).  Dates are timestamps. *)
Record row := {
  title_node : option (pystr * pystr);
  date_node : option (option Z)
}.

(** A page, as far as the code observes it through its selectors. *)
Record html := {
  (** truth value of the page source as a [str] *)
  html_nonempty : bool;
  (** [node.text(separator=" ", strip=True)] for the nodes matching a
      selector, in document order *)
  css_texts : string -> list pystr;
  (** [[urljoin(BANKIER_BASE_URL, a.href) for a in nav.pagination a[href]]];
      [None] when building the list raises *)
  nav_links : option (list pystr);
  (** the list [candidates] built by [extract_representative_thread_pages] *)
  page_candidates : list pystr;
  (** the rows of [table.threadsList] *)
  thread_rows : list row
}.

Record limits := {
  MAX_PAGES_PER_THREAD : nat;
  MAX_POSTS_PER_THREAD : nat;
  MAX_THREAD_TEXT_CHARS : nat
}.

Record config := {
  MAX_CONCURRENT_REQUESTS : nat;
  MAX_RETRIES : nat;
  thread_limits :> limits
}.

(** The constants of [fundamental_screen.py]. *)
Definition fundamental_config : config :=
  {| MAX_CONCURRENT_REQUESTS := 5;
     MAX_RETRIES := 3;
     thread_limits :=
       {| MAX_PAGES_PER_THREAD := 5;
          MAX_POSTS_PER_THREAD := 100;
          MAX_THREAD_TEXT_CHARS := 20000 |} |}.

(** The constants of [sentiment_analyzer.py]. *)
Definition sentiment_limits : limits :=
  {| MAX_PAGES_PER_THREAD := 2;
     MAX_POSTS_PER_THREAD := 40;
     MAX_THREAD_TEXT_CHARS := 6000 |}.

(** What one [await client.get(...)] produces. *)
Inductive response :=
  | Status (status_code : Z) (text : html)
  | TransportError.

(** The argument of an [asyncio.sleep]. *)
Inductive delay :=
  | Backoff503 (attempt : nat) (jitter : float)   (* (2 ** attempt) + random.random() *)
  | RetryFlat (jitter : float)                    (* 1 + random.random() *)
  | Politeness.                                   (* 0.3 *)

(** The deterministic component of a 503 backoff. *)
Definition backoff_base (attempt : nat) : Z := 2 ^ Z.of_nat attempt.

Inductive event :=
  | EvGet (url : pystr) (attempt : nat)
  | EvSleep (d : delay).

(** The environment of one task: [net url k] answers the task's [k]-th
    request, [rnd k] is its [k]-th draw of [random.random()]. *)
Record world := {
  net : pystr -> nat -> response;
  rnd : nat -> float
}.

Record task_state := {
  gets : nat;
  draws : nat;
  events : list event
}.

Definition start : task_state := {| gets := 0; draws := 0; events := [] |}.

(** Computations of a task: a reader of the world and a state of the trace. *)
Definition M (A : Type) : Type := world -> task_state -> A * task_state.

#[global] Instance M_ret : MRet M := fun A a _ s => (a, s).
#[global] Instance M_bind : MBind M := fun A B f m w s =>
  let '(a, s') := m w s in f a w s'.

Definition run {A} (m : M A) (w : world) : A := (m w start).1.
Definition trace {A} (m : M A) (w : world) : list event := events (m w start).2.

Definition client_get (url : pystr) (attempt : nat) : M response :=
  fun w s =>
    (net w url (gets s),
     {| gets := S (gets s); draws := draws s;
        events := events s ++ [EvGet url attempt] |}).

Definition random : M float :=
  fun w s =>
    (rnd w (draws s),
     {| gets := gets s; draws := S (draws s); events := events s |}).

Definition sleep (d : delay) : M unit :=
  fun _ s =>
    (tt, {| gets := gets s; draws := draws s; events := events s ++ [EvSleep d] |}).

(** The loop [for attempt in range(MAX_RETRIES)]; [remaining] iterations are
    left, so [attempt + remaining = MAX_RETRIES]. *)
Fixpoint fetch_loop (max_retries : nat) (url : pystr) (attempt remaining : nat)
    : M (option html) :=
  match remaining with
  | 0 => mret None
  | S remaining' =>
    response ← client_get url attempt;
    match response with
    | Status status_code text =>
      if (status_code =? 200)%Z then mret (Some text)
      else if (status_code =? 503)%Z then
        jitter ← random;
        _ ← sleep (Backoff503 attempt jitter);
        fetch_loop max_retries url (S attempt) remaining'
      else mret None
    | TransportError =>
      if (Z.of_nat attempt <? Z.of_nat max_retries - 1)%Z then
        jitter ← random;
        _ ← sleep (RetryFlat jitter);
        fetch_loop max_retries url (S attempt) remaining'
      else mret None
    end
  end.

Definition fetch_page (cfg : config) (url : pystr) : M (option html) :=
  fetch_loop (MAX_RETRIES cfg) url 0 (MAX_RETRIES cfg).

(** Observations on a trace. *)
Fixpoint count_gets (es : list event) : nat :=
  match es with
  | [] => 0
  | EvGet _ _ :: r => S (count_gets r)
  | EvSleep _ :: r => count_gets r
  end.

Definition requested_urls (es : list event) : list pystr :=
  omap (fun e => match e with EvGet u _ => Some u | _ => None end) es.

(** The URLs passed to [fetch_page], in call order: each call with
    [MAX_RETRIES > 0] starts with a request at attempt 0. *)
Definition pages_fetched (es : list event) : list pystr :=
  omap (fun e => match e with EvGet u 0 => Some u | _ => None end) es.

Definition backoff_bases (es : list event) : list Z :=
  omap (fun e => match e with
                 | EvSleep (Backoff503 a _) => Some (backoff_base a)
                 | _ => None
                 end) es.

(** The state after one more request, and after a request and a sleep. *)
Definition after_get (url : pystr) (attempt : nat) (s : task_state) : task_state :=
  {| gets := S (gets s); draws := draws s;
     events := events s ++ [EvGet url attempt] |}.

Definition after_get_sleep (url : pystr) (attempt : nat) (d : delay) (s : task_state)
    : task_state :=
  {| gets := S (gets s); draws := S (draws s);
     events := (events s ++ [EvGet url attempt]) ++ [EvSleep d] |}.

(** What one run of the retry loop adds to the trace. *)
Record loop_trace (url : pystr) (a rem : nat) (s s' : task_state) : Prop := {
  lt_events : exists new,
    events s' = events s ++ new
    /\ count_gets new <= rem
    /\ gets s' = gets s + count_gets new
    /\ Forall (fun u => u = url) (requested_urls new)
    /\ Forall (fun b => (backoff_base a <= b)%Z) (backoff_bases new)
    /\ StronglySorted Z.le (backoff_bases new)
}.

(** The answers to attempt [j] of [max_retries] after which the fetcher
    sleeps and tries again: a 503, and an exception before the last
    attempt. *)
Definition goes_on (max_retries j : nat) (r : response) : Prop :=
  match r with
  | Status status_code _ => status_code = 503%Z
  | TransportError => S j < max_retries
  end.

(** The sleep after such an answer to attempt [j], the [j]-th request and
    the [j]-th draw of the task: [2 ** j + random] after a 503 and
    [1 + random] after an exception. *)
Definition retry_delay (w : world) (url : pystr) (j : nat) : delay :=
  match net w url j with
  | Status _ _ => Backoff503 j (rnd w j)
  | TransportError => RetryFlat (rnd w j)
  end.

(** Attempts [0] to [k - 1], each a request followed by its sleep. *)
Fixpoint attempts_trace (w : world) (url : pystr) (k : nat) : list event :=
  match k with
  | 0 => []
  | S j => attempts_trace w url j ++ [EvGet url j; EvSleep (retry_delay w url j)]
  end.

End Fetcher.

(* ===================================================================== *)
(** ** Text extraction
       ([extract_posts_from_html], [extract_post_texts_from_thread_soup]) *)
(* ===================================================================== *)

Module Extractor.
Import PyStr Fetcher.

(** The second loop of both extractors: [seen] is the set, [unique] the
    list under construction. *)
Fixpoint dedup_loop (texts : list pystr) (seen : gset pystr) (unique : list pystr)
    : list pystr :=
  match texts with
  | [] => unique
  | t :: rest =>
    let t_clean := normalize t in
    if bool_decide (t_clean <> []) && bool_decide (t_clean ∉ seen)
    then dedup_loop rest ({[ t_clean ]} ∪ seen) (unique ++ [t_clean])
    else dedup_loop rest seen unique
  end.

(** [fundamental_screen.py] *)
Definition selectors : list string :=
  [ "div.post-content"; "div.postContent"; "div.post__content";
    "div.message"; "div.post-body" ]%string.

Definition matched_texts (tree : html) : list pystr :=
  sel ← selectors; filter (fun text => 15 < length text) (css_texts tree sel).

Definition extract_posts_from_html (page : html) : list pystr :=
  if negb (html_nonempty page) then []
  else dedup_loop (matched_texts page) ∅ [].

(** [sentiment_analyzer.py] *)
Definition soup_selectors : list string :=
  [ "div.post-content"; "div.postContent"; "div.post__content"; "div.message";
    "div.messageContent"; "div.post-body"; "div.postBody" ]%string.

Definition soup_texts (thread_soup : html) : list pystr :=
  sel ← soup_selectors;
  filter (fun txt => txt <> [] /\ ~ length txt < 15) (css_texts thread_soup sel).

Definition extract_post_texts_from_thread_soup (thread_soup : html) : list pystr :=
  dedup_loop (soup_texts thread_soup) ∅ [].

(** The list of first occurrences, by recursion on the list alone: the
    reading of "deduplicated, first-seen order preserved". *)
Fixpoint first_occurrences (l : list pystr) : list pystr :=
  match l with
  | [] => []
  | x :: r => x :: filter (fun y => y <> x) (first_occurrences r)
  end.

End Extractor.

(* ===================================================================== *)
(** ** Thread crawler of the async pipeline ([process_thread]) *)
(* ===================================================================== *)

Module Crawler.
Import PyStr Fetcher Extractor.

Record thread := {
  title : pystr;
  url : pystr;
  date : Z
}.

Section WithDigits.
(** The decimal value of a character of Unicode category Nd, which [\d]
    matches and [int] reads. *)
Variable digit_value : char -> option N.
(** [sys.get_int_max_str_digits()]: [int] raises [ValueError] on longer
    digit strings ([None]: an interpreter without the limit). *)
Variable int_max_str_digits : option nat.

(** The longest prefix of decimal digits, as values, and what follows. *)
Fixpoint span_digits (l : pystr) : list N * pystr :=
  match l with
  | [] => ([], [])
  | c :: r =>
    match digit_value c with
    | Some d => let '(ds, rest) := span_digits r in (d :: ds, rest)
    | None => ([], l)
    end
  end.

(** [re.search(r',(\d+)\.html', link)]: group 1 of the leftmost match.  The
    greedy [\d+] takes the whole run of digits after a comma; giving some of
    it back cannot help, since a digit is not a [.]. *)
Fixpoint search_page (link : pystr) : option (list N) :=
  match link with
  | [] => None
  | c :: r =>
    if (c =? 44)%N then
      let '(ds, rest) := span_digits r in
      if negb (bool_decide (ds = [])) && starts_with (py ".html") rest
      then Some ds
      else search_page r
    else search_page r
  end.

Definition int_of_digits (ds : list N) : N :=
  fold_left (fun acc d => acc * 10 + d)%N ds 0%N.

(** [int(page_match.group(1))]; [None]: [ValueError]. *)
Definition py_int (ds : list N) : option N :=
  match int_max_str_digits with
  | Some m => if m <? length ds then None else Some (int_of_digits ds)
  | None => Some (int_of_digits ds)
  end.

(** The loop filling [valid_pages]; [None]: an exception left the loop. *)
Fixpoint collect_valid_pages (pagination_links : list pystr) (url : pystr)
    : option (list (N * pystr)) :=
  match pagination_links with
  | [] => Some []
  | link :: rest =>
    if bool_decide (link <> []) && bool_decide (link <> url) then
      match search_page link with
      | Some ds =>
        page_num ← py_int ds;
        valid_pages ← collect_valid_pages rest url;
        Some ((page_num, link) :: valid_pages)
      | None => collect_valid_pages rest url
      end
    else collect_valid_pages rest url
  end.

(** [valid_pages.sort(key=lambda x: x[0])]: a stable sort. *)
Fixpoint insert_page (x : N * pystr) (l : list (N * pystr)) : list (N * pystr) :=
  match l with
  | [] => [x]
  | y :: r => if (x.1 <=? y.1)%N then x :: l else y :: insert_page x r
  end.

Definition sort_pages (l : list (N * pystr)) : list (N * pystr) :=
  foldr insert_page [] l.

(** The order of the sort key. *)
Definition by_page_number (x y : N * pystr) : Prop := (x.1 <= y.1)%N.

(** Pagination discovery up to [pages_to_fetch]; [None]: it raised. *)
Definition pages_to_fetch (lim : limits) (initial_html : html) (url : pystr)
    : option (list pystr) :=
  pagination_links ← nav_links initial_html;
  valid_pages ← collect_valid_pages pagination_links url;
  Some ((take (MAX_PAGES_PER_THREAD lim - 1) (sort_pages valid_pages)).*2).

(** [for page_url in pages_to_fetch: ...] *)
Fixpoint fetch_more_pages (cfg : config) (pages : list pystr) (posts : list pystr)
    : M (list pystr) :=
  match pages with
  | [] => mret posts
  | page_url :: rest =>
    if bool_decide (MAX_POSTS_PER_THREAD cfg <= length posts) then mret posts
    else
      page_html ← fetch_page cfg page_url;
      match page_html with
      | Some page =>
        if html_nonempty page then
          let new_posts := extract_posts_from_html page in
          _ ← sleep Politeness;
          fetch_more_pages cfg rest (posts ++ new_posts)
        else fetch_more_pages cfg rest posts
      | None => fetch_more_pages cfg rest posts
      end
  end.

(** Lines 268-302 of [process_thread]: the value of [posts] when the
    [try] statement is left. *)
Definition thread_posts (cfg : config) (url : pystr) (initial_html : html)
    : M (list pystr) :=
  let posts := extract_posts_from_html initial_html in
  if bool_decide (length posts < MAX_POSTS_PER_THREAD cfg)
     && bool_decide (1 < MAX_PAGES_PER_THREAD cfg) then
    match pages_to_fetch cfg initial_html url with
    | Some pages => fetch_more_pages cfg pages posts
    | None => mret posts
    end
  else mret posts.

Definition process_thread (cfg : config) (t : thread) : M pystr :=
  initial_html ← fetch_page cfg (url t);
  match initial_html with
  | Some page =>
    if html_nonempty page then
      posts ← thread_posts cfg (url t) page;
      let combined_text := strip (title t ++ py " " ++ join (py " ") posts) in
      mret (take (MAX_THREAD_TEXT_CHARS cfg) combined_text)
    else mret (title t)
  | None => mret (title t)
  end.

End WithDigits.
End Crawler.

(* ===================================================================== *)
(** ** Thread crawler of the browser pipeline
       ([sentiment_analyzer.py], [scrape_thread_posts]) *)
(* ===================================================================== *)

Module Browser.
Import PyStr Fetcher Extractor.

(** [driver n u]: the page the [n]-th [driver.get(u)] loads; [None] when
    the call or the parse after it raises. *)
Definition driver := nat -> pystr -> option html.

(** The dedupe loop of [extract_representative_thread_pages]. *)
Definition uniq_candidates (candidates : list pystr) : list pystr :=
  fold_left (fun uniq u =>
               if bool_decide (u <> []) && bool_decide (u ∉ uniq)
               then uniq ++ [u] else uniq) candidates [].

(** The last loop of [extract_representative_thread_pages]. *)
Fixpoint select_pages (max_pages : nat) (uniq selected : list pystr) : list pystr :=
  match uniq with
  | [] => selected
  | u :: rest =>
    if bool_decide (max_pages <= length selected) then selected
    else select_pages max_pages rest
           (if bool_decide (u ∉ selected) then selected ++ [u] else selected)
  end.

Definition extract_representative_thread_pages (thread_soup : html)
    (current_url : pystr) (max_pages : nat) : list pystr :=
  if bool_decide (max_pages <= 1) then [current_url]
  else
    let uniq := uniq_candidates (page_candidates thread_soup) in
    match uniq with
    | [] => [current_url]
    | _ =>
      let selected := [current_url] in
      let last := List.last uniq [] in
      let selected := if bool_decide (last ∉ selected) then selected ++ [last] else selected in
      take max_pages (select_pages max_pages uniq selected)
    end.

(** The inner loop [for txt in extract_post_texts_from_thread_soup(soup)];
    the flag tells that [return posts] was executed. *)
Fixpoint add_posts (max_posts : nat) (txts posts : list pystr) : list pystr * bool :=
  match txts with
  | [] => (posts, false)
  | txt :: rest =>
    let posts' := if bool_decide (txt ∈ posts) then posts else posts ++ [txt] in
    if bool_decide (max_posts <= length posts') then (posts', true)
    else add_posts max_posts rest posts'
  end.

(** The loop [for page_url in page_urls]; [n] counts the [driver.get]
    calls, an exception returns [posts] through the [except] clause. *)
Fixpoint scrape_pages (lim : limits) (d : driver) (thread_url : pystr)
    (page_urls : list pystr) (soup : html) (n : nat) (posts : list pystr)
    : list pystr * nat :=
  match page_urls with
  | [] => (posts, n)
  | page_url :: rest =>
    let '(loaded, n') :=
      if bool_decide (page_url <> thread_url) then (d n page_url, S n)
      else (Some soup, n) in
    match loaded with
    | None => (posts, n')
    | Some soup' =>
      let '(posts', returned) :=
        add_posts (MAX_POSTS_PER_THREAD lim)
                  (extract_post_texts_from_thread_soup soup') posts in
      if returned then (posts', n')
      else scrape_pages lim d thread_url rest soup' n' posts'
    end
  end.

Definition scrape_thread_posts (lim : limits) (d : driver) (n : nat)
    (thread_url : pystr) : list pystr * nat :=
  match thread_url with
  | [] => ([], n)
  | _ =>
    match d n thread_url with
    | None => ([], S n)
    | Some soup =>
      let page_urls :=
        extract_representative_thread_pages soup thread_url (MAX_PAGES_PER_THREAD lim) in
      scrape_pages lim d thread_url page_urls soup (S n) []
    end
  end.

(** Lines 307-310 of [scrape_company_sentiment]. *)
Definition thread_text (lim : limits) (d : driver) (n : nat) (tytul thread_url : pystr)
    : pystr * nat :=
  let '(thread_posts, n') := scrape_thread_posts lim d n thread_url in
  let text := strip (tytul ++ py " " ++ join (py " ") thread_posts) in
  (if bool_decide (MAX_THREAD_TEXT_CHARS lim < length text)
   then take (MAX_THREAD_TEXT_CHARS lim) text else text, n').

Section WithLower.
Variable lower : pystr -> pystr.

(** The loop [for item in threads_data] of [scrape_company_sentiment]. *)
Fixpoint thread_sentiments (lim : limits) (d : driver) (n : nat)
    (threads_data : list (pystr * pystr)) : list Sentiment.label :=
  match threads_data with
  | [] => []
  | (tytul, thread_url) :: rest =>
    let '(text, n') := thread_text lim d n tytul thread_url in
    (Sentiment.analyze_sentiment lower (Some text)).1
      :: thread_sentiments lim d n' rest
  end.

End WithLower.


End Browser.

(* ===================================================================== *)
(** ** Company processor of the async pipeline ([process_company]) *)
(* ===================================================================== *)

Module Company.
Import PyStr Fetcher Extractor Crawler Fundamental.

(** The dict returned by [process_company]
    (keys [Spółka], [Wynik], [Rating], [Wątki], [Highlights]). *)
Record company_result := {
  Spolka : pystr;
  Wynik : float;
  Rating : rating;
  Watki : nat;
  Highlights : pystr
}.


Section WithLibrary.
Variable float_sum : summation.
Variable lower : pystr -> pystr.
Variable digit_value : char -> option N.
Variable int_max_str_digits : option nat.
(** [round(x, 2)] *)
Variable round2 : float -> float.




End WithLibrary.
End Company.

(* ===================================================================== *)
(** ** The concurrency gate: tasks of [main] interleaved on one semaphore *)
(* ===================================================================== *)

Module Gate.
Import Fetcher.

(** How an [await client.get(...)] ends. *)
Inductive outcome := Ok200 | Unavailable503 | OtherStatus | Raised.

(** The control skeleton of a coroutine: the operations on the semaphore,
    the requests and the suspension points, with data-dependent choices left
    open. *)
Inductive prog :=
  | Return
  | Acquire (k : prog)               (* entering [async with sem] *)
  | Release (k : prog)               (* leaving it, by any exit *)
  | Get (k : outcome -> prog)        (* [await client.get(...)] *)
  | Sleep (k : prog)                 (* [await asyncio.sleep(...)] *)
  | Branch (p q : prog)              (* a test on data *)
  | Gather (child : prog) (k : prog). (* one task per item, then [gather] *)

(** [fetch_page]; [k] receives whether a body was returned. *)
Fixpoint fetch_page_prog (remaining : nat) (k : bool -> prog) : prog :=
  match remaining with
  | 0 => k false
  | S r =>
    Get (fun o =>
      match o with
      | Ok200 => k true
      | Unavailable503 => Sleep (fetch_page_prog r k)
      | OtherStatus => k false
      | Raised => match r with 0 => k false | S _ => Sleep (fetch_page_prog r k) end
      end)
  end.

(** The loop over [pages_to_fetch], of at most [n] pages; [k] follows it. *)
Fixpoint more_pages_prog (retries n : nat) (k : prog) : prog :=
  match n with
  | 0 => k
  | S n' =>
    Branch k
      (fetch_page_prog retries (fun ok =>
         if ok then Branch (Sleep (more_pages_prog retries n' k))
                           (more_pages_prog retries n' k)
         else more_pages_prog retries n' k))
  end.

Definition process_thread_prog (cfg : config) : prog :=
  Acquire
    (fetch_page_prog (MAX_RETRIES cfg) (fun ok =>
       if ok then
         Branch (Release Return)
           (Branch (Release Return)
              (more_pages_prog (MAX_RETRIES cfg) (MAX_PAGES_PER_THREAD cfg - 1)
                 (Release Return)))
       else Release Return)).

Definition process_company_prog (cfg : config) : prog :=
  Acquire
    (fetch_page_prog (MAX_RETRIES cfg) (fun ok =>
       Release
         (if ok then
            Branch Return
              (Branch Return (Gather (process_thread_prog cfg) Return))
          else Return))).

Definition main_prog (cfg : config) : prog :=
  Branch Return (Gather (process_company_prog cfg) Return).

(** A task of the event loop. *)
Inductive tstate :=
  | Ready (p : prog)
  | Awaiting (k : outcome -> prog)          (* a request is outstanding *)
  | Joining (children : list nat) (k : prog). (* suspended in [gather] *)

Record task := {
  code : tstate;
  holds : nat      (* permits of the semaphore held *)
}.

(** The semaphore created by [main] and the tasks of the event loop. *)
Record system := {
  sem_value : nat;
  pool : list task
}.

Definition finished (t : task) : Prop := code t = Ready Return.

Definition set_task (s : system) (i : nat) (t : task) : list task :=
  <[ i := t ]> (pool s).

Inductive step : system -> system -> Prop :=
  | step_acquire s i k h v :
      pool s !! i = Some {| code := Ready (Acquire k); holds := h |} ->
      sem_value s = S v ->
      step s {| sem_value := v;
                pool := set_task s i {| code := Ready k; holds := S h |} |}
  | step_release s i k h :
      pool s !! i = Some {| code := Ready (Release k); holds := h |} ->
      step s {| sem_value := S (sem_value s);
                pool := set_task s i {| code := Ready k; holds := pred h |} |}
  | step_send s i k h :
      pool s !! i = Some {| code := Ready (Get k); holds := h |} ->
      step s {| sem_value := sem_value s;
                pool := set_task s i {| code := Awaiting k; holds := h |} |}
  | step_receive s i k h o :
      pool s !! i = Some {| code := Awaiting k; holds := h |} ->
      step s {| sem_value := sem_value s;
                pool := set_task s i {| code := Ready (k o); holds := h |} |}
  | step_sleep s i k h :
      pool s !! i = Some {| code := Ready (Sleep k); holds := h |} ->
      step s {| sem_value := sem_value s;
                pool := set_task s i {| code := Ready k; holds := h |} |}
  | step_branch s i p q h (left : bool) :
      pool s !! i = Some {| code := Ready (Branch p q); holds := h |} ->
      step s {| sem_value := sem_value s;
                pool := set_task s i {| code := Ready (if left then p else q);
                                        holds := h |} |}
  | step_gather s i child k h n :
      pool s !! i = Some {| code := Ready (Gather child k); holds := h |} ->
      step s {| sem_value := sem_value s;
                pool := set_task s i {| code := Joining (seq (length (pool s)) n) k;
                                        holds := h |}
                        ++ replicate n {| code := Ready child; holds := 0 |} |}
  | step_join s i children k h :
      pool s !! i = Some {| code := Joining children k; holds := h |} ->
      Forall (fun j => exists t, pool s !! j = Some t /\ finished t) children ->
      step s {| sem_value := sem_value s;
                pool := set_task s i {| code := Ready k; holds := h |} |}.

(** [asyncio.run(main())] *)
Definition initial (cfg : config) : system :=
  {| sem_value := MAX_CONCURRENT_REQUESTS cfg;
     pool := [ {| code := Ready (main_prog cfg); holds := 0 |} ] |}.

Definition reachable (cfg : config) (s : system) : Prop := rtc step (initial cfg) s.

Definition awaiting (t : task) : bool :=
  match code t with Awaiting _ => true | _ => false end.

(** The number of outstanding requests. *)
Definition in_flight (s : system) : nat :=
  length (filter (fun t => awaiting t = true) (pool s)).

(** Every request of the program is issued while holding a permit; [h] is
    the number of permits held on entry. *)
Fixpoint gated (h : nat) (p : prog) : Prop :=
  match p with
  | Return => True
  | Acquire k => gated (S h) k
  | Release k => 0 < h /\ gated (pred h) k
  | Get k => 0 < h /\ forall o, gated h (k o)
  | Sleep k => gated h k
  | Branch p q => gated h p /\ gated h q
  | Gather child k => gated 0 child /\ gated h k
  end.

Definition gated_task (t : task) : Prop :=
  match code t with
  | Ready p => gated (holds t) p
  | Awaiting k => 0 < holds t /\ forall o, gated (holds t) (k o)
  | Joining _ k => gated (holds t) k
  end.

(** The permits held by all tasks together. *)
Definition held (s : system) : nat := sum_list_with holds (pool s).

(** The accounting of the semaphore created with [capacity] permits. *)
Definition gate_invariant (capacity : nat) (s : system) : Prop :=
  sem_value s + held s = capacity /\ Forall gated_task (pool s).

End Gate.

(* ===================================================================== *)
(** ** Concrete pages, threads and worlds used as test inputs *)
(* ===================================================================== *)

Module Samples.
Import PyStr Fetcher Extractor Crawler.

Definition thread_url : pystr := py "https://www.bankier.pl/forum/temat_wyniki,777.html".
Definition page2_url : pystr := py "https://www.bankier.pl/forum/temat_wyniki,777,2.html".
Definition page3_url : pystr := py "https://www.bankier.pl/forum/temat_wyniki,777,3.html".
Definition page5_url : pystr := py "https://www.bankier.pl/forum/temat_wyniki,777,5.html".

(** A page whose [div.post-content] nodes have the given texts and whose
    pagination has the given links. *)
Definition page_with (posts links : list pystr) : html :=
  {| html_nonempty := true;
     css_texts := fun sel => if String.eqb sel "div.post-content" then posts else [];
     nav_links := Some links;
     page_candidates := links;
     thread_rows := [] |}.

(** A network on which every request fails. *)
Definition offline : world :=
  {| net := fun _ _ => TransportError; rnd := fun _ => 0.5%float |}.

(** A network answering 503, then a transport error, then 200. *)
Definition flaky : world :=
  {| net := fun _ k =>
       match k with
       | 0 => Status 503 (page_with [] [])
       | 1 => TransportError
       | _ => Status 200 (page_with [] [])
       end;
     rnd := fun _ => 0.5%float |}.

(** A thread whose title has 20001 characters. *)
Definition long_title_thread : thread :=
  {| title := replicate 20001 97%N; url := thread_url; date := 0 |}.

Definition short_thread : thread :=
  {| title := py "Wyniki kwartalne"; url := thread_url; date := 0 |}.

(** 101 distinct posts, "wpis na forum nr 000" to "wpis na forum nr 100". *)
Definition numbered_post (i : nat) : pystr :=
  py "wpis na forum nr "
  ++ [ (48 + N.of_nat (i / 100))%N;
       (48 + N.of_nat ((i / 10) mod 10))%N;
       (48 + N.of_nat (i mod 10))%N ].

Definition crowded_page : html := page_with (map numbered_post (seq 0 101)) [].

(** The configuration of [fundamental_screen.py] with a page cap of 3. *)
Definition three_pages_config : config :=
  {| MAX_CONCURRENT_REQUESTS := 5;
     MAX_RETRIES := 3;
     thread_limits :=
       {| MAX_PAGES_PER_THREAD := 3;
          MAX_POSTS_PER_THREAD := 100;
          MAX_THREAD_TEXT_CHARS := 20000 |} |}.

(** A thread page with one post and pagination links to pages 2, 5, 3. *)
Definition paged_page : html :=
  page_with [py "Wyniki lepsze od prognoz analityków"] [page2_url; page5_url; page3_url].

(** A network that answers every request with that page. *)
Definition paged : world :=
  {| net := fun _ _ => Status 200 paged_page; rnd := fun _ => 0.5%float |}.

(** A post node whose text is "a", sixteen spaces, "b". *)
Definition spaced_page : html := page_with [py "a                b"] [].

(** Two categories of weight 0.5, the first with one positive keyword, the
    second with one negative keyword. *)
Definition two_categories : list (pystr * Fundamental.category) :=
  [ (py "A", {| Fundamental.weight := 0.5%float;
                Fundamental.positive_keywords := [py "zysk"];
                Fundamental.negative_keywords := [] |});
    (py "B", {| Fundamental.weight := 0.5%float;
                Fundamental.positive_keywords := [];
                Fundamental.negative_keywords := [py "strata"] |}) ].

(** A text with two positive hits in EARNINGS, one positive hit in OUTLOOK
    and one negative hit in STRATEGY. *)
Definition mixed_report : pystr := py "zysk netto marża plan rozwoju likwidacja".







(** A state of the event loop of [main] with two companies: the first
    company task holds a permit and waits for the answer to its request, the
    second has not entered the gate yet. *)
Definition company_in_gate : Gate.prog :=
  match Gate.process_company_prog fundamental_config with
  | Gate.Acquire k => k
  | p => p
  end.

Definition company_waiting : Gate.tstate :=
  match company_in_gate with
  | Gate.Get k => Gate.Awaiting k
  | p => Gate.Ready p
  end.

Definition busy_system : Gate.system :=
  {| Gate.sem_value := 4;
     Gate.pool :=
       [ {| Gate.code := Gate.Joining [1; 2] Gate.Return; Gate.holds := 0 |};
         {| Gate.code := company_waiting; Gate.holds := 1 |};
         {| Gate.code := Gate.Ready (Gate.process_company_prog fundamental_config);
            Gate.holds := 0 |} ] |}.

End Samples.

(* ===================================================================== *)
(** ** Observations on the retry schedule of [fetch_page] *)
(* ===================================================================== *)

Module Schedule.
Import PyStr Fetcher.

(** The answers after which [fetch_page] tries again. *)
Definition retryable (r : response) : Prop :=
  match r with
  | Status code _ => code = 503%Z
  | TransportError => True
  end.

(** The deterministic part, in whole seconds, of the delay before a retry:
    [2 ** attempt] after a 503 and [1] after an exception.  The pause of 0.3
    seconds between pages is not a retry delay. *)
Definition retry_base (d : delay) : Z :=
  match d with
  | Backoff503 attempt _ => backoff_base attempt
  | RetryFlat _ => 1
  | Politeness => 0
  end.

Fixpoint total_retry_base (es : list event) : Z :=
  match es with
  | [] => 0
  | EvGet _ _ :: r => total_retry_base r
  | EvSleep d :: r => retry_base d + total_retry_base r
  end.

Fixpoint count_sleeps (es : list event) : nat :=
  match es with
  | [] => 0
  | EvGet _ _ :: r => count_sleeps r
  | EvSleep _ :: r => S (count_sleeps r)
  end.

(** A run of characters read as decimal digits with the given values;
    [digit_value] is the digit table of the interpreter. *)
Definition digits_read (digit_value : char -> option N) (digits : pystr) (ds : list N)
    : Prop :=
  Forall2 (fun c d => digit_value c = Some d) digits ds.

(** The number written by decimal digits, most significant first. *)
Fixpoint decimal_value (ds : list N) : N :=
  match ds with
  | [] => 0
  | d :: rest => (d * 10 ^ N.of_nat (length rest) + decimal_value rest)%N
  end.

End Schedule.

(* ===================================================================== *)
(** ** Row filter and report summary of the async pipeline
       ([process_company], [get_fundamental_rating], [main]) *)
(* ===================================================================== *)

Module Report.
Import PyStr Fetcher Fundamental.


(** The strings returned by [get_fundamental_rating]. *)
Definition rating_label (r : rating) : pystr :=
  match r with
  | VERY_BULLISH => py "🚀 VERY BULLISH"
  | BULLISH => py "📈 BULLISH"
  | SLIGHTLY_BULLISH => py "😊 SLIGHTLY BULLISH"
  | NEUTRAL => py "➡️ NEUTRAL"
  | SLIGHTLY_BEARISH => py "😐 SLIGHTLY BEARISH"
  | BEARISH => py "📉 BEARISH"
  | VERY_BEARISH => py "💥 VERY BEARISH"
  end.

(** [len([x for x in column if test(x)])] *)
Definition count_where (test : pystr -> bool) (column : list pystr) : nat :=
  length (filter (fun x => test x = true) column).

(** The seven counters of the summary printed by [main]. *)
Record summary := {
  very_bullish : nat;
  bullish : nat;
  slightly_bullish : nat;
  neutral : nat;
  slightly_bearish : nat;
  bearish : nat;
  very_bearish : nat
}.

Definition summarize (ratings : list pystr) : summary :=
  {| very_bullish := count_where (fun x => contains (py "VERY BULLISH") x) ratings;
     bullish :=
       count_where (fun x => contains (py "BULLISH") x
                             && negb (contains (py "VERY") x)
                             && negb (contains (py "SLIGHTLY") x)) ratings;
     slightly_bullish := count_where (fun x => contains (py "SLIGHTLY BULLISH") x) ratings;
     neutral := count_where (fun x => contains (py "NEUTRAL") x) ratings;
     slightly_bearish := count_where (fun x => contains (py "SLIGHTLY BEARISH") x) ratings;
     bearish :=
       count_where (fun x => contains (py "BEARISH") x
                             && negb (contains (py "VERY") x)
                             && negb (contains (py "SLIGHTLY") x)) ratings;
     very_bearish := count_where (fun x => contains (py "VERY BEARISH") x) ratings |}.

(** How often a rating occurs among the results. *)
Definition occurrences (r : rating) (rs : list rating) : nat :=
  length (filter (fun x => x = r) rs).

(** A character in the range A-Z. *)
Definition is_ascii_upper (c : char) : bool := ((65 <=? c) && (c <=? 90))%N.

(** A string with a character in the range A-Z. *)
Definition has_ascii_upper (s : pystr) : bool := existsb is_ascii_upper s.

(** All keywords of a table of categories. *)
Definition all_keywords (cats : list (pystr * category)) : list pystr :=
  nc ← cats; positive_keywords nc.2 ++ negative_keywords nc.2.

(** A highlight names a keyword of a category that occurs in the text. *)
Definition highlight_of (cats : list (pystr * category)) (text_lower h : pystr) : Prop :=
  exists name c kw,
    (name, c) ∈ cats /\ contains kw text_lower = true
    /\ ((kw ∈ positive_keywords c /\ h = py "+" ++ name ++ py ": " ++ kw)
        \/ (kw ∈ negative_keywords c /\ h = py "-" ++ name ++ py ": " ++ kw)).

End Report.

(* ===================================================================== *)
(** ** Keywords that occur inside other keywords *)
(* ===================================================================== *)

Module Overlap.
Import PyStr Fundamental.

(** The pairs of a keyword of [inner] and a different keyword of [outer]
    that has it as a substring. *)
Definition nested_pairs (inner outer : list pystr) : list (pystr * pystr) :=
  a ← inner;
  (fun b => (a, b)) <$> filter (fun b => a <> b /\ contains a b = true) outer.

(** Per category, the positive keywords found inside a negative keyword of
    the same category. *)
Definition cancelling_pairs (cats : list (pystr * category))
    : list (pystr * (pystr * pystr)) :=
  nc ← cats;
  (fun ab => (nc.1, ab)) <$> nested_pairs (positive_keywords nc.2) (negative_keywords nc.2).

End Overlap.

(* ===================================================================== *)
(** ** Company roll-up and statistics of the browser pipeline
       ([scrape_company_sentiment], the statistics at the end of
        [sentiment_analyzer.py]) *)
(* ===================================================================== *)

Module Rollup.
Import PyStr Sentiment Report.

(** [sentiments.count(x)] *)
Definition count (x : label) (sentiments : list label) : nat :=
  length (filter (fun y => y = x) sentiments).

(** The values of the column [Sentyment]. *)
Inductive overall := Bullish | Bearish | Pozyt | Negat | Neutr.

#[global] Instance overall_eq_dec : EqDecision overall.
Proof. solve_decision. Defined.

Definition overall_label (o : overall) : pystr :=
  match o with
  | Bullish => py "📈 BULLISH"
  | Bearish => py "📉 BEARISH"
  | Pozyt => py "😊 +POZYT"
  | Negat => py "😐 -NEGAT"
  | Neutr => py "➡️ NEUTR"
  end.

(** The three counters printed under [PODSUMOWANIE]. *)
Record statistics := {
  bullish : nat;
  bearish : nat;
  neutral : nat
}.

Definition summarize (column : list pystr) : statistics :=
  {| bullish := count_where (fun x => contains (py "BULLISH") x || contains (py "POZYT") x)
                  column;
     bearish := count_where (fun x => contains (py "BEARISH") x || contains (py "NEGAT") x)
                  column;
     neutral := count_where (fun x => contains (py "NEUTR") x) column |}.

End Rollup.

(* ===================================================================== *)
(** ** Permits of the semaphore: every exit gives the permit back
       ([async with sem] in [process_company] and [process_thread]) *)
(* ===================================================================== *)

Module Permits.
Import Gate.

(** A program entered with [h] permits takes the semaphore only when it
    holds none, gives back exactly what it took, suspends in [gather] only
    without a permit, and ends without one. *)
Fixpoint balanced (h : nat) (p : prog) : Prop :=
  match p with
  | Return => h = 0
  | Acquire k => h = 0 /\ balanced 1 k
  | Release k => h = 1 /\ balanced 0 k
  | Get k => forall o, balanced h (k o)
  | Sleep k => balanced h k
  | Branch p q => balanced h p /\ balanced h q
  | Gather child k => h = 0 /\ balanced 0 child /\ balanced 0 k
  end.

Definition balanced_task (t : task) : Prop :=
  match code t with
  | Ready p => balanced (holds t) p
  | Awaiting k => forall o, balanced (holds t) (k o)
  | Joining _ k => holds t = 0 /\ balanced 0 k
  end.

(** The tasks a task waits for in [gather] were created after it. *)
Definition joins_later (tasks : list task) : Prop :=
  forall i t children k,
    tasks !! i = Some t -> code t = Joining children k ->
    Forall (fun j => i < j < length tasks) children.

Definition orderly (capacity : nat) (s : system) : Prop :=
  sem_value s + held s = capacity
  /\ Forall balanced_task (pool s)
  /\ joins_later (pool s).

Definition is_finished (t : task) : bool :=
  match code t with Ready Return => true | _ => false end.

(** Suspended at the entry of [async with sem]. *)
Definition wants_permit (t : task) : bool :=
  match code t with Ready (Acquire _) => true | _ => false end.

(** Suspended in [await asyncio.gather(...)]. *)
Definition is_joining (t : task) : bool :=
  match code t with Joining _ _ => true | _ => false end.

(** Not able to go on by itself. *)
Definition idle (t : task) : bool := is_finished t || wants_permit t || is_joining t.

End Permits.

(* ===================================================================== *)
(** ** The company list ([load_companies_from_md]) *)
(* ===================================================================== *)

Module Loader.
Import PyStr Fundamental.
Local Open Scope N_scope.

Definition LBRACKET : char := 91.
Definition RBRACKET : char := 93.
Definition LPAREN : char := 40.
Definition RPAREN : char := 41.

(** The longest run of characters other than [stop] at the start of [l],
    and what follows it: a greedy negated class such as [[^)]+]. *)
Fixpoint span_until (stop : char) (l : pystr) : pystr * pystr :=
  match l with
  | [] => ([], [])
  | c :: r =>
    if c =? stop then ([], l)
    else let '(run, rest) := span_until stop r in (c :: run, rest)
  end.

(** A match of [\[([^\]]+)\]\(([^)]+)\)] starting at the first character
    of [l]: both groups and the text after the match.  Each class is
    followed by the character it excludes, so only its longest run can
    match. *)
Definition match_at (l : pystr) : option (pystr * pystr * pystr) :=
  match l with
  | [] => None
  | c :: r =>
    if c =? LBRACKET then
      let '(name, r1) := span_until RBRACKET r in
      match name, r1 with
      | _ :: _, c1 :: c2 :: r2 =>
        if (c1 =? RBRACKET) && (c2 =? LPAREN) then
          let '(url, r3) := span_until RPAREN r2 in
          match url, r3 with
          | _ :: _, c3 :: r4 => if c3 =? RPAREN then Some (name, url, r4) else None
          | _, _ => None
          end
        else None
      | _, _ => None
      end
    else None
  end.

(** What a match tells about its groups. *)
Definition well_formed (name url : pystr) : Prop :=
  name <> [] /\ (RBRACKET ∉ name) /\ url <> [] /\ (RPAREN ∉ url).

(** [re.findall(pattern, content)]: the matches from left to right, the
    search going on after each match; [skip] characters of [l] belong to the
    match found last. *)
Fixpoint findall (skip : nat) (l : pystr) : list (pystr * pystr) :=
  match l with
  | [] => []
  | _ :: r =>
    match skip with
    | S k => findall k r
    | O =>
      match match_at l with
      | Some (name, url, rest) =>
        (name, url) :: findall (length r - length rest) r
      | None => findall 0 r
      end
    end
  end.

(** The loop over the matches. *)
Definition add_company (companies : list (pystr * pystr)) (m : pystr * pystr)
    : list (pystr * pystr) :=
  if contains (py "forum") m.2 && contains (py "bankier") m.2
  then dict_set companies m.1 m.2 else companies.

(** [None]: the file does not exist. *)
Definition load_companies_from_md (file : option pystr) : list (pystr * pystr) :=
  match file with
  | None => []
  | Some content => fold_left add_company (findall 0 content) []
  end.

(** A markdown link. *)
Definition link (name url : pystr) : pystr :=
  [LBRACKET] ++ name ++ [RBRACKET; LPAREN] ++ url ++ [RPAREN].

(** A list of links, each after the text [sep]. *)
Definition render (sep : pystr) (entries : list (pystr * pystr)) : pystr :=
  e ← entries; sep ++ link e.1 e.2.

End Loader.

(* ===================================================================== *)
(** ** Further test inputs *)
(* ===================================================================== *)

Module MoreSamples.
Import PyStr Fetcher Extractor Crawler Samples.

(** A network that answers every request with status 503. *)
Definition unavailable : world :=
  {| net := fun _ _ => Status 503 (page_with [] []); rnd := fun _ => 0.5%float |}.

(** A browser in which no page loads, and one that shows the same thread
    page for every URL. *)
Definition dead_driver : Browser.driver := fun _ _ => None.
Definition static_driver : Browser.driver := fun _ _ => Some paged_page.

(** A thread page with one post and pagination links to pages 10 and 2. *)
Definition page10_url : pystr := py "https://www.bankier.pl/forum/temat_wyniki,777,10.html".

Definition long_thread_page : html :=
  page_with [py "Wyniki lepsze od prognoz analityków"] [page10_url; page2_url].

(** Two lines of a company file. *)
Definition company_lines : list (pystr * pystr) :=
  [ (py "PKN Orlen", py "https://www.bankier.pl/forum/forum_o_pkn-orlen,6,21,58,1.html");
    (py "CD Projekt", py "https://www.bankier.pl/forum/forum_o_cd-projekt,6,21,67,1.html") ].

Definition line_start : pystr := 10%N :: py "- ".

End MoreSamples.

(* ===================================================================== *)
(** * Properties *)
(* ===================================================================== *)

Import PyStr.

Section PyStrFacts.
Local Open Scope N_scope.

(** ** Whitespace normalisation is idempotent *)

Lemma is_space_SPACE : is_space SPACE = true.
Proof. reflexivity. Qed.

Lemma sub_ws_single_spaced b t : single_spaced b (sub_ws b t) = true.
Proof.
  revert b; induction t as [|c r IH]; intros b; simpl; [done|].
  destruct (is_space c) eqn:Hc.
  - destruct b; [apply IH|].
    change (single_spaced true (sub_ws true r) = true). apply IH.
  - simpl. rewrite Hc. apply IH.
Qed.

Lemma single_spaced_sub_ws b l : single_spaced b l = true -> sub_ws b l = l.
Proof.
  revert b; induction l as [|c r IH]; intros b; simpl; [done|].
  destruct (is_space c) eqn:Hc.
  - destruct b; simpl; [discriminate|].
    destruct (N.eqb_spec c SPACE) as [->|]; simpl; [|discriminate].
    intros H. f_equal. by apply IH.
  - intros H. f_equal. by apply IH.
Qed.

Lemma single_spaced_weaken b l :
  single_spaced b l = true -> single_spaced false l = true.
Proof.
  destruct l as [|c r]; simpl; [done|].
  destruct (is_space c); [|done].
  destruct b; simpl; [discriminate|done].
Qed.

Lemma single_spaced_lstrip b l :
  single_spaced b l = true -> single_spaced false (lstrip l) = true.
Proof.
  revert b; induction l as [|c r IH]; intros b; simpl; [done|].
  destruct (is_space c) eqn:Hc.
  - intros H. apply andb_true_iff in H as [_ H]. by apply (IH true).
  - intros H. simpl. by rewrite Hc.
Qed.

Lemma single_spaced_rstrip b l :
  single_spaced b l = true -> single_spaced b (rstrip l) = true.
Proof.
  revert b; induction l as [|c r IH]; intros b; simpl; [done|].
  destruct (is_space c) eqn:Hc.
  - intros H. apply andb_true_iff in H as [H1 H2].
    specialize (IH _ H2).
    destruct (rstrip r) as [|d r'] eqn:Hr; [done|].
    cbn [single_spaced]. rewrite Hc, H1. exact IH.
  - intros H. specialize (IH _ H).
    destruct (rstrip r) as [|d r'] eqn:Hr.
    + simpl. by rewrite Hc.
    + cbn [single_spaced]. rewrite Hc. exact IH.
Qed.

Lemma lstrip_head l :
  lstrip l = [] \/ exists c r, lstrip l = c :: r /\ is_space c = false.
Proof.
  induction l as [|c r IH]; simpl; [by left|].
  destruct (is_space c) eqn:Hc; [done|].
  right. by exists c, r.
Qed.

Lemma rstrip_head c r :
  is_space c = false -> exists r', rstrip (c :: r) = c :: r'.
Proof.
  intros Hc. simpl. destruct (rstrip r) as [|d r'].
  - rewrite Hc. by exists [].
  - by exists (d :: r').
Qed.

Lemma rstrip_cons c r :
  rstrip (c :: r) =
  match rstrip r with
  | [] => if is_space c then [] else [c]
  | r' => c :: r'
  end.
Proof. reflexivity. Qed.

Lemma rstrip_idem l : rstrip (rstrip l) = rstrip l.
Proof.
  induction l as [|c r IH]; [done|].
  rewrite rstrip_cons.
  destruct (rstrip r) as [|d r'] eqn:Hr.
  - destruct (is_space c) eqn:Hc; simpl; [done|]. by rewrite Hc.
  - rewrite rstrip_cons, IH. done.
Qed.

Lemma strip_idem l : strip (strip l) = strip l.
Proof.
  unfold strip.
  destruct (lstrip_head l) as [->|(c & r & -> & Hc)]; [done|].
  destruct (rstrip_head c r Hc) as [r' Hr'].
  rewrite Hr' at 1. simpl lstrip. rewrite Hc.
  rewrite <- Hr'. apply rstrip_idem.
Qed.

Lemma normalize_single_spaced t : single_spaced false (normalize t) = true.
Proof.
  unfold normalize, strip, collapse_ws.
  apply single_spaced_rstrip, (single_spaced_lstrip false), sub_ws_single_spaced.
Qed.

Lemma normalize_idem t : normalize (normalize t) = normalize t.
Proof.
  unfold normalize at 1. unfold collapse_ws.
  rewrite (single_spaced_sub_ws false) by apply normalize_single_spaced.
  unfold normalize. apply strip_idem.
Qed.

Lemma lstrip_length l : (length (lstrip l) <= length l)%nat.
Proof. induction l as [|c r IH]; simpl; [lia|]. destruct (is_space c); simpl; lia. Qed.

Lemma rstrip_length l : (length (rstrip l) <= length l)%nat.
Proof.
  induction l as [|c r IH]; simpl; [lia|].
  destruct (rstrip r); [destruct (is_space c)|]; simpl in *; lia.
Qed.

Lemma strip_length l : (length (strip l) <= length l)%nat.
Proof. unfold strip. pose proof (rstrip_length (lstrip l)). pose proof (lstrip_length l). lia. Qed.

End PyStrFacts.

(** ** Sentiment scorer *)

Section SentimentFacts.
Import Sentiment.
Local Open Scope Z_scope.

Lemma sum_present_count keywords text :
  sum_present keywords text = present_count keywords text.
Proof.
  unfold present_count.
  induction keywords as [|k r IH]; [done|].
  cbn [sum_present]. rewrite filter_cons.
  destruct (decide (contains k text = true)) as [->|Hn].
  - cbn [length]. lia.
  - apply not_true_is_false in Hn. rewrite Hn. lia.
Qed.

(** C6, as stated, fails: on the text "spadek" (one negative keyword, no
    positive one) the scorer returns the label NEGATYWNY with score 1, not
    the difference positive minus negative, which is -1. *)
Lemma analyze_sentiment_score_is_unsigned :
  let text := py "spadek" in
  analyze_sentiment ascii_lower (Some text) = (NEGATYWNY, 1)
  /\ present_count positive_keywords (ascii_lower text)
     - present_count negative_keywords (ascii_lower text) = -1
  /\ (analyze_sentiment ascii_lower (Some text)).2
     <> present_count positive_keywords (ascii_lower text)
        - present_count negative_keywords (ascii_lower text).
Proof. vm_compute. repeat split; congruence. Qed.

(** C6 (amended): with p and n the numbers of positive and negative keywords
    occurring in the lowercased text, the scorer returns the label POZYTYWNY
    if p > n, NEGATYWNY if n > p and NEUTRALNY otherwise, and as score the
    absolute difference |p - n| (p - n for POZYTYWNY, n - p for NEGATYWNY,
    0 for NEUTRALNY).  In particular p = 1, n = 0 gives POZYTYWNY with
    score 1, and p = n gives NEUTRALNY with score 0. *)
Theorem analyze_sentiment_spec (lower : pystr -> pystr) (title : option pystr) :
  let text := lower (default [] title) in
  let p := present_count positive_keywords text in
  let n := present_count negative_keywords text in
  (analyze_sentiment lower title).2 = Z.abs (p - n)
  /\ (n < p -> analyze_sentiment lower title = (POZYTYWNY, p - n))
  /\ (p < n -> analyze_sentiment lower title = (NEGATYWNY, n - p))
  /\ (p = n -> analyze_sentiment lower title = (NEUTRALNY, 0))
  /\ (p = 1 -> n = 0 -> analyze_sentiment lower title = (POZYTYWNY, 1)).
Proof.
  intros text p n. unfold analyze_sentiment.
  rewrite !sum_present_count. fold text. fold p. fold n.
  destruct (Z.ltb_spec n p) as [Hnp|Hnp]; [|destruct (Z.ltb_spec p n) as [Hpn|Hpn]];
    cbn [snd]; repeat split; intros; try lia; try (f_equal; lia).
Qed.

Lemma analyze_sentiment_spec_witness :
  analyze_sentiment ascii_lower (Some (py "wzrost")) = (POZYTYWNY, 1)
  /\ analyze_sentiment ascii_lower (Some (py "zysk i strata")) = (NEUTRALNY, 0).
Proof.
  split.
  - apply (analyze_sentiment_spec ascii_lower (Some (py "wzrost"))); vm_compute; reflexivity.
  - apply (analyze_sentiment_spec ascii_lower (Some (py "zysk i strata"))); vm_compute; reflexivity.
Defined.

End SentimentFacts.

(** ** Fetcher *)

Section FetcherFacts.
Import Fetcher.

Lemma bind_run {A B} (m : M A) (f : A -> M B) w s :
  (m ≫= f) w s = f (m w s).1 w (m w s).2.
Proof. unfold mbind, M_bind. by destruct (m w s). Qed.

Lemma fetch_loop_200 R url a rem w s body :
  net w url (gets s) = Status 200 body ->
  fetch_loop R url a (S rem) w s = (Some body, after_get url a s).
Proof. intros H. cbn [fetch_loop]. rewrite bind_run. cbn. by rewrite H. Qed.

Lemma fetch_loop_503 R url a rem w s body :
  net w url (gets s) = Status 503 body ->
  fetch_loop R url a (S rem) w s =
  fetch_loop R url (S a) rem w
    (after_get_sleep url a (Backoff503 a (rnd w (draws s))) s).
Proof. intros H. cbn [fetch_loop]. rewrite bind_run. cbn. by rewrite H. Qed.

Lemma fetch_loop_other R url a rem w s code body :
  net w url (gets s) = Status code body -> code <> 200%Z -> code <> 503%Z ->
  fetch_loop R url a (S rem) w s = (None, after_get url a s).
Proof.
  intros H H2 H5. cbn [fetch_loop]. rewrite bind_run. cbn. rewrite H.
  destruct (Z.eqb_spec code 200); [done|]. by destruct (Z.eqb_spec code 503).
Qed.

Lemma fetch_loop_error_retry R url a rem w s :
  net w url (gets s) = TransportError -> (Z.of_nat a < Z.of_nat R - 1)%Z ->
  fetch_loop R url a (S rem) w s =
  fetch_loop R url (S a) rem w
    (after_get_sleep url a (RetryFlat (rnd w (draws s))) s).
Proof.
  intros H Ha. cbn [fetch_loop]. rewrite bind_run. cbn. rewrite H.
  by destruct (Z.ltb_spec (Z.of_nat a) (Z.of_nat R - 1)); [|lia].
Qed.

Lemma fetch_loop_error_last R url a rem w s :
  net w url (gets s) = TransportError -> ~ (Z.of_nat a < Z.of_nat R - 1)%Z ->
  fetch_loop R url a (S rem) w s = (None, after_get url a s).
Proof.
  intros H Ha. cbn [fetch_loop]. rewrite bind_run. cbn. rewrite H.
  by destruct (Z.ltb_spec (Z.of_nat a) (Z.of_nat R - 1)).
Qed.

End FetcherFacts.

(** Case analysis on the answer to the next request: [stop] closes the
    cases in which the loop returns, [go] those in which it sleeps and goes
    on to the next attempt. *)
Ltac fetch_loop_cases R url a rem w s stop go :=
  let Hnet := fresh "Hnet" in
  let code := fresh "code" in
  let body := fresh "body" in
  let H2 := fresh "H2" in
  let H5 := fresh "H5" in
  let Ha := fresh "Ha" in
  destruct (Fetcher.net w url (Fetcher.gets s)) as [code body|] eqn:Hnet;
  [ destruct (decide (code = 200%Z)) as [->|H2];
    [ rewrite (fetch_loop_200 R url a rem w s body Hnet); stop
    | destruct (decide (code = 503%Z)) as [->|H5];
      [ rewrite (fetch_loop_503 R url a rem w s body Hnet); go
      | rewrite (fetch_loop_other R url a rem w s code body Hnet H2 H5); stop ] ]
  | destruct (decide (Z.of_nat a < Z.of_nat R - 1)%Z) as [Ha|Ha];
    [ rewrite (fetch_loop_error_retry R url a rem w s Hnet Ha); go
    | rewrite (fetch_loop_error_last R url a rem w s Hnet Ha); stop ] ].

Section FetcherTraces.
Import Fetcher.

Lemma backoff_base_mono a b : a <= b -> (backoff_base a <= backoff_base b)%Z.
Proof. intros. unfold backoff_base. apply Z.pow_le_mono_r; lia. Qed.

Lemma backoff_bases_app es es' :
  backoff_bases (es ++ es') = backoff_bases es ++ backoff_bases es'.
Proof. unfold backoff_bases. apply omap_app. Qed.

Lemma fetch_loop_trace R url a rem w s :
  loop_trace url a rem s (fetch_loop R url a rem w s).2.
Proof.
  revert a s; induction rem as [|rem IH]; intros a s.
  { constructor. exists []. cbn. rewrite app_nil_r.
    repeat split; first [done | lia | by constructor]. }
  assert (Hstop : loop_trace url a (S rem) s (after_get url a s)).
  { constructor. exists [EvGet url a]. cbn.
    repeat split; first [done | lia | by repeat constructor]. }
  assert (Hgo : forall d,
    (backoff_bases [EvSleep d] = [] \/
     backoff_bases [EvSleep d] = [backoff_base a]) ->
    loop_trace url a (S rem) s
      (fetch_loop R url (S a) rem w (after_get_sleep url a d s)).2).
  { intros d Hd. destruct (IH (S a) (after_get_sleep url a d s)) as [(new & He & Hn & Hg & Hu & Hb & Hs)].
    constructor. exists ([EvGet url a] ++ [EvSleep d] ++ new).
    cbn [after_get_sleep events gets] in He, Hg.
    cbn [app count_gets].
    assert (Hmono : Forall (fun b => (backoff_base a <= b)%Z) (backoff_bases new)).
    { eapply Forall_impl; [exact Hb|]. intros b Hb'. cbn beta in Hb'.
      pose proof (backoff_base_mono a (S a)). lia. }
    repeat split.
    - rewrite He. by rewrite <- !app_assoc.
    - lia.
    - lia.
    - cbn. destruct d; cbn; by constructor.
    - change (EvGet url a :: EvSleep d :: new) with ([EvGet url a] ++ [EvSleep d] ++ new).
      rewrite !backoff_bases_app.
      destruct Hd as [->| ->]; cbn; [done|]. constructor; [lia|done].
    - change (EvGet url a :: EvSleep d :: new) with ([EvGet url a] ++ [EvSleep d] ++ new).
      rewrite !backoff_bases_app.
      destruct Hd as [->| ->]; cbn; [done|]. by constructor. }
  fetch_loop_cases R url a rem w s
    ltac:(exact Hstop) ltac:(apply Hgo; first [by left | by right]).
Qed.

(** Some answer ends the loop: the first one that is not followed by a
    retry, or the answer to the last attempt. *)
Lemma first_ending_answer R url w n :
  n <= R ->
  (exists k, k < n /\ (forall j, j < k -> goes_on R j (net w url j))
             /\ ~ goes_on R k (net w url k))
  \/ (forall j, j < n -> goes_on R j (net w url j)).
Proof.
  induction n as [|n IH]; intros Hn; [right; intros j Hj; lia|].
  destruct IH as [(k & Hk & Hbefore & Hend)|Hall]; [lia| |].
  { left. exists k. split; [lia|done]. }
  assert (Hdec : goes_on R n (net w url n) \/ ~ goes_on R n (net w url n)).
  { unfold goes_on. destruct (net w url n) as [code body|].
    - destruct (decide (code = 503%Z)); [by left|by right].
    - destruct (decide (S n < R)); [by left|by right]. }
  destruct Hdec as [Hgo|Hend].
  - right. intros j Hj. destruct (decide (j = n)) as [->|]; [done|]. apply Hall. lia.
  - left. exists n. split; [lia|done].
Qed.

(** While the answers let the loop go on, [fetch_page] has sent one request
    and slept once per attempt. *)
Lemma fetch_loop_goes_on R url w k :
  k <= R ->
  (forall j, j < k -> goes_on R j (net w url j)) ->
  fetch_loop R url 0 R w start
  = fetch_loop R url k (R - k) w
      {| gets := k; draws := k; events := attempts_trace w url k |}.
Proof.
  induction k as [|k IH]; intros Hk Hgo.
  { by rewrite Nat.sub_0_r. }
  rewrite IH; [|lia|intros j Hj; apply Hgo; lia].
  replace (R - k) with (S (R - S k)) by lia.
  pose proof (Hgo k ltac:(lia)) as Hgk. unfold goes_on in Hgk.
  set (s := {| gets := k; draws := k; events := attempts_trace w url k |}).
  assert (Hnext : forall d, retry_delay w url k = d ->
            after_get_sleep url k d s
            = {| gets := S k; draws := S k; events := attempts_trace w url (S k) |}).
  { intros d <-. unfold after_get_sleep, s. cbn [gets draws events attempts_trace].
    by rewrite <- app_assoc. }
  destruct (net w url k) as [code body|] eqn:Hnet.
  - subst code. rewrite (fetch_loop_503 R url k _ w s body) by exact Hnet.
    rewrite (Hnext _); [done|]. unfold retry_delay. by rewrite Hnet.
  - rewrite (fetch_loop_error_retry R url k _ w s) by (first [exact Hnet | lia]).
    rewrite (Hnext _); [done|]. unfold retry_delay. by rewrite Hnet.
Qed.

(** C2: [fetch_page] is a total function to [option html] (no exception
    leaves it) that sends at most [MAX_RETRIES] requests, all to its URL,
    and the deterministic parts [2^a] of its successive 503 delays are
    non-decreasing.  Its result and its trace are determined by the first
    answer that ends the loop, the answers before it being 503s and
    exceptions: each of those attempts [j] is a request followed by a sleep
    of [2^j + random] after a 503 and of [1 + random] after an exception.
    If that answer, to attempt [k], has status 200, the body is returned at
    once; if it has another status than 200 and 503, [None] is returned at
    once; if it is an exception at the last attempt, [None] is returned at
    once; if it is a 503 at the last attempt, the fetcher sleeps
    [2^k + random] and returns [None].  Without any attempt the result is
    [None]. *)
Theorem fetch_page_policy (cfg : config) (url : pystr) (w : world) :
  let R := MAX_RETRIES cfg in
  let result := run (fetch_page cfg url) w in
  let t := trace (fetch_page cfg url) w in
  count_gets t <= R
  /\ Forall (fun u => u = url) (requested_urls t)
  /\ StronglySorted Z.le (backoff_bases t)
  /\ (R = 0 -> result = None /\ t = [])
  /\ (0 < R ->
      exists k, k < R /\ (forall j, j < k -> goes_on R j (net w url j))
                /\ (~ goes_on R k (net w url k) \/ S k = R))
  /\ (forall k, k < R ->
        (forall j, j < k -> goes_on R j (net w url j)) ->
        match net w url k with
        | Status code body =>
          if decide (code = 200%Z) then
            result = Some body /\ t = attempts_trace w url k ++ [EvGet url k]
          else if decide (code = 503%Z) then
            S k = R ->
            result = None
            /\ t = attempts_trace w url k
                   ++ [EvGet url k; EvSleep (Backoff503 k (rnd w k))]
          else result = None /\ t = attempts_trace w url k ++ [EvGet url k]
        | TransportError =>
          S k = R -> result = None /\ t = attempts_trace w url k ++ [EvGet url k]
        end).
Proof.
  intros R result t.
  destruct (fetch_loop_trace R url 0 R w start) as [(new & He & Hn & _ & Hu & _ & Hs)].
  unfold result, t, trace, run, fetch_page. fold R.
  split_and!.
  - rewrite He. exact Hn.
  - rewrite He. exact Hu.
  - rewrite He. exact Hs.
  - intros ->. done.
  - intros HR. destruct (first_ending_answer R url w R) as [(k & Hk & Hb & He')|Hall]; [done| |].
    + exists k. split_and!; [done|done|by left].
    + exists (R - 1). split_and!; [lia|intros j Hj; apply Hall; lia|right; lia].
  - intros k Hk Hgo.
    rewrite (fetch_loop_goes_on R url w k) by (first [lia | exact Hgo]).
    replace (R - k) with (S (R - S k)) by lia.
    set (s := {| gets := k; draws := k; events := attempts_trace w url k |}).
    destruct (net w url k) as [code body|] eqn:Hnet.
    + destruct (decide (code = 200%Z)) as [->|H2].
      { by rewrite (fetch_loop_200 R url k _ w s body) by exact Hnet. }
      destruct (decide (code = 503%Z)) as [->|H5].
      * intros HR. rewrite (fetch_loop_503 R url k _ w s body) by exact Hnet.
        replace (R - S k) with 0 by lia. cbn. by rewrite <- app_assoc.
      * by rewrite (fetch_loop_other R url k _ w s code body) by done.
    + intros HR. by rewrite (fetch_loop_error_last R url k _ w s) by (first [done | lia]).
Qed.

End FetcherTraces.

Section FetcherEvaluations.
Import Fetcher Samples.

(** The policy on a network answering 503, a transport error, then 200:
    three requests, a sleep of the 503 kind with base 1, a sleep of the
    flat kind, and the body of the third answer. *)
Lemma fetch_page_policy_witness :
  run (fetch_page fundamental_config thread_url) flaky = Some (page_with [] [])
  /\ trace (fetch_page fundamental_config thread_url) flaky
     = [ EvGet thread_url 0; EvSleep (Backoff503 0 0.5%float);
         EvGet thread_url 1; EvSleep (RetryFlat 0.5%float);
         EvGet thread_url 2 ].
Proof.
  destruct (fetch_page_policy fundamental_config thread_url flaky)
    as (_ & _ & _ & _ & _ & H).
  refine (H 2 _ _).
  - cbn. lia.
  - intros [|[|j]] Hj; cbn; [reflexivity|lia|lia].
Defined.

End FetcherEvaluations.

(** ** Thread crawler *)

Section CrawlerFacts.
Import Fetcher Extractor Crawler Samples.
Variable digit_value : char -> option N.
Variable int_max_str_digits : option nat.

Abbreviation process_thread := (Crawler.process_thread digit_value int_max_str_digits).
Abbreviation thread_posts := (Crawler.thread_posts digit_value int_max_str_digits).

Lemma process_thread_unfold (cfg : config) t w s :
  process_thread cfg t w s =
  match (fetch_page cfg (url t) w s).1 with
  | Some page =>
    if html_nonempty page then
      let r := thread_posts cfg (url t) page w (fetch_page cfg (url t) w s).2 in
      (take (MAX_THREAD_TEXT_CHARS cfg)
            (strip (title t ++ py " " ++ join (py " ") r.1)), r.2)
    else (title t, (fetch_page cfg (url t) w s).2)
  | None => (title t, (fetch_page cfg (url t) w s).2)
  end.
Proof.
  unfold Crawler.process_thread. rewrite bind_run.
  destruct (fetch_page cfg (url t) w s) as [[page|] s']; cbn [fst snd]; [|done].
  destruct (html_nonempty page); [|done].
  rewrite bind_run. reflexivity.
Qed.

(** The early return of [process_thread]. *)
Lemma process_thread_title_only (cfg : config) (t : thread) (w : world) :
  run (fetch_page cfg (url t)) w = None ->
  run (process_thread cfg t) w = title t
  /\ trace (process_thread cfg t) w = trace (fetch_page cfg (url t)) w.
Proof.
  unfold run, trace. intros H. rewrite process_thread_unfold, H. done.
Qed.

(** C9: when the fetch of the thread's first page returns [None], the crawl
    returns exactly the thread's title, with no post appended, and it issues
    no request and no sleep beyond those of that fetch. *)
Theorem process_thread_degraded (cfg : config) (t : thread) (w : world) :
  run (fetch_page cfg (url t)) w = None ->
  run (process_thread cfg t) w = title t
  /\ trace (process_thread cfg t) w = trace (fetch_page cfg (url t)) w.
Proof. apply process_thread_title_only. Qed.

(** On the other path the text is cut to the cap. *)
Lemma process_thread_capped (cfg : config) t w page :
  run (fetch_page cfg (url t)) w = Some page -> html_nonempty page = true ->
  length (run (process_thread cfg t) w) <= MAX_THREAD_TEXT_CHARS cfg.
Proof.
  unfold run. intros H Hne. rewrite process_thread_unfold, H, Hne. cbn.
  rewrite length_take. lia.
Qed.

(** Once the cap on posts is reached no further page is requested. *)
Lemma fetch_more_pages_stop (cfg : config) pages posts w s :
  MAX_POSTS_PER_THREAD cfg <= length posts ->
  fetch_more_pages cfg pages posts w s = (posts, s).
Proof.
  intros H. destruct pages as [|p rest]; [done|].
  cbn [fetch_more_pages]. by rewrite bool_decide_eq_true_2.
Qed.

Lemma thread_posts_stop (cfg : config) url page w s :
  MAX_POSTS_PER_THREAD cfg <= length (extract_posts_from_html page) ->
  thread_posts cfg url page w s = (extract_posts_from_html page, s).
Proof.
  intros H. unfold Crawler.thread_posts.
  rewrite (bool_decide_eq_false_2 (_ < _)) by lia. done.
Qed.

End CrawlerFacts.

Section CrawlerEvaluations.
Import Fetcher Extractor Crawler Samples.

Lemma process_thread_degraded_witness :
  run (process_thread ascii_digit_value (Some 4300) fundamental_config short_thread) offline
  = py "Wyniki kwartalne".
Proof.
  apply (process_thread_degraded ascii_digit_value (Some 4300)
           fundamental_config short_thread offline).
  vm_compute. reflexivity.
Defined.

(** C3 at a failing input: a thread with a title of 20001 characters whose
    first page cannot be fetched.  [process_thread] returns the title
    uncut, longer than [MAX_THREAD_TEXT_CHARS] = 20000. *)
Theorem process_thread_degraded_exceeds_cap :
  N.of_nat (length (run (process_thread ascii_digit_value (Some 4300) fundamental_config
                           long_title_thread) offline)) = 20001%N
  /\ MAX_THREAD_TEXT_CHARS fundamental_config
     < length (run (process_thread ascii_digit_value (Some 4300) fundamental_config
                      long_title_thread) offline).
Proof.
  split; [vm_compute; reflexivity|].
  assert (H : (MAX_THREAD_TEXT_CHARS fundamental_config
               <? length (run (process_thread ascii_digit_value (Some 4300)
                                 fundamental_config long_title_thread) offline)) = true)
    by (vm_compute; reflexivity).
  exact (proj1 (Nat.ltb_lt _ _) H).
Qed.

(** C4 at a failing input: a first page with 101 distinct posts.  All 101
    are accumulated, more than [MAX_POSTS_PER_THREAD] = 100. *)
Theorem thread_posts_exceed_cap (w : world) :
  run (thread_posts ascii_digit_value (Some 4300) fundamental_config
         thread_url crowded_page) w
  = extract_posts_from_html crowded_page
  /\ length (extract_posts_from_html crowded_page) = 101
  /\ MAX_POSTS_PER_THREAD fundamental_config
     < length (extract_posts_from_html crowded_page).
Proof.
  assert (Hlen : length (extract_posts_from_html crowded_page) = 101)
    by (vm_compute; reflexivity).
  assert (Hlt : (MAX_POSTS_PER_THREAD fundamental_config
                 <? length (extract_posts_from_html crowded_page)) = true)
    by (vm_compute; reflexivity).
  apply Nat.ltb_lt in Hlt.
  split; [|split; [exact Hlen|exact Hlt]].
  unfold run. rewrite thread_posts_stop; [reflexivity|].
  apply Nat.lt_le_incl, Hlt.
Qed.

End CrawlerEvaluations.

(** ** Pagination discovery *)

Section PaginationFacts.
Import Fetcher Schedule Extractor Crawler Samples MoreSamples.
Variable digit_value : char -> option N.
Variable int_max_str_digits : option nat.

Abbreviation search_page := (Crawler.search_page digit_value).
Abbreviation py_int := (Crawler.py_int int_max_str_digits).
Abbreviation collect_valid_pages :=
  (Crawler.collect_valid_pages digit_value int_max_str_digits).
Abbreviation pages_to_fetch := (Crawler.pages_to_fetch digit_value int_max_str_digits).

Lemma collect_valid_pages_sound links url valid :
  collect_valid_pages links url = Some valid ->
  forall n link, (n, link) ∈ valid ->
    link ∈ links /\ link <> url
    /\ exists ds, search_page link = Some ds /\ py_int ds = Some n.
Proof.
  revert valid; induction links as [|l rest IH]; intros valid; cbn [Crawler.collect_valid_pages].
  { intros [= <-] n link Hin. by apply elem_of_nil in Hin. }
  assert (Hskip : collect_valid_pages rest url = Some valid ->
    forall n link, (n, link) ∈ valid ->
      link ∈ l :: rest /\ link <> url
      /\ exists ds, search_page link = Some ds /\ py_int ds = Some n).
  { intros H n link Hin. destruct (IH _ H n link Hin) as (? & ? & ?).
    split; [apply elem_of_cons; by right|done]. }
  destruct (bool_decide (l <> [])) eqn:Hl; cbn [andb]; [|exact Hskip].
  destruct (bool_decide (l <> url)) eqn:Hu; [|exact Hskip].
  apply bool_decide_eq_true_1 in Hu.
  destruct (search_page l) as [ds|] eqn:Hs; [|exact Hskip].
  destruct (py_int ds) as [page_num|] eqn:Hi; cbn; [|done].
  destruct (collect_valid_pages rest url) as [v|] eqn:Hr; cbn; [|done].
  intros [= <-] n link Hin. apply elem_of_cons in Hin as [[= -> ->]|Hin].
  - split; [apply elem_of_cons; by left|]. split; [done|]. by exists ds.
  - destruct (IH _ eq_refl n link Hin) as (? & ? & ?).
    split; [apply elem_of_cons; by right|done].
Qed.

(** The links kept are, in order, all the non-empty links other than the
    thread's own URL in which the pattern is found. *)
Lemma collect_valid_pages_complete links url valid :
  collect_valid_pages links url = Some valid ->
  valid.*2 = filter (fun l => l <> [] /\ l <> url /\ is_Some (search_page l)) links.
Proof.
  revert valid; induction links as [|l rest IH]; intros valid; cbn [Crawler.collect_valid_pages].
  { by intros [= <-]. }
  rewrite filter_cons.
  destruct (decide (l <> [])) as [Hl|Hl].
  2:{ rewrite bool_decide_eq_false_2 by done. cbn [andb].
      rewrite decide_False by tauto. apply IH. }
  rewrite bool_decide_eq_true_2 by done. cbn [andb].
  destruct (decide (l <> url)) as [Hu|Hu].
  2:{ rewrite bool_decide_eq_false_2 by done.
      rewrite decide_False by tauto. apply IH. }
  rewrite bool_decide_eq_true_2 by done.
  destruct (search_page l) as [ds|] eqn:Hs.
  2:{ rewrite decide_False; [apply IH|]. intros (_ & _ & [? ?]). done. }
  rewrite decide_True by (split_and!; [done|done|by eexists]).
  destruct (py_int ds) as [page_num|]; cbn; [|done].
  destruct (collect_valid_pages rest url) as [v|]; cbn; [|done].
  intros [= <-]. cbn. f_equal. by apply IH.
Qed.

Lemma insert_page_perm x l : insert_page x l ≡ₚ x :: l.
Proof.
  induction l as [|y r IH]; cbn; [done|].
  destruct (x.1 <=? y.1)%N; [done|].
  rewrite IH. apply Permutation_swap.
Qed.

Lemma sort_pages_perm l : sort_pages l ≡ₚ l.
Proof.
  induction l as [|x r IH]; cbn; [done|].
  fold (sort_pages r). by rewrite insert_page_perm, IH.
Qed.

Lemma insert_page_sorted x l :
  StronglySorted by_page_number l -> StronglySorted by_page_number (insert_page x l).
Proof.
  induction 1 as [|y r Hr IH Hy]; cbn; [by repeat constructor|].
  destruct (N.leb_spec x.1 y.1) as [Hxy|Hxy].
  - constructor; [by constructor|].
    constructor; [done|].
    eapply Forall_impl; [exact Hy|]. unfold by_page_number. cbn. intros. lia.
  - constructor; [done|].
    rewrite insert_page_perm. constructor; [|done]. unfold by_page_number. lia.
Qed.

Lemma sort_pages_sorted l : StronglySorted by_page_number (sort_pages l).
Proof.
  induction l as [|x r IH]; cbn; [constructor|]. by apply insert_page_sorted.
Qed.

(** The sort is stable: links with the same page number keep their order. *)
Lemma insert_page_filter n x l :
  StronglySorted by_page_number l ->
  filter (fun y => y.1 = n) (insert_page x l) = filter (fun y => y.1 = n) (x :: l).
Proof.
  induction 1 as [|y r Hr IH Hy]; cbn [insert_page]; [done|].
  destruct (N.leb_spec x.1 y.1) as [Hxy|Hxy]; [done|].
  rewrite filter_cons, IH, !filter_cons.
  destruct (decide (y.1 = n)), (decide (x.1 = n)); try done. lia.
Qed.

Lemma sort_pages_stable n l :
  filter (fun y => y.1 = n) (sort_pages l) = filter (fun y => y.1 = n) l.
Proof.
  induction l as [|x r IH]; [done|]. cbn [sort_pages foldr]. fold (sort_pages r).
  rewrite insert_page_filter by apply sort_pages_sorted.
  by rewrite !filter_cons, IH.
Qed.

Lemma pages_fetched_app es es' :
  pages_fetched (es ++ es') = pages_fetched es ++ pages_fetched es'.
Proof. apply omap_app. Qed.

Lemma fetch_loop_pages_fetched R url a rem w s :
  exists new,
    events (fetch_loop R url a rem w s).2 = events s ++ new
    /\ pages_fetched new = if decide (a = 0 /\ rem <> 0) then [url] else [].
Proof.
  revert a s; induction rem as [|rem IH]; intros a s.
  { exists []. cbn. rewrite app_nil_r. split; [done|]. by rewrite decide_False by tauto. }
  assert (Hhead : pages_fetched [EvGet url a]
                  = if decide (a = 0 /\ S rem <> 0) then [url] else []).
  { destruct a; cbn; [by rewrite decide_True|by rewrite decide_False by lia]. }
  assert (Hstop : exists new,
    events (after_get url a s) = events s ++ new
    /\ pages_fetched new = if decide (a = 0 /\ S rem <> 0) then [url] else []).
  { by exists [EvGet url a]. }
  assert (Hgo : forall d, exists new,
    events (fetch_loop R url (S a) rem w (after_get_sleep url a d s)).2 = events s ++ new
    /\ pages_fetched new = if decide (a = 0 /\ S rem <> 0) then [url] else []).
  { intros d. destruct (IH (S a) (after_get_sleep url a d s)) as (new & He & Hp).
    exists ([EvGet url a] ++ [EvSleep d] ++ new). split.
    - rewrite He. cbn. by rewrite <- !app_assoc.
    - rewrite !pages_fetched_app, Hp, Hhead.
      rewrite (decide_False (P := S a = 0 /\ _)) by lia. cbn. by rewrite app_nil_r. }
  fetch_loop_cases R url a rem w s ltac:(exact Hstop) ltac:(apply Hgo).
Qed.

Lemma fetch_page_pages_fetched (cfg : config) url w s :
  0 < MAX_RETRIES cfg ->
  exists new,
    events (fetch_page cfg url w s).2 = events s ++ new
    /\ pages_fetched new = [url].
Proof.
  intros HR. destruct (fetch_loop_pages_fetched (MAX_RETRIES cfg) url 0 (MAX_RETRIES cfg) w s)
    as (new & He & Hp).
  exists new. split; [done|]. rewrite Hp. by rewrite decide_True by lia.
Qed.

(** The pages are fetched in list order; the loop ends early only when the
    cap on posts is reached. *)
Lemma fetch_more_pages_order (cfg : config) pages posts w s :
  0 < MAX_RETRIES cfg ->
  exists new,
    events (fetch_more_pages cfg pages posts w s).2 = events s ++ new
    /\ pages_fetched new `prefix_of` pages
    /\ (pages_fetched new = pages
        \/ MAX_POSTS_PER_THREAD cfg <= length (fetch_more_pages cfg pages posts w s).1).
Proof.
  intros HR. revert posts s; induction pages as [|p rest IH]; intros posts s.
  { exists []. cbn. rewrite app_nil_r. split; [done|]. split; [done|by left]. }
  cbn [fetch_more_pages].
  destruct (decide (MAX_POSTS_PER_THREAD cfg <= length posts)) as [Hcap|Hcap].
  { rewrite bool_decide_eq_true_2 by done. exists []. cbn. rewrite app_nil_r.
    split; [done|]. split; [apply prefix_nil|by right]. }
  rewrite bool_decide_eq_false_2 by done. rewrite bind_run.
  destruct (fetch_page_pages_fetched cfg p w s HR) as (new1 & He1 & Hp1).
  assert (Hrest : forall posts' s' extra,
    events s' = (events s ++ new1) ++ extra -> pages_fetched extra = [] ->
    exists new,
      events (fetch_more_pages cfg rest posts' w s').2 = events s ++ new
      /\ pages_fetched new `prefix_of` p :: rest
      /\ (pages_fetched new = p :: rest
          \/ MAX_POSTS_PER_THREAD cfg <= length (fetch_more_pages cfg rest posts' w s').1)).
  { intros posts' s' extra Hs' Hx.
    destruct (IH posts' s') as (new & He & Hpre & Hall).
    exists (new1 ++ extra ++ new). split; [|split].
    - rewrite He, Hs'. by rewrite <- !app_assoc.
    - rewrite !pages_fetched_app, Hp1, Hx. cbn. by apply prefix_cons.
    - rewrite !pages_fetched_app, Hp1, Hx. cbn.
      destruct Hall as [->|Hall]; [by left|by right]. }
  destruct (fetch_page cfg p w s) as [[page|] s1] eqn:Hf; cbn [fst snd] in *.
  - destruct (html_nonempty page).
    + rewrite bind_run. apply (Hrest _ _ [EvSleep Politeness]); [|done].
      cbn. by rewrite He1.
    + apply (Hrest _ _ []); [|done]. by rewrite app_nil_r.
  - apply (Hrest _ _ []); [|done]. by rewrite app_nil_r.
Qed.

Lemma int_of_digits_acc ds acc :
  fold_left (fun a d => a * 10 + d)%N ds acc
  = (acc * 10 ^ N.of_nat (length ds) + decimal_value ds)%N.
Proof.
  revert acc; induction ds as [|d rest IH]; intros acc; cbn [fold_left decimal_value length].
  { cbn. lia. }
  rewrite IH. rewrite Nat2N.inj_succ, N.pow_succ_r'. lia.
Qed.

(** [int] reads the digits as a decimal number. *)
Lemma py_int_decimal ds n : py_int ds = Some n -> n = decimal_value ds.
Proof.
  assert (H : Crawler.int_of_digits ds = decimal_value ds).
  { unfold Crawler.int_of_digits. rewrite int_of_digits_acc. lia. }
  unfold Crawler.py_int. destruct int_max_str_digits as [m|].
  - destruct (m <? length ds); [done|]. intros [= <-]. exact H.
  - intros [= <-]. exact H.
Qed.

Lemma search_page_nonempty link ds : search_page link = Some ds -> link <> [].
Proof. by destruct link. Qed.

(** C8: when pagination discovery succeeds on the first page of a thread,
    the links kept ([valid]) are exactly, and in page order, the non-empty
    links of the page other than the thread's own URL in which the pattern
    [,(\d+)\.html] is found; the index of a kept link is the decimal number
    its digits write.  The kept links are sorted ascending by that index (a
    permutation of the kept links, sorted), the first
    [MAX_PAGES_PER_THREAD - 1] of them are selected, and they are fetched in
    that order: the pages requested are a prefix of the selection, all of it
    unless the cap on posts ends the loop.  With links to pages 2, 5, 3 and
    a page cap of 3 the selection is pages 2, 3; with links to pages 10, 2
    it is pages 2, 10. *)
Theorem pagination_selection (cfg : config) (page : html) (url : pystr)
    (links : list pystr) (valid : list (N * pystr)) :
  nav_links page = Some links ->
  collect_valid_pages links url = Some valid ->
  let selected := (take (MAX_PAGES_PER_THREAD cfg - 1) (sort_pages valid)).*2 in
  pages_to_fetch cfg page url = Some selected
  /\ (forall n link, (n, link) ∈ valid ->
        link ∈ links /\ link <> [] /\ link <> url
        /\ exists ds, search_page link = Some ds /\ py_int ds = Some n
                      /\ n = decimal_value ds)
  /\ valid.*2 = filter (fun l => l <> [] /\ l <> url /\ is_Some (search_page l)) links
  /\ sort_pages valid ≡ₚ valid
  /\ StronglySorted by_page_number (sort_pages valid)
  /\ length selected <= MAX_PAGES_PER_THREAD cfg - 1
  /\ (0 < MAX_RETRIES cfg -> forall posts w s, exists new,
        events (fetch_more_pages cfg selected posts w s).2 = events s ++ new
        /\ pages_fetched new `prefix_of` selected
        /\ (pages_fetched new = selected
            \/ MAX_POSTS_PER_THREAD cfg
               <= length (fetch_more_pages cfg selected posts w s).1))
  /\ (forall w s,
        Crawler.thread_posts digit_value int_max_str_digits cfg url page w s =
        if bool_decide (length (extract_posts_from_html page) < MAX_POSTS_PER_THREAD cfg)
           && bool_decide (1 < MAX_PAGES_PER_THREAD cfg)
        then fetch_more_pages cfg selected (extract_posts_from_html page) w s
        else (extract_posts_from_html page, s))
  /\ Crawler.pages_to_fetch ascii_digit_value (Some 4300) three_pages_config
       paged_page thread_url = Some [page2_url; page3_url]
  /\ Crawler.pages_to_fetch ascii_digit_value (Some 4300) three_pages_config
       long_thread_page thread_url = Some [page2_url; page10_url].
Proof.
  intros Hlinks Hvalid selected.
  assert (Hsel : pages_to_fetch cfg page url = Some selected).
  { unfold Crawler.pages_to_fetch. rewrite Hlinks. cbn. by rewrite Hvalid. }
  split_and!.
  - exact Hsel.
  - intros n link Hin.
    destruct (collect_valid_pages_sound _ _ _ Hvalid n link Hin)
      as (Hl & Hu & ds & Hs & Hi).
    split_and!; [done|by eapply search_page_nonempty|done|].
    exists ds. split_and!; [done|done|by apply py_int_decimal].
  - by apply collect_valid_pages_complete.
  - apply sort_pages_perm.
  - apply sort_pages_sorted.
  - unfold selected. rewrite length_fmap, length_take. lia.
  - intros HR posts w s. by apply fetch_more_pages_order.
  - intros w s. unfold Crawler.thread_posts. fold pages_to_fetch. rewrite Hsel.
    by destruct (_ && _).
  - vm_compute. reflexivity.
  - vm_compute. reflexivity.
Qed.

End PaginationFacts.

Section PaginationEvaluations.
Import Fetcher Extractor Crawler Samples MoreSamples.

(** The scenario of C8 run on a network that serves every page: after the
    first page, pages 2 and 3 are fetched, in that order; and page 2 is
    selected before page 10. *)
Lemma pagination_selection_witness :
  Crawler.pages_to_fetch ascii_digit_value (Some 4300) three_pages_config
    paged_page thread_url = Some [page2_url; page3_url]
  /\ Crawler.pages_to_fetch ascii_digit_value (Some 4300) three_pages_config
       long_thread_page thread_url = Some [page2_url; page10_url]
  /\ pages_fetched
       (trace (process_thread ascii_digit_value (Some 4300) three_pages_config
                 short_thread) paged)
     = [thread_url; page2_url; page3_url].
Proof.
  split; [|split; [|vm_compute; reflexivity]].
  - assert (Hvalid : Crawler.collect_valid_pages ascii_digit_value (Some 4300)
                       [page2_url; page5_url; page3_url] thread_url
                     = Some [(2%N, page2_url); (5%N, page5_url); (3%N, page3_url)])
      by (vm_compute; reflexivity).
    pose proof (proj1 (pagination_selection ascii_digit_value (Some 4300)
                         three_pages_config paged_page thread_url _ _ eq_refl Hvalid)) as H.
    rewrite H. vm_compute. reflexivity.
  - assert (Hvalid : Crawler.collect_valid_pages ascii_digit_value (Some 4300)
                       [page10_url; page2_url] thread_url
                     = Some [(10%N, page10_url); (2%N, page2_url)])
      by (vm_compute; reflexivity).
    pose proof (proj1 (pagination_selection ascii_digit_value (Some 4300)
                         three_pages_config long_thread_page thread_url _ _ eq_refl
                         Hvalid)) as H.
    rewrite H. vm_compute. reflexivity.
Defined.

End PaginationEvaluations.

(** ** Text extraction *)

Section ExtractorFacts.
Import Fetcher Extractor Samples.

Lemma elem_of_first_occurrences (x : pystr) (l : list pystr) : x ∈ first_occurrences l ↔ x ∈ l.
Proof.
  induction l as [|a r IH]; [done|]. cbn [first_occurrences].
  rewrite !elem_of_cons, list_elem_of_filter, IH.
  destruct (decide (x = a)); tauto.
Qed.

Lemma NoDup_first_occurrences l : NoDup (first_occurrences l).
Proof.
  induction l as [|a r IH]; cbn [first_occurrences]; [constructor|].
  constructor; [|by apply NoDup_filter].
  rewrite list_elem_of_filter. tauto.
Qed.

(** The loop with its set computes the list of first occurrences. *)
Lemma dedup_loop_spec (texts : list pystr) (seen : gset pystr) (unique : list pystr) :
  (forall x, x ∈ seen ↔ x ∈ unique) ->
  dedup_loop texts seen unique =
  unique ++ filter (fun y => y ∉ unique)
              (first_occurrences (filter (fun c => c <> []) (normalize <$> texts))).
Proof.
  revert seen unique; induction texts as [|t rest IH]; intros seen unique Hseen.
  { cbn. by rewrite app_nil_r. }
  cbn [dedup_loop fmap list_fmap]. rewrite filter_cons.
  destruct (decide (normalize t <> [])) as [Hne|Hne].
  2:{ rewrite bool_decide_eq_false_2 by done. cbn [andb].
      rewrite decide_False by done. by apply IH. }
  rewrite bool_decide_eq_true_2 by done. rewrite decide_True by done.
  cbn [andb first_occurrences].
  rewrite filter_cons.
  destruct (decide (normalize t ∉ seen)) as [Hs|Hs].
  - rewrite bool_decide_eq_true_2 by done.
    rewrite decide_True by (by rewrite <- Hseen).
    rewrite (IH ({[normalize t]} ∪ seen) (unique ++ [normalize t])).
    2:{ intros x. rewrite elem_of_union, elem_of_singleton, elem_of_app,
          list_elem_of_singleton, Hseen. tauto. }
    rewrite <- app_assoc. cbn [app]. do 2 f_equal.
    rewrite list_filter_filter. apply list_filter_iff.
    intros y. rewrite elem_of_app, list_elem_of_singleton. tauto.
  - rewrite bool_decide_eq_false_2 by done.
    assert (Hin : normalize t ∈ unique) by (apply Hseen; by apply dec_stable).
    rewrite decide_False by tauto.
    rewrite (IH seen unique Hseen). f_equal.
    rewrite list_filter_filter. apply list_filter_iff.
    intros y. split; [|tauto]. intros Hy. split; [done|]. by intros ->.
Qed.

Lemma filter_not_in_nil (l : list pystr) : filter (fun y => y ∉ @nil pystr) l = l.
Proof.
  induction l as [|a r IH]; [done|].
  rewrite filter_cons, decide_True by apply not_elem_of_nil. by f_equal.
Qed.

Lemma dedup_loop_first_occurrences (texts : list pystr) :
  dedup_loop texts ∅ [] =
  first_occurrences (filter (fun c => c <> []) (normalize <$> texts)).
Proof.
  rewrite (dedup_loop_spec texts ∅ []).
  - cbn [app]. apply filter_not_in_nil.
  - intros x. rewrite elem_of_nil. set_solver.
Qed.

Lemma fmap_fixed (f : pystr -> pystr) (l : list pystr) :
  (forall e, e ∈ l -> f e = e) -> f <$> l = l.
Proof.
  induction l as [|a r IH]; intros H; [done|]. cbn.
  rewrite H by (apply elem_of_cons; by left). f_equal.
  apply IH. intros e He. apply H, elem_of_cons. by right.
Qed.

(** What the deduplicated list satisfies, whatever texts went in. *)
Lemma first_occurrences_normalized (kept : list pystr) :
  let result := first_occurrences (filter (fun c => c <> []) (normalize <$> kept)) in
  NoDup result
  /\ NoDup (normalize <$> result)
  /\ (forall e, e ∈ result ->
        e <> [] /\ normalize e = e /\ exists t, t ∈ kept /\ e = normalize t).
Proof.
  intros result.
  assert (Hel : forall e, e ∈ result ->
            e <> [] /\ normalize e = e /\ exists t, t ∈ kept /\ e = normalize t).
  { intros e. unfold result. rewrite elem_of_first_occurrences, list_elem_of_filter,
      list_elem_of_fmap. intros (Hne & t & -> & Ht).
    split; [done|]. split; [apply normalize_idem|]. by exists t. }
  assert (Hnd : NoDup result) by apply NoDup_first_occurrences.
  split; [done|]. split; [|done].
  rewrite fmap_fixed; [done|]. intros e He. by apply Hel.
Qed.

Lemma matched_texts_elem page t :
  t ∈ matched_texts page ↔
  exists sel, sel ∈ selectors /\ t ∈ css_texts page sel /\ 15 < length t.
Proof.
  unfold matched_texts. rewrite list_elem_of_bind.
  split; intros (sel & H1 & H2); exists sel.
  - apply list_elem_of_filter in H1. tauto.
  - rewrite list_elem_of_filter. tauto.
Qed.

Lemma soup_texts_elem soup t :
  t ∈ soup_texts soup ↔
  exists sel, sel ∈ soup_selectors /\ t ∈ css_texts soup sel /\ 15 <= length t.
Proof.
  unfold soup_texts. rewrite list_elem_of_bind.
  split; intros (sel & H1 & H2); exists sel.
  - apply list_elem_of_filter in H1. split; [done|]. split; [tauto|lia].
  - rewrite list_elem_of_filter. destruct H2 as (Hin & Hlen).
    split; [|done]. split; [|done].
    split; [|lia]. intros ->. cbn in Hlen. lia.
Qed.

(** C10, as stated, fails: a post node whose text is "a", sixteen spaces,
    "b" (18 characters) passes the length filter, and the entry returned
    for it is its normalised form "a b", of 3 characters. *)
Lemma extracted_entry_below_threshold :
  extract_posts_from_html spaced_page = [py "a b"]
  /\ extract_post_texts_from_thread_soup spaced_page = [py "a b"]
  /\ exists e, e ∈ extract_posts_from_html spaced_page /\ length e < 15.
Proof.
  assert (H : extract_posts_from_html spaced_page = [py "a b"]) by (vm_compute; reflexivity).
  split; [exact H|]. split; [vm_compute; reflexivity|].
  exists (py "a b"). rewrite H. split; [by apply list_elem_of_singleton|].
  vm_compute. lia.
Qed.

(** C10 (amended), for both extractors: matched texts shorter than 15
    characters are discarded and matched texts longer than 15 characters are
    kept; the kept texts are whitespace-normalised (runs of whitespace
    collapsed, ends trimmed), empty results dropped, and deduplicated in
    first-seen order, and it is the normalised forms that are returned.  So
    the returned list has no two entries with equal normalised text, every
    entry is non-empty, equal to its own normalised form, and the normalised
    form of a matched text of at least 15 characters (the entry itself may
    be shorter).  [extract_posts_from_html] returns the empty list for an
    empty page source. *)
Theorem extracted_posts_deduplicated (page : html) :
  ( (forall t, t ∈ matched_texts page ->
       15 <= length t /\ exists sel, sel ∈ selectors /\ t ∈ css_texts page sel)
    /\ (forall sel t, sel ∈ selectors -> t ∈ css_texts page sel ->
          15 < length t -> t ∈ matched_texts page)
    /\ extract_posts_from_html page =
       (if html_nonempty page
        then first_occurrences
               (filter (fun c => c <> []) (normalize <$> matched_texts page))
        else [])
    /\ NoDup (extract_posts_from_html page)
    /\ NoDup (normalize <$> extract_posts_from_html page)
    /\ (forall e, e ∈ extract_posts_from_html page ->
          e <> [] /\ normalize e = e
          /\ exists t, t ∈ matched_texts page /\ e = normalize t /\ 15 <= length t) )
  /\
  ( (forall t, t ∈ soup_texts page ->
       15 <= length t /\ exists sel, sel ∈ soup_selectors /\ t ∈ css_texts page sel)
    /\ (forall sel t, sel ∈ soup_selectors -> t ∈ css_texts page sel ->
          15 < length t -> t ∈ soup_texts page)
    /\ extract_post_texts_from_thread_soup page =
       first_occurrences (filter (fun c => c <> []) (normalize <$> soup_texts page))
    /\ NoDup (extract_post_texts_from_thread_soup page)
    /\ NoDup (normalize <$> extract_post_texts_from_thread_soup page)
    /\ (forall e, e ∈ extract_post_texts_from_thread_soup page ->
          e <> [] /\ normalize e = e
          /\ exists t, t ∈ soup_texts page /\ e = normalize t /\ 15 <= length t) ).
Proof.
  split.
  - assert (Hkept : forall t, t ∈ matched_texts page ->
       15 <= length t /\ exists sel, sel ∈ selectors /\ t ∈ css_texts page sel).
    { intros t (sel & ? & ? & ?)%matched_texts_elem. split; [lia|by exists sel]. }
    destruct (first_occurrences_normalized (matched_texts page)) as (Hnd & Hnn & Hel).
    unfold extract_posts_from_html. rewrite dedup_loop_first_occurrences.
    split_and!; try done.
    + intros sel t ? ? ?. apply matched_texts_elem. by exists sel.
    + by destruct (html_nonempty page).
    + destruct (html_nonempty page); cbn [negb]; [done|constructor].
    + destruct (html_nonempty page); cbn [negb]; [done|constructor].
    + destruct (html_nonempty page); cbn [negb]; [|by intros e ?%elem_of_nil].
      intros e He. destruct (Hel e He) as (? & ? & t & Ht & ?).
      split; [done|]. split; [done|]. exists t. split_and!; try done. by apply Hkept.
  - assert (Hkept : forall t, t ∈ soup_texts page ->
       15 <= length t /\ exists sel, sel ∈ soup_selectors /\ t ∈ css_texts page sel).
    { intros t (sel & ? & ? & ?)%soup_texts_elem. split; [lia|by exists sel]. }
    destruct (first_occurrences_normalized (soup_texts page)) as (Hnd & Hnn & Hel).
    unfold extract_post_texts_from_thread_soup. rewrite dedup_loop_first_occurrences.
    split_and!; try done.
    + intros sel t ? ? ?. apply soup_texts_elem. exists sel. split_and!; [done|done|lia].
    + intros e He. destruct (Hel e He) as (? & ? & t & Ht & ?).
      split; [done|]. split; [done|]. exists t. split_and!; try done. by apply Hkept.
Qed.

End ExtractorFacts.

(** ** Fundamental scorer *)

Section FundamentalFacts.
Import Sentiment Fundamental Samples.
Local Open Scope Z_scope.

Lemma count_keywords_score sign name keywords text score hl :
  (count_keywords sign name keywords text score hl).1
  = score + present_count keywords text.
Proof.
  rewrite <- sum_present_count.
  revert score hl; induction keywords as [|k r IH]; intros score hl; cbn; [lia|].
  destruct (contains k text); rewrite IH; lia.
Qed.

Lemma dict_set_fresh {V} (d : list (pystr * V)) k v :
  k ∉ d.*1 -> dict_set d k v = d ++ [(k, v)].
Proof.
  induction d as [|[k' v'] r IH]; cbn; [done|].
  rewrite not_elem_of_cons. intros [Hk Hr].
  rewrite decide_False by done. by rewrite IH.
Qed.

Lemma score_categories_scores cats text acc hl :
  NoDup (acc.*1 ++ cats.*1) ->
  (score_categories cats text acc hl).1 = acc ++ formula_scores text cats.
Proof.
  revert acc hl; induction cats as [|[name c] rest IH]; intros acc hl Hnd.
  { cbn. by rewrite app_nil_r. }
  cbn [score_categories].
  pose proof (count_keywords_score (py "+") name (positive_keywords c) text 0 hl) as Hp.
  destruct (count_keywords (py "+") name (positive_keywords c) text 0 hl) as [p h1].
  pose proof (count_keywords_score (py "-") name (negative_keywords c) text 0 h1) as Hn.
  destruct (count_keywords (py "-") name (negative_keywords c) text 0 h1) as [n h2].
  cbn [fst] in Hp, Hn. rewrite Z.add_0_l in Hp, Hn. subst p n.
  cbn [fmap list_fmap fst snd] in Hnd.
  apply NoDup_app in Hnd as (Hacc & Hdisj & Hrest).
  rewrite dict_set_fresh.
  2:{ intros Hin. apply (Hdisj _ Hin). apply elem_of_cons. by left. }
  rewrite IH.
  - rewrite <- app_assoc. done.
  - rewrite fmap_app. cbn. rewrite <- app_assoc. cbn.
    apply NoDup_app. split; [done|]. split; [|done].
    intros x Hx. apply Hdisj. exact Hx.
Qed.

Lemma rating_bands (s : float) :
  let r := get_fundamental_rating s in
  (r = VERY_BULLISH ↔ (3.0 <=? s)%float = true)
  /\ (r = BULLISH ↔ (3.0 <=? s)%float = false /\ (1.5 <=? s)%float = true)
  /\ (r = SLIGHTLY_BULLISH ↔ (1.5 <=? s)%float = false /\ (3.0 <=? s)%float = false
                             /\ (0.5 <=? s)%float = true)
  /\ ((0.5 <=? s)%float = false -> (1.5 <=? s)%float = false -> (3.0 <=? s)%float = false ->
      (r = NEUTRAL ↔ (-0.5 <? s)%float = true)
      /\ (r = SLIGHTLY_BEARISH ↔ (-0.5 <? s)%float = false /\ (-1.5 <? s)%float = true)
      /\ (r = BEARISH ↔ (-0.5 <? s)%float = false /\ (-1.5 <? s)%float = false
                        /\ (-3.0 <? s)%float = true)
      /\ (r = VERY_BEARISH ↔ (-0.5 <? s)%float = false /\ (-1.5 <? s)%float = false
                             /\ (-3.0 <? s)%float = false)).
Proof.
  unfold get_fundamental_rating.
  destruct (3.0 <=? s)%float, (1.5 <=? s)%float, (0.5 <=? s)%float,
           (-0.5 <? s)%float, (-1.5 <? s)%float, (-3.0 <? s)%float;
    cbn zeta; intuition congruence.
Qed.

Lemma binary_round_opp p e :
  SFopp (binary_round prec emax false p e) = binary_round prec emax true p e.
Proof.
  unfold binary_round.
  destruct (shl_align p e (fexp prec emax (Z.pos (digits2_pos p) + e))) as [mz ez].
  unfold binary_round_aux.
  destruct (shr_fexp prec emax (Z.pos mz) ez loc_Exact) as [mrs' e'].
  destruct (shr_fexp prec emax
              (round_nearest_even (shr_m mrs') (loc_of_shr_record mrs')) e' loc_Exact)
    as [mrs'' e''].
  destruct (shr_m mrs'') as [|m|m]; cbn [SFopp negb]; [done| |done].
  by destruct (e'' <=? emax - prec).
Qed.

(** The conversion of an [int] operand is the rounding of the integer to
    binary64. *)
Lemma float_of_Z_spec z :
  - 2 ^ 63 < z < 2 ^ 63 ->
  Prim2SF (float_of_Z z) = binary_normalize prec emax z 0 false.
Proof.
  intros Hz. destruct z as [|p|p]; cbn [float_of_Z binary_normalize].
  - reflexivity.
  - rewrite of_uint63_spec, Uint63.of_Z_spec, Z.mod_small; [done|].
    change Uint63Axioms.wB with (2 ^ 63). lia.
  - rewrite opp_spec, of_uint63_spec, Uint63.of_Z_spec, Z.mod_small.
    + cbn [binary_normalize]. apply binary_round_opp.
    + change Uint63Axioms.wB with (2 ^ 63). lia.
Qed.

Lemma py_sum_plain_snoc l x :
  py_sum PlainSum (l ++ [x]) = (py_sum PlainSum l + x)%float.
Proof. unfold py_sum. by rewrite fold_left_app. Qed.

Lemma py_sum_one mode x : py_sum mode [x] = (0 + x)%float.
Proof. by destruct mode. Qed.

Lemma analyze_fundamentals_nonempty float_sum lower cats text :
  NoDup cats.*1 -> text <> [] ->
  categories (analyze_fundamentals float_sum lower cats text)
  = formula_scores (lower text) cats
  /\ total_score (analyze_fundamentals float_sum lower cats text)
     = py_sum float_sum
         ((fun e => weighted_score e.2)
            <$> categories (analyze_fundamentals float_sum lower cats text)).
Proof.
  intros Hnd Ht. unfold analyze_fundamentals.
  destruct text as [|c0 t0]; [done|].
  pose proof (score_categories_scores cats (lower (c0 :: t0)) [] [] Hnd) as Hs.
  destruct (score_categories cats (lower (c0 :: t0)) [] []) as [scores hl].
  cbn in Hs. subst scores. done.
Qed.

(** C7, as stated, fails.  For the empty text the scorer returns at once:
    no category gets positive or negative hits, a net or a weighted score,
    although the table has six categories.  And the total is a binary64 sum,
    not the sum: on a text with two positive hits in EARNINGS, one positive
    hit in OUTLOOK and one negative hit in STRATEGY the weighted scores are
    0.5, 0.2 and -0.2 (and three zeros), which add up to exactly 0.5, in
    the band SLIGHTLY BULLISH, but with the left-to-right addition of the
    interpreters up to CPython 3.11 the total is 0.49999999999999994 and
    the rating NEUTRAL. *)
Lemma analyze_fundamentals_not_the_exact_sum :
  categories (analyze_fundamentals PlainSum ascii_lower FUNDAMENTAL_CATEGORIES []) = []
  /\ categories (analyze_fundamentals CompensatedSum ascii_lower FUNDAMENTAL_CATEGORIES [])
     = []
  /\ length FUNDAMENTAL_CATEGORIES = 6%nat
  /\ (let r := analyze_fundamentals PlainSum ascii_lower FUNDAMENTAL_CATEGORIES mixed_report in
      (fun e => weighted_score e.2) <$> categories r
      = [0.5; 0.2; -0.2; 0; 0; 0]%float
      /\ exact_units 0.5 + exact_units 0.2 + exact_units (-0.2) = exact_units 0.5
      /\ get_fundamental_rating 0.5 = SLIGHTLY_BULLISH
      /\ total_score r = 0.49999999999999994%float
      /\ exact_units (total_score r) <> exact_units 0.5
      /\ get_fundamental_rating (total_score r) = NEUTRAL).
Proof. vm_compute. repeat split; congruence. Qed.

(** C7 (amended): for every non-empty text the scorer stores, for every
    category of the table and in table order, positive_count and
    negative_count equal to the numbers of that category's keywords
    occurring in the lowercased text, net_score their difference and
    weighted_score the binary64 product of net_score, converted to a float,
    and the category's weight; the total is the [sum] of the interpreter
    over the weighted scores in table order, from 0: left-to-right binary64
    addition up to CPython 3.11, compensated summation from CPython 3.12.
    For the empty text the scorer returns the total 0 with no category
    entry and no highlight.  The rating follows the bands >= 3.0, >= 1.5,
    >= 0.5, > -0.5, > -1.5, > -3.0, else very bearish.  With two categories
    of weight 0.5, one positive hit in the first and one negative hit in
    the second, the total is 0.0 and the rating NEUTRAL.  On the text of the
    counterexample the total is 0.49999999999999994 with the plain and 0.5
    with the compensated summation. *)
Theorem analyze_fundamentals_formula (float_sum : summation) (lower : pystr -> pystr)
    (cats : list (pystr * category)) (text : pystr) :
  NoDup cats.*1 ->
  let r := analyze_fundamentals float_sum lower cats text in
  (text <> [] ->
     categories r = formula_scores (lower text) cats
     /\ total_score r = py_sum float_sum ((fun e => weighted_score e.2) <$> categories r))
  /\ (text = [] -> total_score r = 0%float /\ categories r = [] /\ highlights r = [])
  /\ (forall z, - 2 ^ 63 < z < 2 ^ 63 ->
        Prim2SF (float_of_Z z) = binary_normalize prec emax z 0 false)
  /\ (py_sum float_sum [] = 0%float
      /\ (forall x, py_sum float_sum [x] = (0 + x)%float)
      /\ (forall l x, py_sum PlainSum (l ++ [x]) = (py_sum PlainSum l + x)%float))
  /\ (forall s,
       (get_fundamental_rating s = VERY_BULLISH ↔ (3.0 <=? s)%float = true)
       /\ (get_fundamental_rating s = BULLISH ↔
             (3.0 <=? s)%float = false /\ (1.5 <=? s)%float = true)
       /\ (get_fundamental_rating s = SLIGHTLY_BULLISH ↔
             (1.5 <=? s)%float = false /\ (3.0 <=? s)%float = false
             /\ (0.5 <=? s)%float = true)
       /\ ((0.5 <=? s)%float = false -> (1.5 <=? s)%float = false ->
            (3.0 <=? s)%float = false ->
            (get_fundamental_rating s = NEUTRAL ↔ (-0.5 <? s)%float = true)
            /\ (get_fundamental_rating s = SLIGHTLY_BEARISH ↔
                  (-0.5 <? s)%float = false /\ (-1.5 <? s)%float = true)
            /\ (get_fundamental_rating s = BEARISH ↔
                  (-0.5 <? s)%float = false /\ (-1.5 <? s)%float = false
                  /\ (-3.0 <? s)%float = true)
            /\ (get_fundamental_rating s = VERY_BEARISH ↔
                  (-0.5 <? s)%float = false /\ (-1.5 <? s)%float = false
                  /\ (-3.0 <? s)%float = false)))
  /\ (forall nameA nameB A B,
       text <> [] -> nameA <> nameB ->
       weight A = 0.5%float -> weight B = 0.5%float ->
       present_count (positive_keywords A) (lower text) = 1 ->
       present_count (negative_keywords A) (lower text) = 0 ->
       present_count (positive_keywords B) (lower text) = 0 ->
       present_count (negative_keywords B) (lower text) = 1 ->
       total_score (analyze_fundamentals float_sum lower [(nameA, A); (nameB, B)] text)
       = 0%float
       /\ get_fundamental_rating
            (total_score
               (analyze_fundamentals float_sum lower [(nameA, A); (nameB, B)] text))
          = NEUTRAL)
  /\ total_score (analyze_fundamentals PlainSum ascii_lower FUNDAMENTAL_CATEGORIES
                    mixed_report) = 0.49999999999999994%float
  /\ total_score (analyze_fundamentals CompensatedSum ascii_lower FUNDAMENTAL_CATEGORIES
                    mixed_report) = 0.5%float.
Proof.
  intros Hnd r. split_and!.
  - intros Ht. by apply analyze_fundamentals_nonempty.
  - intros ->. done.
  - apply float_of_Z_spec.
  - by destruct float_sum.
  - apply py_sum_one.
  - apply py_sum_plain_snoc.
  - intros s. apply rating_bands.
  - intros nameA nameB A B Ht Hne HwA HwB HpA HnA HpB HnB.
    destruct (analyze_fundamentals_nonempty float_sum lower [(nameA, A); (nameB, B)] text)
      as [Hcat Htot]; [|done|].
    { cbn. apply NoDup_cons. split; [|apply NoDup_singleton].
      rewrite not_elem_of_cons. split; [done|apply not_elem_of_nil]. }
    rewrite Htot, Hcat. unfold formula_scores, category_formula. cbn.
    rewrite HwA, HwB, HpA, HnA, HpB, HnB.
    destruct float_sum; split; vm_compute; reflexivity.
  - vm_compute. reflexivity.
  - vm_compute. reflexivity.
Qed.

Lemma analyze_fundamentals_formula_witness :
  total_score (analyze_fundamentals PlainSum ascii_lower two_categories (py "zysk i strata"))
  = 0%float
  /\ get_fundamental_rating
       (total_score
          (analyze_fundamentals PlainSum ascii_lower two_categories (py "zysk i strata")))
     = NEUTRAL
  /\ categories (analyze_fundamentals PlainSum ascii_lower FUNDAMENTAL_CATEGORIES
                   (py "zysk netto, ale problem"))
     = formula_scores (ascii_lower (py "zysk netto, ale problem")) FUNDAMENTAL_CATEGORIES.
Proof.
  assert (Hnd : NoDup FUNDAMENTAL_CATEGORIES.*1).
  { apply (bool_decide_unpack _). vm_compute. exact I. }
  assert (Hne : forall s : pystr, bool_decide (s <> []) = true -> s <> [])
    by (intros s; apply bool_decide_eq_true_1).
  split_and!.
  - apply (analyze_fundamentals_formula PlainSum ascii_lower FUNDAMENTAL_CATEGORIES
             (py "zysk i strata") Hnd);
      first [ by apply Hne; vm_compute | vm_compute; congruence ].
  - apply (analyze_fundamentals_formula PlainSum ascii_lower FUNDAMENTAL_CATEGORIES
             (py "zysk i strata") Hnd);
      first [ by apply Hne; vm_compute | vm_compute; congruence ].
  - apply (analyze_fundamentals_formula PlainSum ascii_lower FUNDAMENTAL_CATEGORIES
             (py "zysk netto, ale problem") Hnd).
    apply Hne. vm_compute. reflexivity.
Defined.

End FundamentalFacts.

(** ** Thread crawler of the browser pipeline *)

Section BrowserFacts.
Import Fetcher Extractor Browser.

Lemma add_posts_bound max_posts txts posts :
  length posts < max_posts ->
  length (add_posts max_posts txts posts).1 <= max_posts
  /\ ((add_posts max_posts txts posts).2 = false ->
      length (add_posts max_posts txts posts).1 < max_posts).
Proof.
  revert posts; induction txts as [|txt rest IH]; intros posts Hlt; cbn [add_posts].
  { cbn. split; [lia|done]. }
  set (posts' := if bool_decide (txt ∈ posts) then posts else posts ++ [txt]).
  assert (Hlen : length posts' <= S (length posts)).
  { unfold posts'. destruct (bool_decide (txt ∈ posts)); [lia|].
    rewrite length_app. cbn. lia. }
  destruct (decide (max_posts <= length posts')) as [Hge|Hge].
  - rewrite bool_decide_eq_true_2 by done. cbn. split; [lia|done].
  - rewrite bool_decide_eq_false_2 by done. apply IH. lia.
Qed.

Lemma scrape_pages_bound lim d thread_url page_urls soup n posts :
  length posts < MAX_POSTS_PER_THREAD lim ->
  length (scrape_pages lim d thread_url page_urls soup n posts).1
  <= MAX_POSTS_PER_THREAD lim.
Proof.
  revert soup n posts; induction page_urls as [|page_url rest IH];
    intros soup n posts Hlt; cbn [scrape_pages].
  { cbn. lia. }
  destruct (if bool_decide (page_url <> thread_url) then (d n page_url, S n)
            else (Some soup, n)) as [[soup'|] n']; [|cbn; lia].
  pose proof (add_posts_bound (MAX_POSTS_PER_THREAD lim)
                (extract_post_texts_from_thread_soup soup') posts Hlt) as [Hle Hcont].
  destruct (add_posts (MAX_POSTS_PER_THREAD lim)
              (extract_post_texts_from_thread_soup soup') posts) as [posts' returned].
  cbn [fst snd] in *. destruct returned; [done|]. apply IH. by apply Hcont.
Qed.

(** The browser crawler never holds more posts than its cap. *)
Lemma scrape_thread_posts_bound lim d n thread_url :
  0 < MAX_POSTS_PER_THREAD lim ->
  length (scrape_thread_posts lim d n thread_url).1 <= MAX_POSTS_PER_THREAD lim.
Proof.
  intros Hpos. unfold scrape_thread_posts.
  destruct thread_url as [|c u]; [cbn; lia|].
  destruct (d n (c :: u)) as [soup|]; [|cbn; lia].
  apply scrape_pages_bound. cbn. lia.
Qed.

(** The browser pipeline cuts every thread text to the cap, also when the
    thread could not be loaded. *)
Lemma thread_text_capped lim d n tytul thread_url :
  length (thread_text lim d n tytul thread_url).1 <= MAX_THREAD_TEXT_CHARS lim.
Proof.
  unfold thread_text.
  destruct (scrape_thread_posts lim d n thread_url) as [thread_posts n'].
  cbn [fst]. case_bool_decide; [|lia].
  rewrite length_take. lia.
Qed.

Lemma thread_text_cut lim d n tytul thread_url :
  (thread_text lim d n tytul thread_url).1
  = take (MAX_THREAD_TEXT_CHARS lim)
      (strip (tytul ++ py " " ++ join (py " ") (scrape_thread_posts lim d n thread_url).1)).
Proof.
  unfold thread_text.
  destruct (scrape_thread_posts lim d n thread_url) as [thread_posts n'].
  cbn [fst]. case_bool_decide as Hlen; [done|].
  rewrite take_ge; [done|lia].
Qed.

End BrowserFacts.

(** ** Company processor *)

Section CompanyFacts.
Import Fetcher Extractor Crawler Fundamental Company Browser Samples.


Lemma thread_sentiments_length lower lim d n threads_data :
  length (thread_sentiments lower lim d n threads_data) = length threads_data.
Proof.
  revert n; induction threads_data as [|[tytul thread_url] rest IH]; intros n; [done|].
  cbn [thread_sentiments].
  destruct (thread_text lim d n tytul thread_url) as [text n']. cbn. by rewrite IH.
Qed.




End CompanyFacts.

Section CompanyEvaluations.
Import Fetcher Extractor Crawler Fundamental Company Samples.


End CompanyEvaluations.

(** ** The concurrency gate *)

Section GateFacts.
Import Fetcher Gate Samples.

Lemma gated_fetch_page_prog h remaining k :
  0 < h -> (forall b, gated h (k b)) -> gated h (fetch_page_prog remaining k).
Proof.
  intros Hh Hk. induction remaining as [|r IH]; cbn [fetch_page_prog]; [apply Hk|].
  split; [done|]. intros [| | |]; cbn [gated]; try done.
  destruct r; [apply Hk|exact IH].
Qed.

Lemma gated_more_pages_prog h retries n k :
  0 < h -> gated h k -> gated h (more_pages_prog retries n k).
Proof.
  intros Hh Hk. induction n as [|n IH]; cbn [more_pages_prog]; [done|].
  split; [done|]. apply gated_fetch_page_prog; [done|].
  intros [|]; cbn [gated]; [split|]; done.
Qed.

Lemma gated_process_thread_prog cfg : gated 0 (process_thread_prog cfg).
Proof.
  unfold process_thread_prog. cbn [gated].
  apply gated_fetch_page_prog; [lia|].
  intros [|]; cbn [gated pred].
  - split; [split; [lia|done]|]. split; [split; [lia|done]|].
    apply gated_more_pages_prog; [lia|]. cbn. split; [lia|done].
  - split; [lia|done].
Qed.

Lemma gated_process_company_prog cfg : gated 0 (process_company_prog cfg).
Proof.
  unfold process_company_prog. cbn [gated].
  apply gated_fetch_page_prog; [lia|].
  intros [|]; cbn [gated pred]; (split; [lia|]); [|done].
  split; [done|]. split; [done|]. split; [|done]. apply gated_process_thread_prog.
Qed.

Lemma gated_main_prog cfg : gated 0 (main_prog cfg).
Proof.
  unfold main_prog. cbn [gated]. split; [done|]. split; [|done].
  apply gated_process_company_prog.
Qed.

Lemma held_insert (tasks : list task) i t t' :
  tasks !! i = Some t ->
  sum_list_with holds (<[i := t']> tasks) + holds t
  = sum_list_with holds tasks + holds t'.
Proof.
  revert i; induction tasks as [|a r IH]; intros i Hi; [done|].
  destruct i as [|i].
  - cbn in Hi. injection Hi as ->. cbn. lia.
  - specialize (IH i Hi).
    change (holds a + sum_list_with holds (<[i := t']> r) + holds t
            = holds a + sum_list_with holds r + holds t').
    lia.
Qed.

Lemma held_replicate n t : sum_list_with holds (replicate n t) = n * holds t.
Proof. induction n as [|n IH]; [done|]. cbn. rewrite IH. lia. Qed.

Lemma in_flight_le_held (tasks : list task) :
  Forall gated_task tasks ->
  length (filter (fun t => awaiting t = true) tasks) <= sum_list_with holds tasks.
Proof.
  induction 1 as [|t r Ht Hr IH]; [done|].
  rewrite filter_cons.
  change (sum_list_with holds (t :: r)) with (holds t + sum_list_with holds r).
  case_decide as Ha; [|lia].
  unfold awaiting in Ha. unfold gated_task in Ht.
  destruct (code t); try done. destruct Ht as [Hh _].
  cbn [length]. lia.
Qed.

Lemma gate_invariant_initial cfg :
  gate_invariant (MAX_CONCURRENT_REQUESTS cfg) (initial cfg).
Proof.
  split; [cbn; lia|]. repeat constructor. apply gated_main_prog.
Qed.

(** A step of one task that changes its own permits and the semaphore by
    opposite amounts keeps the accounting. *)
Lemma gate_invariant_update capacity s i t t' v' :
  gate_invariant capacity s ->
  pool s !! i = Some t ->
  gated_task t' ->
  v' + holds t' = sem_value s + holds t ->
  gate_invariant capacity {| sem_value := v'; pool := set_task s i t' |}.
Proof.
  intros [Hsum Hall] Hi Ht' Hv. split; cbn [sem_value pool].
  - unfold held, set_task in *. cbn [pool].
    pose proof (held_insert (pool s) i t t' Hi). lia.
  - unfold set_task. by apply Forall_insert.
Qed.

Lemma gate_invariant_step capacity s s' :
  gate_invariant capacity s -> step s s' -> gate_invariant capacity s'.
Proof.
  intros Hinv Hstep.
  assert (Htask : forall i t, pool s !! i = Some t -> gated_task t).
  { intros i t Hi. destruct Hinv as [_ Hall]. by eapply Forall_lookup_1. }
  destruct Hstep as [s i k h v Hi Hv | s i k h Hi | s i k h Hi | s i k h o Hi
                    | s i k h Hi | s i p q h left Hi | s i child k h n Hi
                    | s i children k h Hi Hdone];
    pose proof (Htask _ _ Hi) as Hg; unfold gated_task in Hg; cbn in Hg.
  - eapply gate_invariant_update; [done|exact Hi|exact Hg|cbn; lia].
  - destruct Hg as [Hh Hg].
    eapply gate_invariant_update; [done|exact Hi|exact Hg|cbn; lia].
  - eapply gate_invariant_update; [done|exact Hi|exact Hg|cbn; lia].
  - destruct Hg as [Hh Hg].
    eapply gate_invariant_update; [done|exact Hi|apply Hg|cbn; lia].
  - eapply gate_invariant_update; [done|exact Hi|exact Hg|cbn; lia].
  - destruct Hg as [Hp Hq].
    eapply gate_invariant_update; [done|exact Hi| |cbn; lia].
    unfold gated_task. cbn. by destruct left.
  - destruct Hg as [Hc Hk].
    pose proof (gate_invariant_update capacity s i _
                  {| code := Joining (seq (length (pool s)) n) k; holds := h |}
                  (sem_value s) Hinv Hi Hk eq_refl) as [Hsum Hall].
    split; cbn [sem_value pool] in *.
    + unfold held in *. cbn [pool] in *. rewrite sum_list_with_app.
      rewrite held_replicate. cbn [holds]. lia.
    + apply Forall_app. split; [done|]. by apply Forall_replicate.
  - eapply gate_invariant_update; [done|exact Hi|exact Hg|cbn; lia].
Qed.

Lemma gate_invariant_reachable cfg s :
  reachable cfg s -> gate_invariant (MAX_CONCURRENT_REQUESTS cfg) s.
Proof.
  unfold reachable. revert s. apply rtc_ind_r.
  - apply gate_invariant_initial.
  - intros y z _ Hstep IH. by eapply gate_invariant_step.
Qed.

(** C1: in every state the event loop of [main] can reach, under any
    interleaving of its company tasks and thread tasks and any answers of
    the network, the number of outstanding requests is at most
    [MAX_CONCURRENT_REQUESTS] (5 in the repository).  The free permits and
    the permits held by tasks always add up to that number, every task with
    an outstanding request holds a permit, and both the company tasks and
    the thread tasks issue their requests only inside the one semaphore
    that [main] creates. *)
Theorem outstanding_requests_bounded (cfg : config) (s : system) :
  reachable cfg s ->
  in_flight s <= MAX_CONCURRENT_REQUESTS cfg
  /\ sem_value s + held s = MAX_CONCURRENT_REQUESTS cfg
  /\ (forall t, t ∈ pool s -> awaiting t = true -> 0 < holds t)
  /\ gated 0 (process_company_prog cfg)
  /\ gated 0 (process_thread_prog cfg)
  /\ MAX_CONCURRENT_REQUESTS fundamental_config = 5.
Proof.
  intros Hr. destruct (gate_invariant_reachable cfg s Hr) as [Hsum Hall].
  split_and!.
  - pose proof (in_flight_le_held (pool s) Hall). unfold in_flight, held in *. lia.
  - exact Hsum.
  - intros t Ht Ha. rewrite Forall_forall in Hall. specialize (Hall t Ht).
    unfold gated_task, awaiting in *. destruct (code t); try done. lia.
  - apply gated_process_company_prog.
  - apply gated_process_thread_prog.
  - reflexivity.
Qed.

Lemma outstanding_requests_bounded_witness :
  in_flight busy_system = 1 /\ in_flight busy_system <= 5.
Proof.
  split; [reflexivity|].
  assert (Hr : reachable fundamental_config busy_system).
  { unfold reachable.
    eapply rtc_l; [exact (step_branch (initial fundamental_config) 0 _ _ 0 false eq_refl)|].
    eapply rtc_l; [eapply (step_gather _ 0) with (n := 2); reflexivity|].
    eapply rtc_l; [eapply (step_acquire _ 1); reflexivity|].
    eapply rtc_l; [eapply (step_send _ 1); reflexivity|].
    apply rtc_refl. }
  exact (proj1 (outstanding_requests_bounded fundamental_config busy_system Hr)).
Defined.

End GateFacts.

(** ** More on the fetcher: success, schedule and waiting time *)

Section ScheduleFacts.
Import Fetcher Schedule Samples MoreSamples.

Lemma fetch_loop_first_success R url w body :
  forall k a rem s,
    a + rem = R -> k < rem ->
    net w url (gets s + k) = Status 200 body ->
    (forall j, j < k -> retryable (net w url (gets s + j))) ->
    (fetch_loop R url a rem w s).1 = Some body
    /\ gets (fetch_loop R url a rem w s).2 = gets s + S k.
Proof.
  induction k as [|k IH]; intros a rem s HR Hk H200 Hretry;
    (destruct rem as [|rem]; [lia|]).
  - rewrite Nat.add_0_r in H200. rewrite (fetch_loop_200 _ _ _ _ _ _ _ H200).
    cbn. split; [done|lia].
  - assert (Hnext : forall d,
      (fetch_loop R url (S a) rem w (after_get_sleep url a d s)).1 = Some body
      /\ gets (fetch_loop R url (S a) rem w (after_get_sleep url a d s)).2
         = gets s + S (S k)).
    { intros d.
      destruct (IH (S a) rem (after_get_sleep url a d s)) as [Hr Hg].
      - lia.
      - lia.
      - cbn [after_get_sleep gets]. by replace (S (gets s) + k) with (gets s + S k) by lia.
      - intros j Hj. cbn [after_get_sleep gets].
        replace (S (gets s) + j) with (gets s + S j) by lia. apply Hretry. lia.
      - split; [done|]. rewrite Hg. cbn [after_get_sleep gets]. lia. }
    pose proof (Hretry 0 ltac:(lia)) as H0. rewrite Nat.add_0_r in H0.
    destruct (net w url (gets s)) as [code b|] eqn:Hnet; cbn in H0.
    + subst code. rewrite (fetch_loop_503 _ _ _ _ _ _ _ Hnet). apply Hnext.
    + rewrite (fetch_loop_error_retry _ _ _ _ _ _ Hnet) by lia. apply Hnext.
Qed.

(** X1: [fetch_page] returns the body of the first answer with status 200,
    provided that answer comes within [MAX_RETRIES] attempts and every
    answer before it was a 503 or a transport error; it then has made
    exactly one request per answer consumed. *)
Theorem fetch_page_first_success (cfg : config) (url : pystr) (w : world)
    (k : nat) (body : html) :
  k < MAX_RETRIES cfg ->
  net w url k = Status 200 body ->
  (forall j, j < k -> retryable (net w url j)) ->
  run (fetch_page cfg url) w = Some body
  /\ gets (fetch_page cfg url w start).2 = S k.
Proof.
  intros Hk H200 Hretry. unfold run, fetch_page.
  apply (fetch_loop_first_success (MAX_RETRIES cfg) url w body k 0 (MAX_RETRIES cfg) start);
    cbn; try done.
Qed.

Lemma fetch_page_first_success_witness :
  run (fetch_page fundamental_config thread_url) flaky = Some (page_with [] []).
Proof.
  refine (proj1 (fetch_page_first_success fundamental_config thread_url flaky 2
                   (page_with [] []) _ _ _)).
  - cbn. lia.
  - reflexivity.
  - intros [|[|j]] Hj; cbn; [reflexivity|exact I|lia].
Defined.

Lemma backoff_base_pos a : (1 <= backoff_base a)%Z.
Proof. unfold backoff_base. pose proof (Z.pow_pos_nonneg 2 (Z.of_nat a)). lia. Qed.

Lemma backoff_base_succ a : backoff_base (S a) = (2 * backoff_base a)%Z.
Proof. unfold backoff_base. rewrite Nat2Z.inj_succ, Z.pow_succ_r; lia. Qed.

Lemma total_retry_base_app es es' :
  total_retry_base (es ++ es') = (total_retry_base es + total_retry_base es')%Z.
Proof. induction es as [|[|d] r IH]; cbn; lia. Qed.

Lemma count_sleeps_app es es' : count_sleeps (es ++ es') = count_sleeps es + count_sleeps es'.
Proof. induction es as [|[|d] r IH]; cbn; lia. Qed.

Lemma count_gets_app es es' : count_gets (es ++ es') = count_gets es + count_gets es'.
Proof. induction es as [|[|d] r IH]; cbn; lia. Qed.

Lemma fetch_loop_wait R url w :
  forall rem a s, exists new,
    events (fetch_loop R url a rem w s).2 = events s ++ new
    /\ (total_retry_base new <= backoff_base (a + rem) - backoff_base a)%Z
    /\ count_sleeps new <= count_gets new
    /\ draws (fetch_loop R url a rem w s).2 = draws s + count_sleeps new.
Proof.
  induction rem as [|rem IH]; intros a s.
  { exists []. cbn. rewrite app_nil_r, Nat.add_0_r. split_and!; [done|lia|lia|lia]. }
  pose proof (backoff_base_mono a (a + S rem) ltac:(lia)) as Hmono.
  assert (Hstop : exists new,
    events (after_get url a s) = events s ++ new
    /\ (total_retry_base new <= backoff_base (a + S rem) - backoff_base a)%Z
    /\ count_sleeps new <= count_gets new
    /\ draws (after_get url a s) = draws s + count_sleeps new).
  { exists [EvGet url a]. cbn. split_and!; [done|lia|lia|lia]. }
  assert (Hgo : forall d, (retry_base d <= backoff_base a)%Z -> exists new,
    events (fetch_loop R url (S a) rem w (after_get_sleep url a d s)).2 = events s ++ new
    /\ (total_retry_base new <= backoff_base (a + S rem) - backoff_base a)%Z
    /\ count_sleeps new <= count_gets new
    /\ draws (fetch_loop R url (S a) rem w (after_get_sleep url a d s)).2
       = draws s + count_sleeps new).
  { intros d Hd. destruct (IH (S a) (after_get_sleep url a d s)) as (new & He & Ht & Hc & Hdr).
    exists ([EvGet url a; EvSleep d] ++ new).
    rewrite total_retry_base_app, count_sleeps_app, count_gets_app.
    cbn [after_get_sleep events draws] in He, Hdr. cbn.
    pose proof (backoff_base_succ a).
    replace (a + S rem) with (S a + rem) by lia.
    split_and!; [|lia|lia|lia].
    rewrite He. by rewrite <- !app_assoc. }
  fetch_loop_cases R url a rem w s ltac:(exact Hstop)
    ltac:(apply Hgo; cbn; first [lia | apply backoff_base_pos]).
Qed.

(** X2: the deterministic parts of all delays of one [fetch_page] add up to at
    most [2 ** MAX_RETRIES - 1] seconds (7 with the repository's 3 retries);
    every sleep follows a request of its own, and the random generator is
    drawn exactly once per sleep. *)
Theorem fetch_page_wait_bound (cfg : config) (url : pystr) (w : world) :
  (total_retry_base (trace (fetch_page cfg url) w) <= backoff_base (MAX_RETRIES cfg) - 1)%Z
  /\ count_sleeps (trace (fetch_page cfg url) w) <= count_gets (trace (fetch_page cfg url) w)
  /\ draws (fetch_page cfg url w start).2 = count_sleeps (trace (fetch_page cfg url) w)
  /\ (backoff_base (MAX_RETRIES fundamental_config) - 1 = 7)%Z.
Proof.
  destruct (fetch_loop_wait (MAX_RETRIES cfg) url w (MAX_RETRIES cfg) 0 start)
    as (new & He & Ht & Hc & Hd).
  unfold trace, fetch_page. rewrite He. cbn [start events app] in *.
  change (backoff_base 0) with 1%Z in Ht. cbn [Nat.add] in Ht.
  split_and!; [lia|lia|exact Hd|reflexivity].
Qed.

Lemma fetch_loop_all_503 R url w :
  forall rem a s,
    (forall k, k < rem -> exists b, net w url (gets s + k) = Status 503 b) ->
    (fetch_loop R url a rem w s).1 = None
    /\ exists new,
         events (fetch_loop R url a rem w s).2 = events s ++ new
         /\ count_gets new = rem
         /\ count_sleeps new = rem
         /\ backoff_bases new = backoff_base <$> seq a rem.
Proof.
  induction rem as [|rem IH]; intros a s Hall.
  { cbn. split; [done|]. exists []. by rewrite app_nil_r. }
  destruct (Hall 0 ltac:(lia)) as [b Hb]. rewrite Nat.add_0_r in Hb.
  rewrite (fetch_loop_503 _ _ _ _ _ _ _ Hb).
  destruct (IH (S a) (after_get_sleep url a (Backoff503 a (rnd w (draws s))) s))
    as (Hr & new & He & Hg & Hs & Hbs).
  { intros k Hk. cbn [after_get_sleep gets].
    replace (S (gets s) + k) with (gets s + S k) by lia. apply Hall. lia. }
  split; [done|].
  exists ([EvGet url a; EvSleep (Backoff503 a (rnd w (draws s)))] ++ new).
  rewrite count_gets_app, count_sleeps_app, backoff_bases_app.
  cbn [after_get_sleep events] in He. cbn. rewrite Hg, Hs, Hbs.
  split_and!; try done. rewrite He. by rewrite <- !app_assoc.
Qed.

(** X3: when every answer is a 503, [fetch_page] makes exactly [MAX_RETRIES]
    requests and returns [None]; it sleeps after each of them, the last one
    included, with deterministic parts 1, 2, 4, ..., [2 ** (MAX_RETRIES - 1)]. *)
Theorem fetch_page_all_503 (cfg : config) (url : pystr) (w : world) :
  (forall k, k < MAX_RETRIES cfg -> exists b, net w url k = Status 503 b) ->
  run (fetch_page cfg url) w = None
  /\ count_gets (trace (fetch_page cfg url) w) = MAX_RETRIES cfg
  /\ count_sleeps (trace (fetch_page cfg url) w) = MAX_RETRIES cfg
  /\ backoff_bases (trace (fetch_page cfg url) w)
     = backoff_base <$> seq 0 (MAX_RETRIES cfg).
Proof.
  intros Hall.
  destruct (fetch_loop_all_503 (MAX_RETRIES cfg) url w (MAX_RETRIES cfg) 0 start Hall)
    as (Hr & new & He & Hg & Hs & Hb).
  unfold run, trace, fetch_page. rewrite He. cbn [start events app]. done.
Qed.

Lemma fetch_page_all_503_witness :
  run (fetch_page fundamental_config thread_url) unavailable = None
  /\ backoff_bases (trace (fetch_page fundamental_config thread_url) unavailable)
     = [1%Z; 2%Z; 4%Z].
Proof.
  destruct (fetch_page_all_503 fundamental_config thread_url unavailable) as (H1 & _ & _ & H4).
  - intros k _. by eexists.
  - split; [exact H1|]. rewrite H4. reflexivity.
Defined.

End ScheduleFacts.

(** ** The request budget of a thread crawl *)

Section BudgetFacts.
Import Fetcher Schedule Extractor Crawler Samples MoreSamples.
Variable digit_value : char -> option N.
Variable int_max_str_digits : option nat.

Lemma fetch_page_budget (cfg : config) url w s :
  exists new,
    events (fetch_page cfg url w s).2 = events s ++ new
    /\ count_gets new <= MAX_RETRIES cfg
    /\ length (pages_fetched new) <= 1.
Proof.
  destruct (fetch_loop_trace (MAX_RETRIES cfg) url 0 (MAX_RETRIES cfg) w s)
    as [(new & He & Hn & _)].
  destruct (fetch_loop_pages_fetched (MAX_RETRIES cfg) url 0 (MAX_RETRIES cfg) w s)
    as (new' & He' & Hp).
  rewrite He in He'. apply app_inv_head in He'. subst new'.
  exists new. split; [done|]. split; [done|].
  rewrite Hp. case_decide; cbn; lia.
Qed.

Lemma fetch_more_pages_budget (cfg : config) pages posts w s :
  exists new,
    events (fetch_more_pages cfg pages posts w s).2 = events s ++ new
    /\ count_gets new <= MAX_RETRIES cfg * length pages
    /\ length (pages_fetched new) <= length pages
    /\ posts `prefix_of` (fetch_more_pages cfg pages posts w s).1.
Proof.
  revert posts s; induction pages as [|p rest IH]; intros posts s.
  { exists []. cbn. rewrite app_nil_r. split_and!; [done|lia|lia|done]. }
  cbn [fetch_more_pages]. case_bool_decide.
  { exists []. cbn. rewrite app_nil_r. split_and!; [done|lia|lia|done]. }
  rewrite bind_run.
  destruct (fetch_page_budget cfg p w s) as (new1 & He1 & Hg1 & Hp1).
  assert (Hrest : forall posts' s' extra,
    events s' = (events s ++ new1) ++ extra ->
    count_gets extra = 0 -> pages_fetched extra = [] -> posts `prefix_of` posts' ->
    exists new,
      events (fetch_more_pages cfg rest posts' w s').2 = events s ++ new
      /\ count_gets new <= MAX_RETRIES cfg * length (p :: rest)
      /\ length (pages_fetched new) <= length (p :: rest)
      /\ posts `prefix_of` (fetch_more_pages cfg rest posts' w s').1).
  { intros posts' s' extra Hs' Hx Hpx Hpre.
    destruct (IH posts' s') as (new & He & Hg & Hp & Hpo).
    exists (new1 ++ extra ++ new).
    rewrite !count_gets_app, !pages_fetched_app, !length_app, Hx, Hpx. cbn [length].
    split_and!; [|lia|lia|by etrans].
    rewrite He, Hs'. by rewrite <- !app_assoc. }
  destruct (fetch_page cfg p w s) as [[page|] s1]; cbn [fst snd] in *.
  - destruct (html_nonempty page).
    + rewrite bind_run. apply (Hrest _ _ [EvSleep Politeness]); try done.
      * cbn. by rewrite He1.
      * by apply prefix_app_r.
    + apply (Hrest _ _ []); try done. by rewrite app_nil_r.
  - apply (Hrest _ _ []); try done. by rewrite app_nil_r.
Qed.

Lemma pages_to_fetch_length (lim : limits) page url pages :
  Crawler.pages_to_fetch digit_value int_max_str_digits lim page url = Some pages ->
  length pages <= MAX_PAGES_PER_THREAD lim - 1.
Proof.
  unfold Crawler.pages_to_fetch.
  destruct (nav_links page) as [links|]; cbn; [|done].
  destruct (Crawler.collect_valid_pages _ _ links url) as [valid|]; cbn; [|done].
  intros [= <-]. rewrite length_fmap, length_take. lia.
Qed.

Lemma thread_posts_budget (cfg : config) url page w s :
  exists new,
    events (Crawler.thread_posts digit_value int_max_str_digits cfg url page w s).2
    = events s ++ new
    /\ count_gets new <= MAX_RETRIES cfg * (MAX_PAGES_PER_THREAD cfg - 1)
    /\ length (pages_fetched new) <= MAX_PAGES_PER_THREAD cfg - 1
    /\ extract_posts_from_html page
       `prefix_of` (Crawler.thread_posts digit_value int_max_str_digits cfg url page w s).1.
Proof.
  assert (Hnone : exists new,
    events s = events s ++ new
    /\ count_gets new <= MAX_RETRIES cfg * (MAX_PAGES_PER_THREAD cfg - 1)
    /\ length (pages_fetched new) <= MAX_PAGES_PER_THREAD cfg - 1
    /\ extract_posts_from_html page `prefix_of` extract_posts_from_html page).
  { exists []. cbn. rewrite app_nil_r. split_and!; [done|apply Nat.le_0_l|lia|done]. }
  unfold Crawler.thread_posts. destruct (_ && _); [|exact Hnone].
  destruct (Crawler.pages_to_fetch _ _ cfg page url) as [pages|] eqn:Hp; [|exact Hnone].
  apply pages_to_fetch_length in Hp.
  destruct (fetch_more_pages_budget cfg pages (extract_posts_from_html page) w s)
    as (new & He & Hg & Hf & Hpre).
  exists new. split_and!; [done| |lia|done].
  etrans; [exact Hg|]. apply Nat.mul_le_mono_l. exact Hp.
Qed.

(** X4: a crawl of one thread calls [fetch_page] for at most
    [MAX_PAGES_PER_THREAD] pages (one, if that cap is 0) and so sends at most
    [MAX_RETRIES] times as many requests: 5 pages and 15 requests with the
    repository's constants. *)
Theorem process_thread_budget (cfg : config) (t : thread) (w : world) :
  length (pages_fetched
            (trace (Crawler.process_thread digit_value int_max_str_digits cfg t) w))
  <= Nat.max 1 (MAX_PAGES_PER_THREAD cfg)
  /\ count_gets (trace (Crawler.process_thread digit_value int_max_str_digits cfg t) w)
     <= MAX_RETRIES cfg * Nat.max 1 (MAX_PAGES_PER_THREAD cfg)
  /\ MAX_RETRIES fundamental_config
     * Nat.max 1 (MAX_PAGES_PER_THREAD fundamental_config) = 15.
Proof.
  unfold trace. rewrite process_thread_unfold.
  destruct (fetch_page_budget cfg (url t) w start) as (new1 & He1 & Hg1 & Hp1).
  cbn [start events app] in He1.
  assert (Hone : length (pages_fetched new1) <= Nat.max 1 (MAX_PAGES_PER_THREAD cfg)
                 /\ count_gets new1 <= MAX_RETRIES cfg * Nat.max 1 (MAX_PAGES_PER_THREAD cfg)).
  { split; [lia|]. etrans; [exact Hg1|]. nia. }
  split_and!; [| |reflexivity].
  - destruct (fetch_page cfg (url t) w start) as [[page|] s1]; cbn [fst snd] in *;
      [|rewrite He1; apply Hone].
    destruct (html_nonempty page); cbn [snd]; [|rewrite He1; apply Hone].
    destruct (thread_posts_budget cfg (url t) page w s1) as (new & He & Hg & Hf & _).
    rewrite He, He1, pages_fetched_app, length_app. lia.
  - destruct (fetch_page cfg (url t) w start) as [[page|] s1]; cbn [fst snd] in *;
      [|rewrite He1; apply Hone].
    destruct (html_nonempty page); cbn [snd]; [|rewrite He1; apply Hone].
    destruct (thread_posts_budget cfg (url t) page w s1) as (new & He & Hg & Hf & _).
    rewrite He, He1, count_gets_app. nia.
Qed.

(** X5: the posts of the first page are never dropped or reordered by the
    pagination: whatever the further pages bring, the accumulated list
    starts with the posts extracted from the first page. *)
Theorem thread_posts_keep_first_page (cfg : config) (url : pystr) (page : html)
    (w : world) (s : task_state) :
  extract_posts_from_html page
  `prefix_of` (Crawler.thread_posts digit_value int_max_str_digits cfg url page w s).1.
Proof. destruct (thread_posts_budget cfg url page w s) as (new & _ & _ & _ & H). exact H. Qed.

End BudgetFacts.

(** ** More on pagination links *)

Section LinkFacts.
Import Fetcher Extractor Crawler Samples MoreSamples.
Variable digit_value : char -> option N.
Variable int_max_str_digits : option nat.

(** X6: the additional pages never include the thread's own URL or an empty
    link: every selected page is a non-empty pagination link of the first
    page, different from the URL already fetched, in which the page pattern
    is found. *)
Theorem pages_to_fetch_exclude_first_page (lim : limits) (page : html)
    (url : pystr) (pages : list pystr) :
  Crawler.pages_to_fetch digit_value int_max_str_digits lim page url = Some pages ->
  forall p, p ∈ pages ->
    p <> url /\ p <> []
    /\ (exists links, nav_links page = Some links /\ p ∈ links)
    /\ is_Some (Crawler.search_page digit_value p).
Proof.
  unfold Crawler.pages_to_fetch.
  destruct (nav_links page) as [links|]; cbn; [|done].
  destruct (Crawler.collect_valid_pages _ _ links url) as [valid|] eqn:Hv; cbn; [|done].
  intros [= <-] p Hp.
  apply list_elem_of_fmap in Hp as (x & -> & Hx).
  apply subseteq_take in Hx. rewrite sort_pages_perm in Hx.
  assert (Hin : x.2 ∈ valid.*2) by (by apply list_elem_of_fmap_2).
  rewrite (collect_valid_pages_complete _ _ _ _ _ Hv) in Hin.
  apply list_elem_of_filter in Hin as ((Hne & Hu & Hs) & Hl).
  split_and!; try done. by exists links.
Qed.

Lemma starts_with_app p l : starts_with p l = true -> exists post, l = p ++ post.
Proof.
  revert l; induction p as [|a p IH]; intros l; cbn; [by exists l|].
  destruct l as [|b l]; [done|].
  intros [Hab Hp]%andb_true_iff. apply N.eqb_eq in Hab as ->.
  destruct (IH l Hp) as [post ->]. by exists post.
Qed.

Lemma starts_with_app_r p post : starts_with p (p ++ post) = true.
Proof. induction p as [|a p IH]; cbn; [done|]. by rewrite N.eqb_refl, IH. Qed.

Abbreviation digits_read := (Schedule.digits_read digit_value).

Lemma span_digits_decompose l :
  exists digits,
    l = digits ++ (Crawler.span_digits digit_value l).2
    /\ digits_read digits (Crawler.span_digits digit_value l).1.
Proof.
  induction l as [|c r IH]; cbn [Crawler.span_digits].
  { exists []. cbn. split; [done|constructor]. }
  destruct (digit_value c) as [d|] eqn:Hc.
  - destruct IH as (digits & Hl & Hd).
    destruct (Crawler.span_digits digit_value r) as [ds rest]. cbn [fst snd] in *.
    exists (c :: digits). split; [by rewrite Hl at 1|]. by constructor.
  - exists []. cbn. split; [done|constructor].
Qed.

Lemma span_digits_run digits ds rest :
  digits_read digits ds ->
  match rest with [] => True | c :: _ => digit_value c = None end ->
  Crawler.span_digits digit_value (digits ++ rest) = (ds, rest).
Proof.
  intros Hd Hrest. induction Hd as [|c d digits ds Hc Hd IH]; cbn [app Crawler.span_digits].
  - destruct rest as [|c r]; [done|]. cbn. by rewrite Hrest.
  - by rewrite Hc, IH.
Qed.

(** X7: what [re.search(r',(\d+)\.html', link)] finds: a match exists only in a
    link that has a comma, at least one digit and then ".html", and group 1
    holds those digits; conversely such a link, with no comma before that
    place, is matched there (a dot is not a digit). *)
Theorem search_page_matches (link : pystr) :
  (forall ds, Crawler.search_page digit_value link = Some ds ->
     ds <> []
     /\ exists pre digits post,
          link = pre ++ [44%N] ++ digits ++ py ".html" ++ post
          /\ digits_read digits ds)
  /\ (forall pre digits post ds,
        link = pre ++ [44%N] ++ digits ++ py ".html" ++ post ->
        44%N ∉ pre -> digits_read digits ds -> ds <> [] ->
        digit_value 46%N = None ->
        Crawler.search_page digit_value link = Some ds).
Proof.
  split.
  - induction link as [|c r IH]; intros ds; cbn [Crawler.search_page]; [done|].
    assert (Hrec : Crawler.search_page digit_value r = Some ds ->
      ds <> [] /\ exists pre digits post,
        c :: r = pre ++ [44%N] ++ digits ++ py ".html" ++ post /\ digits_read digits ds).
    { intros H. destruct (IH ds H) as (Hne & pre & digits & post & -> & Hd).
      split; [done|]. by exists (c :: pre), digits, post. }
    destruct (N.eqb_spec c 44) as [->|]; [|exact Hrec].
    destruct (span_digits_decompose r) as (digits & Hr & Hd).
    destruct (Crawler.span_digits digit_value r) as [ds' rest]. cbn [fst snd] in *.
    destruct (negb (bool_decide (ds' = [])) && starts_with (py ".html") rest) eqn:Hm;
      [|exact Hrec].
    apply andb_true_iff in Hm as [Hne Hsw]. intros [= <-].
    apply negb_true_iff, bool_decide_eq_false_1 in Hne.
    destruct (starts_with_app _ _ Hsw) as [post ->].
    split; [done|]. exists [], digits, post. by rewrite Hr at 1.
  - intros pre digits post ds -> Hpre Hd Hne Hdot.
    induction pre as [|c pre IH]; cbn [app Crawler.search_page].
    + rewrite N.eqb_refl. rewrite (span_digits_run digits ds (py ".html" ++ post) Hd Hdot).
      rewrite bool_decide_eq_false_2 by done. cbn [negb andb].
      by rewrite starts_with_app_r.
    + apply not_elem_of_cons in Hpre as [Hc Hpre].
      destruct (N.eqb_spec c 44) as [->|]; [done|]. by apply IH.
Qed.

End LinkFacts.

Section LinkEvaluations.
Import Fetcher Crawler Samples.

Lemma pages_to_fetch_exclude_first_page_witness :
  page2_url <> thread_url /\ page3_url <> thread_url.
Proof.
  assert (Hp : Crawler.pages_to_fetch ascii_digit_value (Some 4300) three_pages_config
                 paged_page thread_url = Some [page2_url; page3_url])
    by (vm_compute; reflexivity).
  pose proof (pages_to_fetch_exclude_first_page ascii_digit_value (Some 4300)
                three_pages_config paged_page thread_url _ Hp) as H.
  split.
  - apply (H page2_url). apply elem_of_cons. by left.
  - apply (H page3_url). apply elem_of_cons. right. apply elem_of_cons. by left.
Defined.


Lemma search_page_matches_witness :
  Crawler.search_page ascii_digit_value (py "temat_wyniki_2,3.html") = Some [3%N].
Proof.
  apply (proj2 (search_page_matches ascii_digit_value (py "temat_wyniki_2,3.html"))
           (py "temat_wyniki_2") (py "3") []).
  - reflexivity.
  - apply (bool_decide_unpack _). vm_compute. exact I.
  - repeat constructor.
  - discriminate.
  - reflexivity.
Defined.

End LinkEvaluations.

(** ** More on the browser crawler *)

Section BrowserPagesFacts.
Import Fetcher Extractor Browser Samples MoreSamples.

Lemma uniq_candidates_acc (candidates acc : list pystr) :
  NoDup acc ->
  let r := fold_left (fun uniq u =>
             if bool_decide (u <> []) && bool_decide (u ∉ uniq)
             then uniq ++ [u] else uniq) candidates acc in
  NoDup r /\ forall u, u ∈ r ↔ u ∈ acc \/ (u ∈ candidates /\ u <> []).
Proof.
  revert acc; induction candidates as [|c rest IH]; intros acc Hnd; cbn [fold_left].
  { split; [done|]. intros u. rewrite elem_of_nil. tauto. }
  destruct (decide (c <> [])) as [Hc|Hc].
  - rewrite (bool_decide_eq_true_2 _ Hc). cbn [andb].
    destruct (decide (c ∉ acc)) as [Hin|Hin].
    + rewrite (bool_decide_eq_true_2 _ Hin).
      destruct (IH (acc ++ [c])) as [Hn He].
      { apply NoDup_app. split_and!; [done| |apply NoDup_singleton].
        intros x Hx ->%list_elem_of_singleton. done. }
      split; [done|]. intros u. rewrite He, elem_of_app, list_elem_of_singleton, elem_of_cons.
      split; [|tauto]. intros [[H1|H1]|[H1 H2]]; subst; tauto.
    + rewrite (bool_decide_eq_false_2 _ Hin).
      destruct (IH acc Hnd) as [Hn He]. split; [done|].
      intros u. rewrite He, elem_of_cons. apply dec_stable in Hin.
      split; [tauto|]. intros [H1|[[H1|H1] H2]]; subst; tauto.
  - rewrite (bool_decide_eq_false_2 _ Hc). cbn [andb].
    destruct (IH acc Hnd) as [Hn He]. split; [done|].
    intros u. rewrite He, elem_of_cons. apply dec_stable in Hc.
    split; [tauto|]. intros [H1|[[H1|H1] H2]]; subst; tauto.
Qed.

Lemma uniq_candidates_spec (candidates : list pystr) :
  NoDup (uniq_candidates candidates)
  /\ forall u, u ∈ uniq_candidates candidates ↔ u ∈ candidates /\ u <> [].
Proof.
  destruct (uniq_candidates_acc candidates [] (NoDup_nil_2)) as [Hn He].
  split; [exact Hn|]. intros u. unfold uniq_candidates. rewrite He, elem_of_nil. tauto.
Qed.

Lemma select_pages_spec max_pages (uniq selected : list pystr) :
  NoDup selected ->
  let r := select_pages max_pages uniq selected in
  NoDup r
  /\ selected `prefix_of` r
  /\ forall u, u ∈ r -> u ∈ selected \/ u ∈ uniq.
Proof.
  revert selected; induction uniq as [|c rest IH]; intros selected Hnd; cbn [select_pages].
  { split_and!; [done|done|tauto]. }
  case_bool_decide.
  { split_and!; [done|done|tauto]. }
  destruct (decide (c ∉ selected)) as [Hin|Hin].
  - rewrite (bool_decide_eq_true_2 _ Hin).
    destruct (IH (selected ++ [c])) as (Hn & Hp & He).
    { apply NoDup_app. split_and!; [done| |apply NoDup_singleton].
      intros x Hx ->%list_elem_of_singleton. done. }
    split_and!; [done| |].
    + etrans; [|exact Hp]. by apply prefix_app_r.
    + intros u Hu. destruct (He u Hu) as [Hs|Hr].
      * apply elem_of_app in Hs as [Hs|Hs]; [by left|].
        apply list_elem_of_singleton in Hs as ->.
        right. apply elem_of_cons. by left.
      * right. apply elem_of_cons. by right.
  - rewrite (bool_decide_eq_false_2 _ Hin).
    destruct (IH selected Hnd) as (Hn & Hp & He).
    split_and!; [done|done|]. intros u Hu. destruct (He u Hu); [by left|].
    right. apply elem_of_cons. by right.
Qed.

Lemma NoDup_take {A} (l : list A) n : NoDup l -> NoDup (take n l).
Proof. intros H. eapply sublist_NoDup; [exact H|apply sublist_take]. Qed.

(** X8: the pages the browser crawler visits for a thread: the current page
    comes first, the pages are pairwise distinct and at most [max_pages]
    (one, if [max_pages] is below 1), and every further page is a non-empty
    pagination candidate other than the current URL.  When at least two
    pages are allowed and the last candidate differs from the current URL,
    that last candidate is visited second. *)
Theorem representative_pages_selection (thread_soup : html) (current_url : pystr)
    (max_pages : nat) :
  let pages := extract_representative_thread_pages thread_soup current_url max_pages in
  (exists rest, pages = current_url :: rest
      /\ forall u, u ∈ rest ->
           u ∈ page_candidates thread_soup /\ u <> [] /\ u <> current_url)
  /\ NoDup pages
  /\ length pages <= Nat.max 1 max_pages
  /\ (forall last_page,
        2 <= max_pages ->
        last (uniq_candidates (page_candidates thread_soup)) = Some last_page ->
        last_page <> current_url ->
        pages !! 1 = Some last_page).
Proof.
  intros pages. unfold pages, extract_representative_thread_pages.
  case_bool_decide as Hmax.
  { split_and!.
    - exists []. split; [done|]. by intros u ?%elem_of_nil.
    - apply NoDup_singleton.
    - cbn. lia.
    - intros; lia. }
  destruct (uniq_candidates_spec (page_candidates thread_soup)) as [Hun Hue].
  set (uniq := uniq_candidates (page_candidates thread_soup)) in *.
  destruct uniq as [|u0 urest] eqn:Huniq.
  { split_and!.
    - exists []. split; [done|]. by intros u ?%elem_of_nil.
    - apply NoDup_singleton.
    - cbn. lia.
    - intros; done. }
  set (lastp := List.last (u0 :: urest) []).
  assert (Hlast_in : lastp ∈ u0 :: urest).
  { apply list_elem_of_In. unfold lastp.
    destruct (exists_last (l := u0 :: urest) ltac:(done)) as (l' & x & ->).
    rewrite List.last_last. apply in_or_app. right. by left. }
  set (selected := if bool_decide (lastp ∉ [current_url])
                   then [current_url] ++ [lastp] else [current_url]).
  assert (Hsel_nd : NoDup selected).
  { unfold selected. case_bool_decide as Hl; [|apply NoDup_singleton].
    apply NoDup_cons. split; [|apply NoDup_singleton].
    intros Hc. apply Hl. apply list_elem_of_singleton in Hc. subst.
    apply list_elem_of_singleton. done. }
  assert (Hsel_head : exists tl, selected = current_url :: tl
            /\ forall u, u ∈ tl -> u = lastp /\ lastp <> current_url).
  { unfold selected. case_bool_decide as Hl.
    - exists [lastp]. split; [done|]. intros u ->%list_elem_of_singleton.
      split; [done|]. intros Heq. apply Hl. rewrite Heq. by apply list_elem_of_singleton.
    - exists []. split; [done|]. by intros u ?%elem_of_nil. }
  destruct (select_pages_spec max_pages (u0 :: urest) selected Hsel_nd) as (Hn & Hp & He).
  set (r := select_pages max_pages (u0 :: urest) selected) in *.
  destruct Hsel_head as (tl & Hsel & Htl).
  destruct Hp as [ext Hr].
  split_and!.
  - exists (take (pred max_pages) (tl ++ ext)). split.
    + rewrite Hr, Hsel. destruct max_pages as [|m]; [lia|]. reflexivity.
    + intros u Hu. apply subseteq_take in Hu.
      assert (Hur : u ∈ r) by (rewrite Hr, Hsel; apply elem_of_cons; by right).
      assert (Hne : u <> current_url).
      { intros ->. rewrite Hr, Hsel in Hn. apply NoDup_cons in Hn as [Hn _]. done. }
      destruct (He u Hur) as [Hs|Hu'].
      * rewrite Hsel in Hs. apply elem_of_cons in Hs as [->|Hs]; [done|].
        destruct (Htl u Hs) as [-> _].
        apply Hue in Hlast_in as [? ?]. done.
      * apply Hue in Hu' as [? ?]. done.
  - by apply NoDup_take.
  - rewrite length_take. lia.
  - intros last_page Hm Hlast Hneq.
    assert (Hlp : lastp = last_page).
    { unfold lastp. apply last_Some in Hlast as [l' ->]. apply List.last_last. }
    assert (Hsel2 : selected = [current_url; last_page]).
    { unfold selected. rewrite bool_decide_eq_true_2; [by rewrite Hlp|].
      rewrite Hlp. by intros ->%list_elem_of_singleton. }
    rewrite Hr, Hsel2. destruct max_pages as [|[|m]]; [lia|lia|]. reflexivity.
Qed.

End BrowserPagesFacts.

Section BrowserPostsFacts.
Import Fetcher Extractor Browser Samples MoreSamples.

Lemma add_posts_NoDup max_posts (txts posts : list pystr) :
  NoDup posts -> NoDup (add_posts max_posts txts posts).1.
Proof.
  revert posts; induction txts as [|txt rest IH]; intros posts Hnd; cbn [add_posts]; [done|].
  set (posts' := if bool_decide (txt ∈ posts) then posts else posts ++ [txt]).
  assert (Hnd' : NoDup posts').
  { unfold posts'. case_bool_decide as Hin; [done|].
    apply NoDup_app. split_and!; [done| |apply NoDup_singleton].
    intros x Hx Hx'. apply list_elem_of_singleton in Hx'. by subst. }
  case_bool_decide; [done|]. by apply IH.
Qed.

Lemma scrape_pages_NoDup lim d thread_url page_urls soup n (posts : list pystr) :
  NoDup posts -> NoDup (scrape_pages lim d thread_url page_urls soup n posts).1.
Proof.
  revert soup n posts; induction page_urls as [|page_url rest IH];
    intros soup n posts Hnd; cbn [scrape_pages]; [done|].
  destruct (if bool_decide (page_url <> thread_url) then (d n page_url, S n)
            else (Some soup, n)) as [[soup'|] n']; [|done].
  pose proof (add_posts_NoDup (MAX_POSTS_PER_THREAD lim)
                (extract_post_texts_from_thread_soup soup') posts Hnd) as Hnd'.
  destruct (add_posts (MAX_POSTS_PER_THREAD lim)
              (extract_post_texts_from_thread_soup soup') posts) as [posts' returned].
  cbn [fst] in *. destruct returned; [done|]. by apply IH.
Qed.

(** X9: the posts the browser crawler collects for a thread are pairwise
    distinct, across pages too, and with a positive cap they are never more
    than [MAX_POSTS_PER_THREAD]. *)
Theorem scrape_thread_posts_distinct_capped (lim : limits) (d : driver) (n : nat)
    (thread_url : pystr) :
  0 < MAX_POSTS_PER_THREAD lim ->
  NoDup (scrape_thread_posts lim d n thread_url).1
  /\ length (scrape_thread_posts lim d n thread_url).1 <= MAX_POSTS_PER_THREAD lim.
Proof.
  intros Hpos. unfold scrape_thread_posts.
  destruct thread_url as [|c u]; [cbn; split; [constructor|lia]|].
  destruct (d n (c :: u)) as [soup|]; [|cbn; split; [constructor|lia]].
  split.
  - apply scrape_pages_NoDup. constructor.
  - apply scrape_pages_bound. cbn. lia.
Qed.

Lemma rstrip_snoc_space l c : is_space c = true -> rstrip (l ++ [c]) = rstrip l.
Proof.
  intros Hc. induction l as [|a r IH]; cbn [app].
  - cbn. by rewrite Hc.
  - rewrite !rstrip_cons, IH. done.
Qed.

Lemma strip_snoc_space l c : is_space c = true -> strip (l ++ [c]) = strip l.
Proof.
  intros Hc. unfold strip. induction l as [|a r IH]; cbn [app lstrip].
  - by rewrite Hc.
  - destruct (is_space a); [exact IH|].
    change (a :: r ++ [c]) with ((a :: r) ++ [c]). by apply rstrip_snoc_space.
Qed.

(** X10: when a thread has no URL or its page cannot be loaded, the browser
    pipeline scores the thread's title, stripped of surrounding whitespace
    and cut to [MAX_THREAD_TEXT_CHARS]; in every case the text it scores is
    within that cap. *)
Theorem thread_text_degraded (lim : limits) (d : driver) (n : nat)
    (tytul thread_url : pystr) :
  (thread_url = [] \/ d n thread_url = None ->
     (thread_text lim d n tytul thread_url).1
     = take (MAX_THREAD_TEXT_CHARS lim) (strip tytul))
  /\ length (thread_text lim d n tytul thread_url).1 <= MAX_THREAD_TEXT_CHARS lim.
Proof.
  split; [|apply thread_text_capped].
  intros Hdeg. rewrite thread_text_cut.
  assert (Hposts : (scrape_thread_posts lim d n thread_url).1 = []).
  { unfold scrape_thread_posts. destruct thread_url as [|c u]; [done|].
    destruct Hdeg as [Hdeg|Hdeg]; [done|]. by rewrite Hdeg. }
  rewrite Hposts. cbn [join]. rewrite app_nil_r.
  change (py " ") with [32%N].
  f_equal. by apply strip_snoc_space.
Qed.

End BrowserPostsFacts.

Section BrowserEvaluations.
Import Fetcher Extractor Browser Samples MoreSamples.

Lemma representative_pages_selection_witness :
  extract_representative_thread_pages paged_page thread_url 2 !! 1 = Some page3_url.
Proof.
  assert (H2 : last (uniq_candidates (page_candidates paged_page)) = Some page3_url)
    by (vm_compute; reflexivity).
  assert (H3 : page3_url <> thread_url)
    by (apply (bool_decide_unpack _); vm_compute; exact I).
  destruct (representative_pages_selection paged_page thread_url 2) as (_ & _ & _ & H).
  exact (H page3_url (le_n 2) H2 H3).
Defined.

Lemma scrape_thread_posts_distinct_capped_witness :
  length (scrape_thread_posts sentiment_limits static_driver 0 thread_url).1 <= 40.
Proof.
  apply (scrape_thread_posts_distinct_capped sentiment_limits static_driver 0 thread_url).
  cbn. lia.
Defined.

Lemma thread_text_degraded_witness :
  (thread_text sentiment_limits dead_driver 0 (py "  Wyniki kwartalne ") thread_url).1
  = py "Wyniki kwartalne".
Proof.
  rewrite (proj1 (thread_text_degraded sentiment_limits dead_driver 0
                    (py "  Wyniki kwartalne ") thread_url)).
  - vm_compute. reflexivity.
  - right. reflexivity.
Defined.

End BrowserEvaluations.

(** ** Row filter, outcomes of a company task and the printed summary *)

Section RowFacts.
Import Fetcher Extractor Crawler Fundamental Company Report Samples MoreSamples.



End RowFacts.

Section OutcomeFacts.
Import Fetcher Extractor Crawler Fundamental Company Report Samples MoreSamples.



End OutcomeFacts.

(** ** Highlights and keyword counts of the fundamental scorer *)

Section KeywordFacts.
Import Sentiment Fundamental Report Samples MoreSamples.
Local Open Scope Z_scope.

Lemma present_count_cons k r text :
  present_count (k :: r) text
  = (if contains k text then 1 else 0) + present_count r text.
Proof. by rewrite <- !sum_present_count. Qed.

Lemma present_count_range keywords text :
  0 <= present_count keywords text <= Z.of_nat (length keywords).
Proof.
  induction keywords as [|k r IH]; [by cbn|].
  rewrite present_count_cons. cbn [length]. destruct (contains k text); lia.
Qed.

Lemma count_keywords_highlights sign name keywords text score (hl : list pystr) :
  let r := count_keywords sign name keywords text score hl in
  ((length hl <= 3)%nat -> (length r.2 <= 3)%nat)
  /\ (forall h, h ∈ r.2 ->
        h ∈ hl \/ exists kw, kw ∈ keywords /\ contains kw text = true
                             /\ h = sign ++ name ++ py ": " ++ kw)
  /\ (r.2 = [] ↔ hl = [] /\ present_count keywords text = 0).
Proof.
  revert score hl; induction keywords as [|k rest IH]; intros score hl; cbn [count_keywords].
  { cbn. split_and!; [done|tauto|]. unfold present_count. cbn. tauto. }
  rewrite present_count_cons. pose proof (present_count_range rest text) as Hrange.
  destruct (contains k text) eqn:Hk.
  - set (hl' := if (length hl <? 3)%nat
                then hl ++ [sign ++ name ++ py ": " ++ k] else hl).
    destruct (IH (score + 1) hl') as (Hlen & Hin & Hnil).
    assert (Hhl' : hl' <> []).
    { unfold hl'. destruct hl as [|h0 hl0]; [done|]. by destruct (_ <? _)%nat. }
    split_and!.
    + intros Hl. apply Hlen. unfold hl'.
      destruct (Nat.ltb_spec (length hl) 3); [|done]. rewrite length_app. cbn. lia.
    + intros h Hh. destruct (Hin h Hh) as [Hh'|(kw & Hkw & Hc & ->)].
      * unfold hl' in Hh'. destruct (_ <? _)%nat; [|by left].
        apply elem_of_app in Hh' as [Hh'|Hh']; [by left|].
        apply list_elem_of_singleton in Hh' as ->.
        right. exists k. split; [apply elem_of_cons; by left|done].
      * right. exists kw. split; [apply elem_of_cons; by right|done].
    + rewrite Hnil. split; [tauto|]. intros [_ H0]. lia.
  - destruct (IH score hl) as (Hlen & Hin & Hnil).
    split_and!; [done| |].
    + intros h Hh. destruct (Hin h Hh) as [?|(kw & Hkw & Hc & ->)]; [by left|].
      right. exists kw. split; [apply elem_of_cons; by right|done].
    + rewrite Hnil. split; intros [? ?]; (split; [done|lia]).
Qed.

Lemma score_categories_highlights cats text acc (hl : list pystr) :
  let r := score_categories cats text acc hl in
  ((length hl <= 3)%nat -> (length r.2 <= 3)%nat)
  /\ (forall h, h ∈ r.2 -> h ∈ hl \/ highlight_of cats text h)
  /\ (r.2 = [] ↔
        hl = [] /\ forall name c, (name, c) ∈ cats ->
          present_count (positive_keywords c) text = 0
          /\ present_count (negative_keywords c) text = 0).
Proof.
  revert acc hl; induction cats as [|[name c] rest IH]; intros acc hl.
  { cbn. split_and!; [done|tauto|]. split; [|tauto].
    intros ->. split; [done|]. by intros n0 c0 ?%elem_of_nil. }
  cbn [score_categories].
  pose proof (count_keywords_highlights (py "+") name (positive_keywords c) text 0 hl)
    as (Hl1 & Hi1 & Hn1).
  destruct (count_keywords (py "+") name (positive_keywords c) text 0 hl) as [p h1].
  pose proof (count_keywords_highlights (py "-") name (negative_keywords c) text 0 h1)
    as (Hl2 & Hi2 & Hn2).
  destruct (count_keywords (py "-") name (negative_keywords c) text 0 h1) as [n h2].
  cbn [snd] in *.
  match goal with |- context [score_categories rest text ?a h2] =>
    destruct (IH a h2) as (Hl3 & Hi3 & Hn3) end.
  assert (Hhere : (name, c) ∈ (name, c) :: rest) by (apply elem_of_cons; by left).
  split_and!.
  - auto.
  - intros h Hh. destruct (Hi3 h Hh) as [Hh2|(n0 & c0 & kw & Hc0 & Hrest)].
    + destruct (Hi2 h Hh2) as [Hh1|(kw & Hkw & Hc & ->)].
      * destruct (Hi1 h Hh1) as [?|(kw & Hkw & Hc & ->)]; [by left|].
        right. exists name, c, kw. split_and!; [done|done|]. left. done.
      * right. exists name, c, kw. split_and!; [done|done|]. right. done.
    + right. exists n0, c0, kw. split; [apply elem_of_cons; by right|done].
  - rewrite Hn3, Hn2, Hn1. split.
    + intros [[[-> Hp] Hn] Hall]. split; [done|].
      intros n0 c0 [[= -> ->]|Hin]%elem_of_cons; [done|by apply (Hall n0)].
    + intros [-> Hall]. destruct (Hall name c Hhere) as [Hp Hn].
      split; [done|]. intros n0 c0 Hin. apply (Hall n0). apply elem_of_cons. by right.
Qed.

(** X13: the scorer records at most three highlights, each naming, with its
    sign and category, a keyword that occurs in the lowercased text; and for
    a non-empty text there is no highlight exactly when no keyword of any
    category occurs in it. *)
Theorem analyze_fundamentals_highlights (float_sum : summation) (lower : pystr -> pystr)
    (cats : list (pystr * category)) (text : pystr) :
  let r := analyze_fundamentals float_sum lower cats text in
  (length (highlights r) <= 3)%nat
  /\ (forall h, h ∈ highlights r -> highlight_of cats (lower text) h)
  /\ (text <> [] ->
      (highlights r = [] ↔
         forall name c, (name, c) ∈ cats ->
           present_count (positive_keywords c) (lower text) = 0
           /\ present_count (negative_keywords c) (lower text) = 0)).
Proof.
  intros r. unfold r, analyze_fundamentals.
  destruct text as [|c0 t0].
  { cbn. split_and!; [lia| |done]. by intros h ?%elem_of_nil. }
  pose proof (score_categories_highlights cats (lower (c0 :: t0)) [] []) as (Hl & Hi & Hn).
  destruct (score_categories cats (lower (c0 :: t0)) [] []) as [scores hl].
  cbn [snd highlights] in *. split_and!.
  - apply Hl. cbn. lia.
  - intros h Hh. destruct (Hi h Hh) as [?%elem_of_nil|?]; done.
  - intros _. rewrite Hn. tauto.
Qed.

(** X14: for a non-empty text every category of the table gets one entry, and
    in it the hit counts are between 0 and the lengths of the category's
    keyword lists, so the net score lies between minus the number of
    negative keywords and the number of positive keywords; a category
    without positive keywords, as RISKS in the repository's table, never
    has a positive net score. *)
Theorem category_counts_bounded (float_sum : summation) (lower : pystr -> pystr)
    (cats : list (pystr * category)) (text : pystr) (name : pystr) (cs : category_score) :
  NoDup cats.*1 -> text <> [] ->
  (name, cs) ∈ categories (analyze_fundamentals float_sum lower cats text) ->
  (exists c, (name, c) ∈ cats
     /\ 0 <= positive_count cs <= Z.of_nat (length (positive_keywords c))
     /\ 0 <= negative_count cs <= Z.of_nat (length (negative_keywords c))
     /\ - Z.of_nat (length (negative_keywords c)) <= net_score cs
        <= Z.of_nat (length (positive_keywords c))
     /\ (positive_keywords c = [] -> net_score cs <= 0))
  /\ (exists c, (py "RISKS", c) ∈ FUNDAMENTAL_CATEGORIES /\ positive_keywords c = []).
Proof.
  intros Hnd Ht Hin. split.
  - unfold analyze_fundamentals in Hin. destruct text as [|c0 t0]; [done|].
    pose proof (score_categories_scores cats (lower (c0 :: t0)) [] [] Hnd) as Hs.
    destruct (score_categories cats (lower (c0 :: t0)) [] []) as [scores hl].
    cbn in Hs, Hin. subst scores. unfold formula_scores in Hin.
    apply list_elem_of_fmap in Hin as ([n0 c] & [= -> ->] & Hc).
    exists c. split; [done|]. unfold category_formula. cbn.
    pose proof (present_count_range (positive_keywords c) (lower (c0 :: t0))) as Hp.
    pose proof (present_count_range (negative_keywords c) (lower (c0 :: t0))) as Hn.
    split_and!; try lia. intros Hnil. rewrite Hnil in Hp |- *.
    change (present_count [] (lower (c0 :: t0))) with 0 in Hp |- *. lia.
  - eexists. split.
    + unfold FUNDAMENTAL_CATEGORIES. do 5 (apply elem_of_cons; right).
      apply elem_of_cons. left. reflexivity.
    + reflexivity.
Qed.

Lemma starts_with_elem p l c : starts_with p l = true -> c ∈ p -> c ∈ l.
Proof.
  intros (post & ->)%starts_with_app Hc. apply elem_of_app. by left.
Qed.

Lemma contains_elem needle hay c : contains needle hay = true -> c ∈ needle -> c ∈ hay.
Proof.
  induction hay as [|a r IH]; cbn [contains].
  - rewrite orb_false_r. apply starts_with_elem.
  - intros [H|H]%orb_true_iff Hc; [by eapply starts_with_elem|].
    apply elem_of_cons. right. by apply IH.
Qed.

(** X15: keywords are searched in the lowercased text, so a keyword spelled with
    a capital letter A-Z can never be counted: with a [lower] whose results
    have no such letter it occurs in no lowercased text.  The repository's
    table has exactly one such keyword, "wzrost EBITDA" of EARNINGS. *)
Theorem capitalised_keyword_never_matches (lower : pystr -> pystr) (text keyword : pystr) :
  (forall c, c ∈ lower text -> is_ascii_upper c = false) ->
  has_ascii_upper keyword = true ->
  contains keyword (lower text) = false
  /\ filter (fun kw => has_ascii_upper kw = true) (all_keywords FUNDAMENTAL_CATEGORIES)
     = [py "wzrost EBITDA"].
Proof.
  intros Hlow Hhas. apply existsb_exists in Hhas as (c & Hc%list_elem_of_In & Hup). split.
  - destruct (contains keyword (lower text)) eqn:Hcont; [|done].
    pose proof (contains_elem _ _ c Hcont Hc) as Hin.
    rewrite (Hlow c Hin) in Hup. done.
  - vm_compute. reflexivity.
Qed.

End KeywordFacts.

Section KeywordEvaluations.
Import Sentiment Fundamental Report Samples MoreSamples.

Lemma category_counts_bounded_witness :
  exists c, (py "RISKS", c) ∈ FUNDAMENTAL_CATEGORIES
    /\ (0 <= 2 <= Z.of_nat (length (negative_keywords c)))%Z.
Proof.
  assert (Hnd : NoDup FUNDAMENTAL_CATEGORIES.*1)
    by (apply (bool_decide_unpack _); vm_compute; exact I).
  assert (Ht : py "problem i kryzys" <> [])
    by (apply (bool_decide_unpack _); vm_compute; exact I).
  assert (Hin : exists cs,
      (py "RISKS", cs) ∈ categories (analyze_fundamentals CompensatedSum ascii_lower FUNDAMENTAL_CATEGORIES
                                       (py "problem i kryzys"))
      /\ negative_count cs = 2%Z).
  { eexists. split.
    - vm_compute. do 5 (apply elem_of_cons; right). apply elem_of_cons. left. reflexivity.
    - reflexivity. }
  destruct Hin as (cs & Hin & Hcount).
  destruct (category_counts_bounded CompensatedSum ascii_lower FUNDAMENTAL_CATEGORIES
              (py "problem i kryzys") (py "RISKS") cs Hnd Ht Hin)
    as [(c & Hc & _ & Hn & _) _].
  exists c. split; [exact Hc|]. by rewrite <- Hcount.
Defined.

Lemma capitalised_keyword_never_matches_witness :
  contains (py "wzrost EBITDA") (ascii_lower (py "Rekordowy wzrost EBITDA w kwartale"))
  = false.
Proof.
  apply (capitalised_keyword_never_matches ascii_lower
           (py "Rekordowy wzrost EBITDA w kwartale") (py "wzrost EBITDA")).
  - apply Forall_forall. apply (bool_decide_unpack _). vm_compute. exact I.
  - vm_compute. reflexivity.
Defined.

End KeywordEvaluations.

(* ===================================================================== *)
(** ** Keywords inside keywords
       ([analyze_fundamentals], [analyze_sentiment]) *)
(* ===================================================================== *)

Section OverlapFacts.
Import Sentiment Overlap.
Local Open Scope Z_scope.

Lemma contains_app needle hay :
  contains needle hay = true <-> exists pre post, hay = pre ++ needle ++ post.
Proof.
  split.
  - induction hay as [|a r IH]; cbn [contains].
    + rewrite orb_false_r. intros (post & ->)%starts_with_app. by exists [], post.
    + intros [H|H]%orb_true_iff.
      * apply starts_with_app in H as (post & ->). by exists [], post.
      * destruct (IH H) as (pre & post & ->). by exists (a :: pre), post.
  - intros (pre & post & ->). induction pre as [|a pre IH].
    + cbn [app]. destruct (needle ++ post) eqn:E; cbn [contains];
        rewrite <- E, starts_with_app_r; done.
    + cbn [app contains]. rewrite IH. apply orb_true_r.
Qed.

Lemma contains_trans a b t :
  contains a b = true -> contains b t = true -> contains a t = true.
Proof.
  intros (p1 & q1 & ->)%contains_app (p2 & q2 & ->)%contains_app.
  apply contains_app. exists (p2 ++ p1), (q1 ++ q2). by rewrite <- !app_assoc.
Qed.

Lemma present_count_nonneg keywords text : 0 <= present_count keywords text.
Proof. unfold present_count. lia. Qed.

Lemma present_count_one keywords text kw :
  kw ∈ keywords -> contains kw text = true -> 1 <= present_count keywords text.
Proof.
  induction keywords as [|k r IH]; [by intros ?%elem_of_nil|].
  rewrite present_count_cons. pose proof (present_count_nonneg r text).
  intros [->|Hin]%elem_of_cons Hc.
  - rewrite Hc. lia.
  - specialize (IH Hin Hc). destruct (contains k text); lia.
Qed.

Lemma present_count_two keywords text k1 k2 :
  k1 ∈ keywords -> k2 ∈ keywords -> k1 <> k2 ->
  contains k1 text = true -> contains k2 text = true ->
  2 <= present_count keywords text.
Proof.
  induction keywords as [|k r IH]; [by intros ?%elem_of_nil|].
  rewrite present_count_cons.
  intros H1 H2 Hne Hc1 Hc2.
  apply elem_of_cons in H1 as [H1|H1]; apply elem_of_cons in H2 as [H2|H2].
  - congruence.
  - subst k. rewrite Hc1. pose proof (present_count_one r text k2 H2 Hc2). lia.
  - subst k. rewrite Hc2. pose proof (present_count_one r text k1 H1 Hc1). lia.
  - specialize (IH H1 H2 Hne Hc1 Hc2). destruct (contains k text); lia.
Qed.

Lemma lookup_unique {V} (l : list (pystr * V)) k a b :
  NoDup l.*1 -> (k, a) ∈ l -> (k, b) ∈ l -> a = b.
Proof.
  induction l as [|[k' v] r IH]; [by intros _ ?%elem_of_nil|].
  cbn [fmap list_fmap fst]. intros [Hk Hnd]%NoDup_cons Ha Hb.
  apply elem_of_cons in Ha as [Ha|Ha]; apply elem_of_cons in Hb as [Hb|Hb].
  - congruence.
  - injection Ha as -> ->. exfalso. apply Hk.
    apply list_elem_of_fmap. by exists (k', b).
  - injection Hb as -> ->. exfalso. apply Hk.
    apply list_elem_of_fmap. by exists (k', a).
  - by apply IH.
Qed.

Lemma categories_formula float_sum (lower : pystr -> pystr) cats text :
  NoDup cats.*1 -> text <> [] ->
  Fundamental.categories (Fundamental.analyze_fundamentals float_sum lower cats text)
  = Fundamental.formula_scores (lower text) cats.
Proof.
  intros Hnd Ht. unfold Fundamental.analyze_fundamentals.
  destruct text as [|c0 t0]; [done|].
  pose proof (score_categories_scores cats (lower (c0 :: t0)) [] [] Hnd) as Hs.
  destruct (Fundamental.score_categories cats (lower (c0 :: t0)) [] []) as [scores hl].
  cbn in Hs. by subst scores.
Qed.

Lemma nested_pairs_spec inner outer a b :
  (a, b) ∈ nested_pairs inner outer
  <-> a ∈ inner /\ b ∈ outer /\ a <> b /\ contains a b = true.
Proof.
  unfold nested_pairs. rewrite list_elem_of_bind. split.
  - intros (a' & Hin & Ha). apply list_elem_of_fmap in Hin as (b' & [= -> ->] & Hb).
    apply list_elem_of_filter in Hb as [[Hne Hc] Hb]. done.
  - intros (Ha & Hb & Hne & Hc). exists a. split; [|done].
    apply list_elem_of_fmap. exists b. split; [done|].
    apply list_elem_of_filter. done.
Qed.

(** X16: [analyze_fundamentals]: when a positive keyword of a category is part
    of a negative keyword of the same category, every text in which the
    negative phrase occurs is counted at least once on each side, so the
    net score of the category is strictly between minus the negative count
    and the positive count.  In the repository's table this holds for
    "rentowność" inside "niższa rentowność" (EARNINGS) and "ekspansja"
    inside "nieudana ekspansja" (STRATEGY), and for no other pair. *)
Theorem negated_phrase_counts_both (float_sum : Fundamental.summation)
    (lower : pystr -> pystr)
    (cats : list (pystr * Fundamental.category)) (text name pos neg : pystr)
    (cs : Fundamental.category_score) :
  NoDup cats.*1 -> text <> [] ->
  (name, (pos, neg)) ∈ cancelling_pairs cats ->
  contains neg (lower text) = true ->
  (name, cs) ∈ Fundamental.categories (Fundamental.analyze_fundamentals float_sum lower cats text) ->
  (1 <= Fundamental.positive_count cs /\ 1 <= Fundamental.negative_count cs
   /\ - Fundamental.negative_count cs < Fundamental.net_score cs
      < Fundamental.positive_count cs)
  /\ cancelling_pairs Fundamental.FUNDAMENTAL_CATEGORIES
     = [ (py "EARNINGS", (py "rentowność", py "niższa rentowność"));
         (py "STRATEGY", (py "ekspansja", py "nieudana ekspansja")) ].
Proof.
  intros Hnd Ht Hpair Hneg Hcs. split; [|vm_compute; reflexivity].
  unfold cancelling_pairs in Hpair.
  apply list_elem_of_bind in Hpair as ([n0 c] & Hpair & Hc).
  apply list_elem_of_fmap in Hpair as ([a b] & [= -> -> ->] & Hab).
  cbn [fst snd] in Hab. apply nested_pairs_spec in Hab as (Hpos & Hnegin & _ & Hsub).
  rewrite (categories_formula float_sum lower cats text Hnd Ht) in Hcs.
  unfold Fundamental.formula_scores in Hcs.
  apply list_elem_of_fmap in Hcs as ([n1 c1] & [= -> ->] & Hc1).
  cbn [fst snd] in *.
  assert (c1 = c) as -> by (eapply lookup_unique; eauto).
  unfold Fundamental.category_formula. cbn.
  pose proof (present_count_one (Fundamental.positive_keywords c) (lower text) a Hpos
                (contains_trans _ _ _ Hsub Hneg)) as Hp.
  pose proof (present_count_one (Fundamental.negative_keywords c) (lower text) b Hnegin
                Hneg) as Hn.
  lia.
Qed.

(** X17: [analyze_sentiment]: a keyword that contains another keyword of its
    list counts twice.  A title whose lowercase form contains such a
    positive keyword and at most one negative keyword is POZYTYWNY, and
    symmetrically for NEGATYWNY.  The repository's lists have three such
    pairs on the positive and three on the negative side, and no keyword of
    one list inside a keyword of the other. *)
Theorem nested_keyword_counts_twice (lower : pystr -> pystr) (title : option pystr)
    (inner outer : pystr) :
  contains outer (lower (default [] title)) = true ->
  ((inner, outer) ∈ nested_pairs positive_keywords positive_keywords ->
   2 <= present_count positive_keywords (lower (default [] title))
   /\ (present_count negative_keywords (lower (default [] title)) <= 1 ->
       (analyze_sentiment lower title).1 = POZYTYWNY))
  /\ ((inner, outer) ∈ nested_pairs negative_keywords negative_keywords ->
      2 <= present_count negative_keywords (lower (default [] title))
      /\ (present_count positive_keywords (lower (default [] title)) <= 1 ->
          (analyze_sentiment lower title).1 = NEGATYWNY))
  /\ nested_pairs positive_keywords positive_keywords
     = [ (py "zysk", py "zyskown"); (py "kupuj", py "kupuję"); (py "bull", py "bullish") ]
  /\ nested_pairs negative_keywords negative_keywords
     = [ (py "sprzeda", py "sprzedaj"); (py "sprzeda", py "sprzedam");
         (py "bear", py "bearish") ]
  /\ nested_pairs positive_keywords negative_keywords = []
  /\ nested_pairs negative_keywords positive_keywords = [].
Proof.
  intros Hc. split; [|split; [|repeat split; vm_compute; reflexivity]].
  - intros (Hi & Ho & Hne & Hsub)%nested_pairs_spec.
    pose proof (present_count_two positive_keywords _ inner outer Hi Ho Hne
                  (contains_trans _ _ _ Hsub Hc) Hc) as H2.
    split; [done|]. intros H1. unfold analyze_sentiment.
    rewrite !sum_present_count. cbn zeta.
    destruct (Z.ltb_spec (present_count negative_keywords (lower (default [] title)))
                (present_count positive_keywords (lower (default [] title)))); [done|lia].
  - intros (Hi & Ho & Hne & Hsub)%nested_pairs_spec.
    pose proof (present_count_two negative_keywords _ inner outer Hi Ho Hne
                  (contains_trans _ _ _ Hsub Hc) Hc) as H2.
    split; [done|]. intros H1. unfold analyze_sentiment.
    rewrite !sum_present_count. cbn zeta.
    destruct (Z.ltb_spec (present_count negative_keywords (lower (default [] title)))
                (present_count positive_keywords (lower (default [] title)))); [lia|].
    destruct (Z.ltb_spec (present_count positive_keywords (lower (default [] title)))
                (present_count negative_keywords (lower (default [] title)))); [done|lia].
Qed.

End OverlapFacts.

Section OverlapEvaluations.
Import Sentiment Overlap.
Local Open Scope Z_scope.

Lemma negated_phrase_counts_both_witness :
  exists cs,
    (py "STRATEGY", cs)
      ∈ Fundamental.categories
          (Fundamental.analyze_fundamentals Fundamental.CompensatedSum ascii_lower
             Fundamental.FUNDAMENTAL_CATEGORIES
             (py "Nieudana ekspansja w Niemczech"))
    /\ 1 <= Fundamental.positive_count cs /\ 1 <= Fundamental.negative_count cs
    /\ - Fundamental.negative_count cs < Fundamental.net_score cs
       < Fundamental.positive_count cs.
Proof.
  assert (Hnd : NoDup Fundamental.FUNDAMENTAL_CATEGORIES.*1)
    by (apply (bool_decide_unpack _); vm_compute; exact I).
  assert (Ht : py "Nieudana ekspansja w Niemczech" <> [])
    by (apply (bool_decide_unpack _); vm_compute; exact I).
  assert (Hpair : (py "STRATEGY", (py "ekspansja", py "nieudana ekspansja"))
                    ∈ cancelling_pairs Fundamental.FUNDAMENTAL_CATEGORIES)
    by (apply (bool_decide_unpack _); vm_compute; exact I).
  assert (Hneg : contains (py "nieudana ekspansja")
                   (ascii_lower (py "Nieudana ekspansja w Niemczech")) = true)
    by (vm_compute; reflexivity).
  assert (Hin : exists cs,
      (py "STRATEGY", cs)
        ∈ Fundamental.categories
            (Fundamental.analyze_fundamentals Fundamental.CompensatedSum ascii_lower
             Fundamental.FUNDAMENTAL_CATEGORIES
               (py "Nieudana ekspansja w Niemczech"))).
  { eexists. vm_compute. do 2 (apply elem_of_cons; right). apply elem_of_cons. left.
    reflexivity. }
  destruct Hin as (cs & Hin). exists cs. split; [exact Hin|].
  exact (proj1 (negated_phrase_counts_both Fundamental.CompensatedSum ascii_lower
                  Fundamental.FUNDAMENTAL_CATEGORIES
                  _ _ _ _ cs Hnd Ht Hpair Hneg Hin)).
Defined.

Lemma nested_keyword_counts_twice_witness :
  (analyze_sentiment ascii_lower (Some (py "Bullish, ale jest ryzyko"))).1 = POZYTYWNY.
Proof.
  assert (Hc : contains (py "bullish")
                 (ascii_lower (default [] (Some (py "Bullish, ale jest ryzyko")))) = true)
    by (vm_compute; reflexivity).
  assert (Hpair : (py "bull", py "bullish") ∈ nested_pairs positive_keywords positive_keywords)
    by (apply (bool_decide_unpack _); vm_compute; exact I).
  pose proof (nested_keyword_counts_twice ascii_lower (Some (py "Bullish, ale jest ryzyko"))
                (py "bull") (py "bullish") Hc) as (Hpos & _).
  apply (Hpos Hpair). vm_compute. discriminate.
Defined.

End OverlapEvaluations.

(* ===================================================================== *)
(** ** The printed summaries ([main] of [fundamental_screen.py], the
       statistics of [sentiment_analyzer.py]) *)
(* ===================================================================== *)

Section SummaryFacts.
Import Sentiment Fundamental Company Report.

Lemma count_where_labels {A} `{EqDecision A} (label_of : A -> pystr)
    (test : pystr -> bool) (P : A -> Prop) `{forall a, Decision (P a)} (l : list A) :
  (forall a, test (label_of a) = bool_decide (P a)) ->
  count_where test (label_of <$> l) = length (filter P l).
Proof.
  intros Ht. unfold count_where.
  induction l as [|a r IH]; [done|].
  cbn [fmap list_fmap]. rewrite !filter_cons, Ht.
  case_bool_decide as Hp.
  - rewrite decide_True by done. rewrite decide_True by done. cbn [length].
    f_equal. exact IH.
  - rewrite decide_False by done. rewrite decide_False by done. exact IH.
Qed.

Lemma occurrences_total (rs : list rating) :
  occurrences VERY_BULLISH rs + occurrences BULLISH rs + occurrences SLIGHTLY_BULLISH rs
  + occurrences NEUTRAL rs + occurrences SLIGHTLY_BEARISH rs + occurrences BEARISH rs
  + occurrences VERY_BEARISH rs = length rs.
Proof.
  unfold occurrences. induction rs as [|r rest IH]; [done|].
  rewrite !filter_cons. cbn [length]. rewrite <- IH.
  destruct r; repeat case_decide; try congruence; cbn [length]; lia.
Qed.

(** X18: [main] of the async pipeline: each of the seven counters of the printed
    summary is the number of results with the corresponding rating, so the
    substring tests count every result exactly once and the counters add up
    to the number of results. *)
Theorem summary_counts_each_result_once (results : list company_result) :
  let ratings := Rating <$> results in
  let s := summarize (rating_label <$> ratings) in
  very_bullish s = occurrences VERY_BULLISH ratings
  /\ bullish s = occurrences BULLISH ratings
  /\ slightly_bullish s = occurrences SLIGHTLY_BULLISH ratings
  /\ neutral s = occurrences NEUTRAL ratings
  /\ slightly_bearish s = occurrences SLIGHTLY_BEARISH ratings
  /\ bearish s = occurrences BEARISH ratings
  /\ very_bearish s = occurrences VERY_BEARISH ratings
  /\ very_bullish s + bullish s + slightly_bullish s + neutral s
     + slightly_bearish s + bearish s + very_bearish s = length results.
Proof.
  intros ratings s.
  assert (H1 : very_bullish s = occurrences VERY_BULLISH ratings).
  { apply (count_where_labels rating_label _ (fun x => x = VERY_BULLISH)).
    intros []; vm_compute; reflexivity. }
  assert (H2 : bullish s = occurrences BULLISH ratings).
  { apply (count_where_labels rating_label _ (fun x => x = BULLISH)).
    intros []; vm_compute; reflexivity. }
  assert (H3 : slightly_bullish s = occurrences SLIGHTLY_BULLISH ratings).
  { apply (count_where_labels rating_label _ (fun x => x = SLIGHTLY_BULLISH)).
    intros []; vm_compute; reflexivity. }
  assert (H4 : neutral s = occurrences NEUTRAL ratings).
  { apply (count_where_labels rating_label _ (fun x => x = NEUTRAL)).
    intros []; vm_compute; reflexivity. }
  assert (H5 : slightly_bearish s = occurrences SLIGHTLY_BEARISH ratings).
  { apply (count_where_labels rating_label _ (fun x => x = SLIGHTLY_BEARISH)).
    intros []; vm_compute; reflexivity. }
  assert (H6 : bearish s = occurrences BEARISH ratings).
  { apply (count_where_labels rating_label _ (fun x => x = BEARISH)).
    intros []; vm_compute; reflexivity. }
  assert (H7 : very_bearish s = occurrences VERY_BEARISH ratings).
  { apply (count_where_labels rating_label _ (fun x => x = VERY_BEARISH)).
    intros []; vm_compute; reflexivity. }
  split_and!; try done.
  rewrite H1, H2, H3, H4, H5, H6, H7, occurrences_total.
  unfold ratings. by rewrite length_fmap.
Qed.

End SummaryFacts.

Section RollupFacts.
Import Sentiment Browser Report Rollup.

Lemma count_total (sentiments : list label) :
  count POZYTYWNY sentiments + count NEGATYWNY sentiments + count NEUTRALNY sentiments
  = length sentiments.
Proof.
  unfold count. induction sentiments as [|r rest IH]; [done|].
  rewrite !filter_cons. cbn [length]. rewrite <- IH.
  destruct r; repeat case_decide; try congruence; cbn [length]; lia.
Qed.

(** X19: [scrape_company_sentiment] and the statistics after it: the three
    counts of a company row add up to its number of threads, which is the
    number of retained rows; in the statistics every row of the table is
    counted in exactly one of the three counters, BULLISH and +POZYT as
    bullish, BEARISH and -NEGAT as bearish, NEUTR as neutral. *)
Theorem sentiment_report_partitions (lower : pystr -> pystr) (lim : Fetcher.limits)
    (d : driver) (n : nat) (threads_data : list (pystr * pystr))
    (column : list overall) :
  let sentiments := thread_sentiments lower lim d n threads_data in
  let s := Rollup.summarize (overall_label <$> column) in
  count POZYTYWNY sentiments + count NEGATYWNY sentiments + count NEUTRALNY sentiments
  = length threads_data
  /\ Rollup.bullish s = length (filter (fun o => o = Bullish \/ o = Pozyt) column)
  /\ Rollup.bearish s = length (filter (fun o => o = Bearish \/ o = Negat) column)
  /\ Rollup.neutral s = length (filter (fun o => o = Neutr) column)
  /\ Rollup.bullish s + Rollup.bearish s + Rollup.neutral s = length column.
Proof.
  intros sentiments s.
  assert (H1 : Rollup.bullish s = length (filter (fun o => o = Bullish \/ o = Pozyt) column)).
  { apply (count_where_labels overall_label _ (fun o => o = Bullish \/ o = Pozyt)).
    intros []; vm_compute; reflexivity. }
  assert (H2 : Rollup.bearish s = length (filter (fun o => o = Bearish \/ o = Negat) column)).
  { apply (count_where_labels overall_label _ (fun o => o = Bearish \/ o = Negat)).
    intros []; vm_compute; reflexivity. }
  assert (H3 : Rollup.neutral s = length (filter (fun o => o = Neutr) column)).
  { apply (count_where_labels overall_label _ (fun o => o = Neutr)).
    intros []; vm_compute; reflexivity. }
  split_and!; try done.
  - rewrite count_total. apply thread_sentiments_length.
  - rewrite H1, H2, H3. clear. induction column as [|o rest IH]; [done|].
    rewrite !filter_cons. cbn [length]. rewrite <- IH.
    destruct o; repeat case_decide; try (exfalso; intuition congruence); cbn [length]; lia.
Qed.

End RollupFacts.

(* ===================================================================== *)
(** ** Permits are given back and the event loop never gets stuck *)
(* ===================================================================== *)

Section PermitsFacts.
Import Fetcher Gate Permits Samples.

Lemma balanced_fetch_page_prog h remaining k :
  (forall b, balanced h (k b)) -> balanced h (fetch_page_prog remaining k).
Proof.
  intros Hk. induction remaining as [|r IH]; cbn [fetch_page_prog]; [apply Hk|].
  intros [| | |]; cbn [balanced]; try done.
  destruct r; [apply Hk|exact IH].
Qed.

Lemma balanced_more_pages_prog h retries n k :
  balanced h k -> balanced h (more_pages_prog retries n k).
Proof.
  intros Hk. induction n as [|n IH]; cbn [more_pages_prog]; [done|].
  split; [done|]. apply balanced_fetch_page_prog.
  intros [|]; cbn [balanced]; [split|]; done.
Qed.

Lemma balanced_process_thread_prog cfg : balanced 0 (process_thread_prog cfg).
Proof.
  unfold process_thread_prog. cbn [balanced]. split; [done|].
  apply balanced_fetch_page_prog.
  intros [|]; cbn [balanced]; [|done].
  split; [done|]. split; [done|]. apply balanced_more_pages_prog. by cbn.
Qed.

Lemma balanced_process_company_prog cfg : balanced 0 (process_company_prog cfg).
Proof.
  unfold process_company_prog. cbn [balanced]. split; [done|].
  apply balanced_fetch_page_prog.
  intros [|]; cbn [balanced]; [|done].
  split; [done|]. split; [done|]. split; [done|]. split; [done|]. split; [|done].
  apply balanced_process_thread_prog.
Qed.

Lemma balanced_main_prog cfg : balanced 0 (main_prog cfg).
Proof.
  unfold main_prog. cbn [balanced]. split; [done|]. split; [done|]. split; [|done].
  apply balanced_process_company_prog.
Qed.

Lemma balanced_le h p : balanced h p -> h <= 1.
Proof.
  revert h; induction p as [|k IH|k IH|k IH|k IH|p IHp q IHq|child IHc k IHk];
    intros h; cbn [balanced].
  - lia.
  - lia.
  - lia.
  - intros Hk. exact (IH Ok200 h (Hk Ok200)).
  - apply IH.
  - intros [Hp _]. by apply IHp.
  - lia.
Qed.

Lemma balanced_task_le t : balanced_task t -> holds t <= 1.
Proof.
  unfold balanced_task. destruct (code t) as [p|k|ch k].
  - apply balanced_le.
  - intros Hk. exact (balanced_le _ _ (Hk Ok200)).
  - lia.
Qed.

Lemma balanced_task_idle t :
  balanced_task t ->
  is_finished t || wants_permit t || is_joining t = true -> holds t = 0.
Proof.
  unfold balanced_task, is_finished, wants_permit, is_joining.
  destruct (code t) as [[]|k|ch k]; cbn [balanced orb]; try done; tauto.
Qed.

Lemma orderly_initial cfg : orderly (MAX_CONCURRENT_REQUESTS cfg) (initial cfg).
Proof.
  split_and!.
  - cbn. lia.
  - repeat constructor. apply balanced_main_prog.
  - intros i t ch k Hi Hc. destruct i as [|i]; [|done].
    cbn in Hi. injection Hi as <-. done.
Qed.

Lemma joins_later_insert (tasks : list task) i t t' :
  joins_later tasks -> tasks !! i = Some t ->
  (forall ch k, code t' = Joining ch k -> Forall (fun j => i < j < length tasks) ch) ->
  joins_later (<[ i := t' ]> tasks).
Proof.
  intros Hj Hi Hnew j tj ch k Hlook Hc. rewrite length_insert.
  destruct (decide (j = i)) as [->|Hne].
  - rewrite list_lookup_insert_eq in Hlook by (by eapply lookup_lt_Some).
    injection Hlook as <-. by eapply Hnew.
  - rewrite list_lookup_insert_ne in Hlook by done. by eapply Hj.
Qed.

Lemma orderly_update capacity s i t t' v' :
  orderly capacity s ->
  pool s !! i = Some t ->
  balanced_task t' ->
  (forall ch k, code t' = Joining ch k -> Forall (fun j => i < j < length (pool s)) ch) ->
  v' + holds t' = sem_value s + holds t ->
  orderly capacity {| sem_value := v'; pool := set_task s i t' |}.
Proof.
  intros (Hsum & Hall & Hj) Hi Ht' Hnew Hv. split_and!; cbn [sem_value pool].
  - unfold held, set_task in *. cbn [pool].
    pose proof (held_insert (pool s) i t t' Hi). lia.
  - unfold set_task. by apply Forall_insert.
  - unfold set_task. by eapply joins_later_insert.
Qed.

Lemma orderly_step capacity s s' :
  orderly capacity s -> step s s' -> orderly capacity s'.
Proof.
  intros Hinv Hstep.
  assert (Htask : forall i t, pool s !! i = Some t -> balanced_task t).
  { intros i t Hi. destruct Hinv as (_ & Hall & _). by eapply Forall_lookup_1. }
  destruct Hstep as [s i k h v Hi Hv | s i k h Hi | s i k h Hi | s i k h o Hi
                    | s i k h Hi | s i p q h left Hi | s i child k h n Hi
                    | s i children k h Hi Hdone];
    pose proof (Htask _ _ Hi) as Hg; unfold balanced_task in Hg; cbn in Hg.
  - destruct Hg as [-> Hg].
    eapply orderly_update; [done|exact Hi|exact Hg|done|cbn; lia].
  - destruct Hg as [-> Hg].
    eapply orderly_update; [done|exact Hi|exact Hg|done|cbn; lia].
  - eapply orderly_update; [done|exact Hi|exact Hg|done|cbn; lia].
  - eapply orderly_update; [done|exact Hi|apply Hg|done|cbn; lia].
  - eapply orderly_update; [done|exact Hi|exact Hg|done|cbn; lia].
  - destruct Hg as [Hp Hq].
    eapply orderly_update; [done|exact Hi| |done|cbn; lia].
    unfold balanced_task. cbn. by destruct left.
  - destruct Hg as (-> & Hc & Hk).
    pose proof (lookup_lt_Some _ _ _ Hi) as Hlt.
    destruct Hinv as (Hsum & Hall & Hj). split_and!; cbn [sem_value pool] in *.
    + unfold held, set_task in *. cbn [pool] in *. rewrite sum_list_with_app.
      rewrite held_replicate. cbn [holds].
      pose proof (held_insert (pool s) i _
                    {| code := Joining (seq (length (pool s)) n) k; holds := 0 |} Hi) as Hh.
      cbn [holds] in Hh. lia.
    + apply Forall_app. split; [|by apply Forall_replicate].
      unfold set_task. apply Forall_insert; [done|]. by split.
    + intros j tj ch k' Hlook Hcode. rewrite length_app.
      unfold set_task in *. rewrite length_insert, length_replicate.
      apply lookup_app_Some in Hlook as [Hlook|[_ Hlook]].
      * destruct (decide (j = i)) as [->|Hne].
        -- rewrite list_lookup_insert_eq in Hlook by done.
           injection Hlook as <-. cbn in Hcode. injection Hcode as <- <-.
           apply Forall_forall. intros j Hjn. apply elem_of_seq in Hjn. lia.
        -- rewrite list_lookup_insert_ne in Hlook by done.
           eapply Forall_impl; [by eapply Hj|]. cbn. intros; lia.
      * apply lookup_replicate in Hlook as [-> _]. done.
  - destruct Hg as [-> Hg].
    eapply orderly_update; [done|exact Hi|exact Hg|done|cbn; lia].
Qed.

Lemma orderly_reachable cfg s :
  reachable cfg s -> orderly (MAX_CONCURRENT_REQUESTS cfg) s.
Proof.
  unfold reachable. revert s. apply rtc_ind_r.
  - apply orderly_initial.
  - intros y z _ Hstep IH. by eapply orderly_step.
Qed.

Lemma held_idle (tasks : list task) :
  Forall (fun t => holds t = 0) tasks -> sum_list_with holds tasks = 0.
Proof. induction 1 as [|t r Ht _ IH]; [done|]. cbn. lia. Qed.

Lemma is_finished_finished t : is_finished t = true <-> finished t.
Proof.
  unfold is_finished, finished. destruct (code t) as [[]|k|ch k]; split; done.
Qed.

(** X20: every reachable state keeps the accounting of the permits: a task
    never holds more than one permit, and it holds none when it has
    returned, when it waits at the entry of [async with sem], and when it
    waits in [gather] for the tasks it created; so once all tasks have
    returned, all [MAX_CONCURRENT_REQUESTS] permits are back in the
    semaphore.  Both [process_company] and [process_thread] give the permit
    back on every path. *)
Theorem permits_given_back (cfg : config) (s : system) :
  reachable cfg s ->
  (forall t, t ∈ pool s ->
     holds t <= 1
     /\ (is_finished t || wants_permit t || is_joining t = true -> holds t = 0))
  /\ (Forall finished (pool s) -> sem_value s = MAX_CONCURRENT_REQUESTS cfg)
  /\ balanced 0 (process_company_prog cfg)
  /\ balanced 0 (process_thread_prog cfg).
Proof.
  intros Hr. destruct (orderly_reachable cfg s Hr) as (Hsum & Hall & _).
  split_and!.
  - intros t Ht. rewrite Forall_forall in Hall. specialize (Hall t Ht).
    split; [by apply balanced_task_le|by apply balanced_task_idle].
  - intros Hfin. rewrite <- Hsum. unfold held. rewrite held_idle; [lia|].
    rewrite Forall_forall in Hall, Hfin |- *. intros t Ht.
    apply balanced_task_idle; [by apply Hall|].
    apply Hfin, is_finished_finished in Ht. by rewrite Ht.
  - apply balanced_process_company_prog.
  - apply balanced_process_thread_prog.
Qed.

Lemma find_task (f : task -> bool) (tasks : list task) :
  (exists i t, tasks !! i = Some t /\ f t = true)
  \/ Forall (fun t => f t = false) tasks.
Proof.
  induction tasks as [|a r IH]; [by right|].
  destruct (f a) eqn:Ha.
  - left. by exists 0, a.
  - destruct IH as [(i & t & Hi & Ht)|Hall].
    + left. by exists (S i), t.
    + right. by constructor.
Qed.

Lemma busy_task_steps s i t :
  pool s !! i = Some t -> idle t = false -> exists s', step s s'.
Proof.
  intros Hi Hidle. destruct t as [c h].
  destruct c as [[|k|k|k|k|p q|child k]|k|ch k]; try done.
  - eexists. by eapply step_release.
  - eexists. by eapply step_send.
  - eexists. by eapply step_sleep.
  - eexists. by eapply (step_branch s i p q h true).
  - eexists. by eapply (step_gather s i child k h 0).
  - eexists. by eapply (step_receive s i k h Ok200).
Qed.

Lemma last_joining (tasks : list task) :
  Forall (fun t => is_finished t || is_joining t = true) tasks ->
  Forall finished tasks
  \/ exists i t, tasks !! i = Some t /\ is_joining t = true
       /\ forall j tj, i < j -> tasks !! j = Some tj -> finished tj.
Proof.
  induction tasks as [|a r IH] using rev_ind; [by left|].
  intros [Hr Ha]%Forall_app. apply Forall_inv in Ha. cbn beta in Ha.
  destruct (is_joining a) eqn:Hj.
  - right. exists (length r), a. split_and!; [|done|].
    + by rewrite lookup_app_r, Nat.sub_diag by lia.
    + intros j tj Hlt Hlook. apply lookup_lt_Some in Hlook.
      rewrite length_app in Hlook. cbn in Hlook. lia.
  - rewrite orb_false_r in Ha. apply is_finished_finished in Ha.
    destruct (IH Hr) as [Hall|(i & t & Hi & Ht & Hlater)].
    + left. apply Forall_app. split; [done|by apply Forall_singleton].
    + right. exists i, t. split_and!; [|done|].
      * by apply lookup_app_l_Some.
      * intros j tj Hlt Hlook. apply lookup_app_Some in Hlook as [Hlook|[_ Hlook]].
        -- by eapply Hlater.
        -- apply list_lookup_singleton_Some in Hlook as [_ <-]. done.
Qed.

(** X21: with at least one permit the event loop of [main] never gets stuck:
    in every reachable state either all tasks have returned or some task
    can take a step.  No task waits for a permit or for its children while
    it holds a permit, so a free permit or a task able to go on always
    exists. *)
Theorem event_loop_never_stuck (cfg : config) (s : system) :
  0 < MAX_CONCURRENT_REQUESTS cfg ->
  reachable cfg s ->
  Forall finished (pool s) \/ exists s', step s s'.
Proof.
  intros Hcap Hr. destruct (orderly_reachable cfg s Hr) as (Hsum & Hall & Hj).
  destruct (find_task (fun t => negb (idle t)) (pool s)) as [(i & t & Hi & Ht)|Hidle].
  { right. eapply busy_task_steps; [exact Hi|]. by apply negb_true_iff. }
  assert (Hfree : sem_value s = MAX_CONCURRENT_REQUESTS cfg).
  { rewrite <- Hsum. unfold held. rewrite held_idle; [lia|].
    rewrite Forall_forall in Hall, Hidle |- *. intros t Ht.
    apply balanced_task_idle; [by apply Hall|].
    specialize (Hidle t Ht). by apply negb_false_iff in Hidle. }
  destruct (find_task wants_permit (pool s)) as [(i & t & Hi & Ht)|Hnone].
  { right. destruct t as [c h]. unfold wants_permit in Ht. cbn in Ht.
    destruct c as [[]|?|? ?]; try done.
    destruct (sem_value s) as [|v] eqn:Hv; [lia|].
    eexists. by eapply step_acquire. }
  destruct (last_joining (pool s)) as [Hfin|(i & t & Hi & Ht & Hlater)].
  { rewrite Forall_forall in Hidle, Hnone |- *. intros t Ht.
    specialize (Hidle t Ht). specialize (Hnone t Ht). cbn in Hidle.
    apply negb_false_iff in Hidle. unfold idle in Hidle.
    rewrite Hnone, orb_false_r in Hidle. exact Hidle. }
  { by left. }
  right. destruct t as [c h]. unfold is_joining in Ht. cbn in Ht.
  destruct c as [?|?|ch k]; try done.
  eexists. eapply step_join; [exact Hi|].
  pose proof (Hj i _ ch k Hi eq_refl) as Hch.
  eapply Forall_impl; [exact Hch|]. cbn. intros j [Hlt Hlen].
  destruct (lookup_lt_is_Some_2 (pool s) j Hlen) as [tj Htj].
  exists tj. split; [done|]. by eapply Hlater.
Qed.

End PermitsFacts.

Section PermitsEvaluations.
Import Fetcher Gate Permits Samples.

Lemma busy_system_reachable : reachable fundamental_config busy_system.
Proof.
  unfold reachable.
  eapply rtc_l; [exact (step_branch (initial fundamental_config) 0 _ _ 0 false eq_refl)|].
  eapply rtc_l; [eapply (step_gather _ 0) with (n := 2); reflexivity|].
  eapply rtc_l; [eapply (step_acquire _ 1); reflexivity|].
  eapply rtc_l; [eapply (step_send _ 1); reflexivity|].
  apply rtc_refl.
Qed.

Lemma permits_given_back_witness :
  Forall (fun t => holds t <= 1) (pool busy_system).
Proof.
  apply Forall_forall. intros t Ht.
  exact (proj1 (proj1 (permits_given_back fundamental_config busy_system
                         busy_system_reachable) t Ht)).
Defined.

Lemma event_loop_never_stuck_witness :
  Forall finished (pool busy_system) \/ exists s', step busy_system s'.
Proof.
  apply (event_loop_never_stuck fundamental_config busy_system).
  - cbn. lia.
  - exact busy_system_reachable.
Defined.

End PermitsEvaluations.

(* ===================================================================== *)
(** ** Page loads of the browser crawler ([scrape_thread_posts]) *)
(* ===================================================================== *)

Section BrowserBudgetFacts.
Import Fetcher Extractor Browser Samples MoreSamples.

Lemma representative_pages_shape (thread_soup : html) (current_url : pystr) max_pages :
  exists rest,
    extract_representative_thread_pages thread_soup current_url max_pages
    = current_url :: rest
    /\ length rest <= max_pages - 1.
Proof.
  unfold extract_representative_thread_pages.
  case_bool_decide as Hmax.
  { exists []. split; [done|cbn; lia]. }
  destruct (uniq_candidates (page_candidates thread_soup)) as [|u0 uniq'] eqn:Hu.
  { exists []. split; [done|cbn; lia]. }
  set (selected := if bool_decide (List.last (u0 :: uniq') [] ∉ [current_url])
                   then [current_url] ++ [List.last (u0 :: uniq') []]
                   else [current_url]).
  assert (Hnd : NoDup selected).
  { unfold selected. case_bool_decide as Hl.
    - apply NoDup_cons. split; [|apply NoDup_singleton].
      intros Hin. apply Hl. apply list_elem_of_singleton in Hin. rewrite <- Hin.
      by apply list_elem_of_singleton.
    - apply NoDup_singleton. }
  destruct (select_pages_spec max_pages (u0 :: uniq') selected Hnd) as (_ & [k Hk] & _).
  assert (Hhead : exists tl, selected ++ k = current_url :: tl).
  { unfold selected. case_bool_decide; eexists; reflexivity. }
  destruct Hhead as [tl Htl]. rewrite Hk, Htl.
  destruct max_pages as [|[|m]]; [lia|lia|].
  exists (take (S m) tl). split; [done|]. rewrite length_take. lia.
Qed.

Lemma scrape_pages_requests lim d thread_url page_urls soup n (posts : list pystr) :
  n <= (scrape_pages lim d thread_url page_urls soup n posts).2
  /\ (scrape_pages lim d thread_url page_urls soup n posts).2 <= n + length page_urls.
Proof.
  revert soup n posts; induction page_urls as [|page_url rest IH];
    intros soup n posts; cbn [scrape_pages length]; [cbn; lia|].
  case_bool_decide as Hp.
  - destruct (d n page_url) as [soup'|]; [|cbn; lia].
    destruct (add_posts _ _ posts) as [posts' [|]]; [cbn; lia|].
    specialize (IH soup' (S n) posts'). lia.
  - destruct (add_posts _ _ posts) as [posts' [|]]; [cbn; lia|].
    specialize (IH soup n posts'). lia.
Qed.

Lemma scrape_pages_own_page lim d thread_url rest soup n (posts : list pystr) :
  (scrape_pages lim d thread_url (thread_url :: rest) soup n posts).2 <= n + length rest.
Proof.
  cbn [scrape_pages]. rewrite bool_decide_eq_false_2 by (intros H; by apply H).
  destruct (add_posts _ _ posts) as [posts' [|]]; [cbn; lia|].
  apply scrape_pages_requests.
Qed.

(** X22: the browser crawler loads at most [MAX_PAGES_PER_THREAD] pages per
    thread (one, if that cap is below 1): the thread page once, never a
    second time although it heads the list of pages to read, and each
    further representative page once.  A thread without URL costs no page
    load, any other thread at least one.  With the repository's constants a
    thread costs one or two loads. *)
Theorem scrape_thread_posts_page_loads (lim : limits) (d : driver) (n : nat)
    (tytul thread_url : pystr) :
  let n' := (scrape_thread_posts lim d n thread_url).2 in
  n <= n' /\ n' <= n + Nat.max 1 (MAX_PAGES_PER_THREAD lim)
  /\ (thread_url = [] -> n' = n)
  /\ (thread_url <> [] -> n < n')
  /\ (thread_text lim d n tytul thread_url).2 = n'
  /\ Nat.max 1 (MAX_PAGES_PER_THREAD sentiment_limits) = 2.
Proof.
  cbn zeta.
  assert (Htext : (thread_text lim d n tytul thread_url).2
                  = (scrape_thread_posts lim d n thread_url).2).
  { unfold thread_text. by destruct (scrape_thread_posts lim d n thread_url). }
  rewrite Htext. clear Htext. unfold scrape_thread_posts.
  destruct thread_url as [|c u]; [cbn; split_and!; try done; lia|].
  destruct (d n (c :: u)) as [soup|]; [|cbn; split_and!; try done; lia].
  destruct (representative_pages_shape soup (c :: u) (MAX_PAGES_PER_THREAD lim))
    as (rest & -> & Hlen).
  pose proof (scrape_pages_own_page lim d (c :: u) rest soup (S n) []) as Hup.
  pose proof (scrape_pages_requests lim d (c :: u) ((c :: u) :: rest) soup (S n) [])
    as [Hlow _].
  split_and!; try done.
  - etrans; [|exact Hlow]. lia.
  - etrans; [exact Hup|]. lia.
Qed.

End BrowserBudgetFacts.

(* ===================================================================== *)
(** ** The company list *)
(* ===================================================================== *)

Section LoaderFacts.
Import Fundamental Loader.

Lemma span_until_spec stop l :
  l = (span_until stop l).1 ++ (span_until stop l).2
  /\ (stop ∉ (span_until stop l).1)
  /\ ((span_until stop l).2 = [] \/ exists r, (span_until stop l).2 = stop :: r).
Proof.
  induction l as [|c r (IH1 & IH2 & IH3)]; cbn [span_until].
  { split_and!; [done|apply not_elem_of_nil|by left]. }
  destruct (N.eqb_spec c stop) as [->|Hne]; cbn [fst snd].
  { split_and!; [done|apply not_elem_of_nil|right; by eexists]. }
  destruct (span_until stop r) as [run rest]. cbn [fst snd] in *.
  split_and!; [by rewrite IH1 at 1| |done].
  apply not_elem_of_cons. split; [congruence|done].
Qed.

Lemma span_until_app stop run rest :
  stop ∉ run -> span_until stop (run ++ stop :: rest) = (run, stop :: rest).
Proof.
  induction run as [|c run IH]; cbn [app span_until].
  { intros _. by rewrite N.eqb_refl. }
  intros [Hc Hrun]%not_elem_of_cons.
  destruct (N.eqb_spec c stop) as [->|_]; [done|]. by rewrite IH.
Qed.

Lemma match_at_Some l name url rest :
  match_at l = Some (name, url, rest) ->
  l = link name url ++ rest /\ well_formed name url.
Proof.
  unfold match_at, link, well_formed. destruct l as [|c r]; [done|].
  destruct (N.eqb_spec c LBRACKET) as [->|_]; [|done].
  pose proof (span_until_spec RBRACKET r) as (Hr & Hn & _).
  destruct (span_until RBRACKET r) as [nm r1]. cbn [fst snd] in *.
  destruct nm as [|n0 nm]; [done|]. destruct r1 as [|c1 [|c2 r2]]; try done.
  destruct (N.eqb_spec c1 RBRACKET) as [->|_]; [|done].
  destruct (N.eqb_spec c2 LPAREN) as [->|_]; [|done]. cbn [andb].
  pose proof (span_until_spec RPAREN r2) as (Hr2 & Hu & _).
  destruct (span_until RPAREN r2) as [ur r3]. cbn [fst snd] in *.
  destruct ur as [|u0 ur]; [done|]. destruct r3 as [|c3 r4]; [done|].
  destruct (N.eqb_spec c3 RPAREN) as [->|_]; [|done].
  intros [= <- <- <-]. split_and!; try done.
  rewrite Hr, Hr2. by simplify_list_eq.
Qed.

Lemma match_at_link name url rest :
  well_formed name url -> match_at (link name url ++ rest) = Some (name, url, rest).
Proof.
  intros (Hn & Hnb & Hu & Hub). unfold link, match_at. cbn [app].
  rewrite N.eqb_refl. rewrite <- !app_assoc. cbn [app].
  rewrite (span_until_app RBRACKET name _ Hnb).
  destruct name as [|n0 nm]; [done|]. cbn [N.eqb andb].
  rewrite !N.eqb_refl. cbn [andb].
  rewrite <- app_assoc. cbn [app].
  rewrite (span_until_app RPAREN url _ Hub).
  destruct url as [|u0 ur]; [done|]. by rewrite N.eqb_refl.
Qed.

Lemma match_at_other c r : c <> LBRACKET -> match_at (c :: r) = None.
Proof. intros Hc. cbn. by destruct (N.eqb_spec c LBRACKET). Qed.

Lemma findall_skip pre l : findall (length pre) (pre ++ l) = findall 0 l.
Proof. induction pre as [|c pre IH]; [done|]. exact IH. Qed.

Lemma findall_match l name url rest :
  match_at l = Some (name, url, rest) ->
  findall 0 l = (name, url) :: findall 0 rest.
Proof.
  intros Hm. destruct (match_at_Some _ _ _ _ Hm) as [Hl _].
  destruct l as [|c r]; [done|]. cbn [findall]. rewrite Hm. f_equal.
  assert (Hr : r = (name ++ [RBRACKET; LPAREN] ++ url ++ [RPAREN]) ++ rest).
  { unfold link in Hl. cbn [app] in Hl. by injection Hl as _ ->. }
  rewrite Hr at 1 2. rewrite length_app.
  replace (length (name ++ [RBRACKET; LPAREN] ++ url ++ [RPAREN]) + length rest
           - length rest)
    with (length (name ++ [RBRACKET; LPAREN] ++ url ++ [RPAREN])) by lia.
  apply findall_skip.
Qed.

Lemma findall_sound skip l name url :
  (name, url) ∈ findall skip l ->
  (exists pre rest, l = pre ++ link name url ++ rest) /\ well_formed name url.
Proof.
  revert skip; induction l as [|c r IH]; intros skip; cbn [findall].
  { by intros ?%elem_of_nil. }
  assert (Hlater : forall k, (name, url) ∈ findall k r ->
            (exists pre rest, c :: r = pre ++ link name url ++ rest)
            /\ well_formed name url).
  { intros k Hin. destruct (IH k Hin) as [(pre & rest & ->) Hwf].
    split; [|done]. by exists (c :: pre), rest. }
  destruct skip as [|k]; [|apply Hlater].
  destruct (match_at (c :: r)) as [[[n u] rest]|] eqn:Hm; [|apply Hlater].
  intros [[= -> ->]|Hin]%elem_of_cons; [|by eapply Hlater].
  destruct (match_at_Some _ _ _ _ Hm) as [Hl Hwf]. split; [|done].
  by exists [], rest.
Qed.

Lemma elem_of_dict_set {V} (d : list (pystr * V)) k v x :
  x ∈ dict_set d k v -> x = (k, v) \/ x ∈ d.
Proof.
  induction d as [|[k' v'] r IH]; cbn [dict_set].
  { intros ?%list_elem_of_singleton. by left. }
  case_decide as Hk.
  - intros [->|Hin]%elem_of_cons; [by left|]. right. apply elem_of_cons. by right.
  - intros [->|Hin]%elem_of_cons; [right; apply elem_of_cons; by left|].
    destruct (IH Hin) as [->|Hr]; [by left|]. right. apply elem_of_cons. by right.
Qed.

Lemma dict_set_key {V} (d : list (pystr * V)) k v : k ∈ (dict_set d k v).*1.
Proof.
  induction d as [|[k' v'] r IH]; cbn [dict_set].
  { cbn. apply elem_of_cons. by left. }
  case_decide; cbn; apply elem_of_cons; [by left|by right].
Qed.

Lemma dict_set_keep {V} (d : list (pystr * V)) k v x : x ∈ d.*1 -> x ∈ (dict_set d k v).*1.
Proof.
  induction d as [|[k' v'] r IH]; cbn [dict_set].
  { by intros ?%elem_of_nil. }
  cbn [fmap list_fmap fst]. intros [->|Hin]%elem_of_cons.
  - case_decide as Hk; cbn; apply elem_of_cons; left; [by rewrite Hk|done].
  - case_decide; cbn; apply elem_of_cons; right; [done|by apply IH].
Qed.

Lemma dict_set_NoDup {V} (d : list (pystr * V)) k v :
  NoDup d.*1 -> NoDup (dict_set d k v).*1.
Proof.
  induction d as [|[k' v'] r IH]; cbn [dict_set].
  { intros _. cbn. apply NoDup_singleton. }
  cbn [fmap list_fmap fst]. intros [Hk' Hr]%NoDup_cons.
  case_decide as Hk; cbn [fmap list_fmap fst].
  - subst k'. by apply NoDup_cons.
  - apply NoDup_cons. split; [|by apply IH].
    intros Hin. apply list_elem_of_fmap in Hin as ([k1 v1] & -> & Hin).
    apply elem_of_dict_set in Hin as [[= -> ->]|Hin]; [done|].
    apply Hk'. cbn. apply list_elem_of_fmap. by exists (k1, v1).
Qed.

Lemma load_fold (ms acc : list (pystr * pystr)) :
  NoDup acc.*1 ->
  NoDup (fold_left add_company ms acc).*1
  /\ (forall x, x ∈ fold_left add_company ms acc ->
        x ∈ acc \/ (x ∈ ms /\ contains (py "forum") x.2 = true
                    /\ contains (py "bankier") x.2 = true))
  /\ (forall x, x ∈ acc.*1 -> x ∈ (fold_left add_company ms acc).*1)
  /\ (forall x, x ∈ ms -> contains (py "forum") x.2 = true ->
        contains (py "bankier") x.2 = true ->
        x.1 ∈ (fold_left add_company ms acc).*1).
Proof.
  revert acc; induction ms as [|[mn mu] ms IH]; intros acc Hnd; cbn [fold_left].
  { split_and!; [done|by left|done|]. by intros x ?%elem_of_nil. }
  set (m := (mn, mu)) in *.
  assert (Hnd' : NoDup (add_company acc m).*1).
  { unfold add_company. destruct (_ && _); [by apply dict_set_NoDup|done]. }
  destruct (IH _ Hnd') as (H1 & H2 & H3 & H4). split_and!; [done| | |].
  - intros x Hx. destruct (H2 x Hx) as [Hacc|(Hin & Hf & Hb)].
    + unfold add_company in Hacc.
      destruct (contains (py "forum") m.2) eqn:Hf;
        destruct (contains (py "bankier") m.2) eqn:Hb; cbn [andb] in Hacc;
        try by left.
      apply elem_of_dict_set in Hacc as [->|Hacc]; [|by left].
      right. split_and!; [apply elem_of_cons; by left|done|done].
    + right. split_and!; [apply elem_of_cons; by right|done|done].
  - intros x Hx. apply H3. unfold add_company.
    destruct (_ && _); [by apply dict_set_keep|done].
  - intros x [->|Hin]%elem_of_cons Hf Hb; [|by apply H4].
    apply H3. unfold add_company. rewrite Hf, Hb. cbn [andb]. apply dict_set_key.
Qed.

(** X23: the loader returns only companies taken from a markdown link of the
    file whose URL contains both "forum" and "bankier": the link
    [[name](url)] occurs in the file, the name is not empty and has no "]",
    the URL is not empty and has no ")".  Every such link found by the
    pattern gives its name an entry, the names of the entries are pairwise
    distinct, and a missing file gives no company. *)
Theorem load_companies_from_links (file : option pystr) (name url : pystr) :
  ((name, url) ∈ load_companies_from_md file ->
     exists content, file = Some content
       /\ contains (link name url) content = true
       /\ contains (py "forum") url = true /\ contains (py "bankier") url = true
       /\ name <> [] /\ (RBRACKET ∉ name) /\ url <> [] /\ (RPAREN ∉ url))
  /\ (forall content, file = Some content ->
        (name, url) ∈ findall 0 content ->
        contains (py "forum") url = true -> contains (py "bankier") url = true ->
        name ∈ (load_companies_from_md file).*1)
  /\ NoDup (load_companies_from_md file).*1
  /\ load_companies_from_md None = [].
Proof.
  destruct file as [content|]; cbn [load_companies_from_md].
  - destruct (load_fold (findall 0 content) [] (NoDup_nil_2)) as (H1 & H2 & _ & H4).
    split_and!; [| |done|done].
    + intros Hin. destruct (H2 _ Hin) as [?%elem_of_nil|(Hm & Hf & Hb)]; [done|].
      destruct (findall_sound _ _ _ _ Hm) as [(pre & rest & Hc) (Hn & Hnb & Hu & Hub)].
      exists content. split_and!; try done. apply contains_app. by exists pre, rest.
    + intros c [= <-] Hm Hf Hb. exact (H4 (name, url) Hm Hf Hb).
  - split_and!; [by intros ?%elem_of_nil|done|apply NoDup_nil_2|done].
Qed.

Lemma findall_separator sep l :
  LBRACKET ∉ sep -> findall 0 (sep ++ l) = findall 0 l.
Proof.
  induction sep as [|c sep IH]; [done|].
  intros [Hc Hsep]%not_elem_of_cons. cbn [app findall].
  rewrite match_at_other by done. by apply IH.
Qed.

Lemma findall_render sep entries :
  LBRACKET ∉ sep ->
  Forall (fun e => well_formed e.1 e.2) entries ->
  findall 0 (render sep entries) = entries.
Proof.
  intros Hsep. induction 1 as [|[n u] rest Hwf _ IH]; [done|].
  unfold render. cbn [mbind list_bind fst snd]. fold (render sep rest).
  rewrite <- app_assoc, findall_separator by done.
  rewrite (findall_match _ n u (render sep rest)) by (by apply match_at_link).
  by rewrite IH.
Qed.

Lemma fold_add_fresh (entries acc : list (pystr * pystr)) :
  NoDup (acc.*1 ++ entries.*1) ->
  Forall (fun e => contains (py "forum") e.2 = true
                   /\ contains (py "bankier") e.2 = true) entries ->
  fold_left add_company entries acc = acc ++ entries.
Proof.
  revert acc; induction entries as [|[n u] rest IH]; intros acc Hnd Hall; cbn [fold_left].
  { by rewrite app_nil_r. }
  apply Forall_cons in Hall as [[Hf Hb] Hall]. cbn [fst snd] in *.
  unfold add_company at 2. cbn [fst snd]. rewrite Hf, Hb. cbn [andb].
  cbn [fmap list_fmap fst] in Hnd.
  rewrite dict_set_fresh.
  - rewrite IH; [by rewrite <- app_assoc| |done].
    rewrite fmap_app. cbn. by rewrite <- app_assoc.
  - apply NoDup_app in Hnd as (_ & Hd & _). intros Hin. apply (Hd n Hin).
    apply elem_of_cons. by left.
Qed.

(** X24: round trip: a file that consists of markdown links to forum pages of
    bankier, each after some text without "[", with pairwise distinct
    non-empty names without "]" and non-empty URLs without ")", is loaded
    as exactly those companies, in the order of the file. *)
Theorem load_companies_round_trip (sep : pystr) (entries : list (pystr * pystr)) :
  LBRACKET ∉ sep ->
  NoDup entries.*1 ->
  Forall (fun e => e.1 <> [] /\ (RBRACKET ∉ e.1) /\ e.2 <> [] /\ (RPAREN ∉ e.2)
                   /\ contains (py "forum") e.2 = true
                   /\ contains (py "bankier") e.2 = true) entries ->
  load_companies_from_md (Some (render sep entries)) = entries.
Proof.
  intros Hsep Hnd Hall. cbn [load_companies_from_md].
  rewrite findall_render; [|done|].
  - apply (fold_add_fresh entries []); [done|].
    eapply Forall_impl; [exact Hall|]. cbn. tauto.
  - eapply Forall_impl; [exact Hall|]. unfold well_formed. cbn. tauto.
Qed.

End LoaderFacts.

Section LoaderEvaluations.
Import Fundamental Loader MoreSamples.

Lemma load_companies_round_trip_witness :
  load_companies_from_md (Some (render line_start company_lines)) = company_lines.
Proof.
  apply (load_companies_round_trip line_start company_lines).
  - apply (bool_decide_unpack _). vm_compute. exact I.
  - apply (bool_decide_unpack _). vm_compute. exact I.
  - repeat constructor; cbn [fst snd];
      solve [ apply (bool_decide_unpack _); vm_compute; exact I
            | vm_compute; reflexivity ].
Defined.

End LoaderEvaluations.
